(** * Cash-forecast engine: payroll withholding, transaction generation, forecast

  A shallow embedding of the computation core of the cash-forecast
  application (TypeScript) and the properties its specification states
  about it.

  Conventions of the embedding.
  - A JavaScript [number] that carries money or a rate is an exact rational
    ([Q]); rounding of IEEE doubles is not modelled.  Equalities between
    computed amounts are therefore stated with [==] ([Qeq]).
  - A JavaScript [number] that carries a calendar quantity (year, month,
    day) is [Num = option Z], where [None] is [NaN].  The integers are
    exact; a number holds them exactly up to 2^53.
  - A [Date] is the number of days since 1970-01-01 of its local midnight,
    or [None] for an invalid date; every date the code builds is a local
    midnight, so time of day and time zones play no role.  The dates that
    a [Date] holds lie within 100,000,000 days of 1970-01-01 (the years
    -271820 to 275759 in full); [newDate] does not check it, and a theorem
    that builds dates from text bounds the years it speaks of.
  - A string is a sequence of characters with codes below 256.
  - A plain object used as a map from identifiers to numbers is a finite
    map; the properties that such an object inherits ("toString",
    "constructor", "__proto__", ...) are not modelled: identifiers are
    taken not to be such names, and a theorem on the keys that an object
    has says so.
  - [crypto.randomUUID()] and [Date.now()] read a [World] that is threaded
    through the generator explicitly.
  - An optional property ([x?: T]) is an [option]; a property holding
    [undefined] is identified with an absent one. *)

From Stdlib Require Import ZArith QArith Qminmax Qabs Qround Qfield.
From Stdlib Require Import String Ascii List Lia Lqa Bool.
From Stdlib Require Import DecimalString DecimalFacts DecimalPos DecimalZ.
From stdpp Require Import gmap strings list fin_maps.
Import ListNotations.

Local Open Scope Z_scope.

(** ** JavaScript primitives used by the code *)

Module JS.

(** Calendar numbers; [None] is [NaN]. *)
Definition Num : Type := option Z.

Definition lift2 (f : Z -> Z -> Z) (a b : Num) : Num :=
  match a, b with
  | Some x, Some y => Some (f x y)
  | _, _ => None
  end.

(** [Math.min] and [Math.max] return [NaN] when an argument is [NaN]. *)
Definition Math_min : Num -> Num -> Num := lift2 Z.min.
Definition Math_max : Num -> Num -> Num := lift2 Z.max.

(** [Number.isFinite]. *)
Definition isFinite (n : Num) : bool :=
  match n with Some _ => true | None => false end.

(** [n.toString()] and [`${n}`] for an integral number. *)
Definition toString (n : Num) : string :=
  match n with
  | Some z => NilZero.string_of_int (Z.to_int z)
  | None => "NaN"
  end.

(** [s.padStart(2, '0')]. *)
Definition padStart2 (s : string) : string :=
  match s with
  | EmptyString => "00"
  | String c EmptyString => String "0" (String c EmptyString)
  | _ => s
  end.

(** [s.startsWith(p)]. *)
Definition startsWith (s p : string) : bool := String.prefix p s.

(** [s.slice(n)]. *)
Fixpoint slice_from (n : nat) (s : string) : string :=
  match n, s with
  | O, _ => s
  | S n', String _ s' => slice_from n' s'
  | S _, EmptyString => EmptyString
  end.

(** [s.slice(0, n)]. *)
Definition slice_to (n : nat) (s : string) : string := substring 0 n s.

(** [s.split(sep)] for a separator of one character: [cur] holds the
    characters of the current piece, last first. *)
Fixpoint split_go (sep : ascii) (cur : string) (s : string) : list string :=
  match s with
  | EmptyString => [String.rev cur]
  | String c s' =>
      if Ascii.eqb c sep
      then String.rev cur :: split_go sep EmptyString s'
      else split_go sep (String c cur) s'
  end.

Definition split (sep : ascii) (s : string) : list string :=
  split_go sep EmptyString s.

(** Truthiness of a string: the empty string is falsy. *)
Definition truthy (s : string) : bool :=
  match s with EmptyString => false | _ => true end.

(** Truthiness of an optional string property. *)
Definition truthy_opt (o : option string) : bool :=
  match o with Some s => truthy s | None => false end.

(** Truthiness of an optional boolean property. *)
Definition truthy_flag (o : option bool) : bool :=
  match o with Some b => b | None => false end.

Definition digit_of (c : ascii) : option Z :=
  let n := Z.of_nat (nat_of_ascii c) in
  if (48 <=? n) && (n <=? 57) then Some (n - 48) else None.

(** The value of the longest prefix of decimal digits, and whether it is
    non-empty. *)
Fixpoint digits_prefix (acc : Z) (seen : bool) (s : string) : Z * bool :=
  match s with
  | EmptyString => (acc, seen)
  | String c s' =>
      match digit_of c with
      | Some d => digits_prefix (10 * acc + d) true s'
      | None => (acc, seen)
      end
  end.

Fixpoint all_digits (s : string) : bool :=
  match s with
  | EmptyString => true
  | String c s' => isFinite (digit_of c) && all_digits s'
  end.

(** [Number(s)], exact on the empty string and on strings of decimal
    digits, which is what the pieces of an ISO date are.  Every other
    string is mapped to [NaN]; this departs from JavaScript on numerals
    written with a sign, a fraction, an exponent, a radix prefix or
    surrounding white space, and a theorem on dates read from a text takes
    the text to be made of digits and hyphens ([Days.plain_date_text]). *)
Definition Number_ (s : string) : Num :=
  if all_digits s then Some (fst (digits_prefix 0 false s)) else None.

(** The n-th element of the result of [split('-').map(Number)]; a missing
    element is [undefined], which every later use turns into [NaN]. *)
Definition nth_Number (n : nat) (l : list string) : Num :=
  match nth_error l n with
  | Some s => Number_ s
  | None => None
  end.

(** White space among the characters with a code below 256: tab, line
    feed, vertical tab, form feed, carriage return, space and no-break
    space. *)
Definition is_space (c : ascii) : bool :=
  let n := nat_of_ascii c in
  (Nat.eqb n 32 || (Nat.leb 9 n && Nat.leb n 13) || Nat.eqb n 160)%bool.

Fixpoint skip_spaces (s : string) : string :=
  match s with
  | String c s' => if is_space c then skip_spaces s' else s
  | EmptyString => s
  end.

(** The integers that a number holds as a finite value: those below
    2^1024 - 2^970 in absolute value; a larger one becomes an infinity.  An
    integer beyond 2^53 is held rounded; every use the code makes of such a
    number is the same for the rounded and for the exact value. *)
Definition fits_double (v : Z) : bool := Z.abs v <? 2 ^ 1024 - 2 ^ 970.

(** The integer that [parseInt(s, 10)] reads: white space is skipped, then
    an optional sign, then the longest run of decimal digits is read;
    without a digit there is none. *)
Definition read_int (s : string) : Num :=
  let s1 := skip_spaces s in
  let '(neg, s2) :=
    match s1 with
    | String "-" r => (true, r)
    | String "+" r => (false, r)
    | _ => (false, s1)
    end in
  let '(v, seen) := digits_prefix 0 false s2 in
  if seen then Some (if neg then - v else v) else None.

(** [parseInt(s, 10)] where [NaN] and the infinities need not be told
    apart, as in [Number.isFinite(parseInt(s, 10))] and in an argument of
    [new Date]: [None] stands for all three. *)
Definition parseInt (s : string) : Num :=
  match read_int s with
  | Some v => if fits_double v then Some v else None
  | None => None
  end.

Definition hex_digit_of (c : ascii) : option Z :=
  let n := Z.of_nat (nat_of_ascii c) in
  if (48 <=? n) && (n <=? 57) then Some (n - 48)
  else if (97 <=? n) && (n <=? 102) then Some (n - 87)
  else if (65 <=? n) && (n <=? 70) then Some (n - 55)
  else None.

(** The value of the longest prefix of hexadecimal digits, and whether it
    is non-empty. *)
Fixpoint hex_prefix (acc : Z) (seen : bool) (s : string) : Z * bool :=
  match s with
  | EmptyString => (acc, seen)
  | String c s' =>
      match hex_digit_of c with
      | Some d => hex_prefix (16 * acc + d) true s'
      | None => (acc, seen)
      end
  end.

(** [parseInt(s)], without a radix: as [parseInt(s, 10)], but digits that
    follow a prefix [0x] or [0X] are read in base 16.  [None] stands for
    [NaN] and the infinities here too. *)
Definition parseInt_any (s : string) : Num :=
  let s1 := skip_spaces s in
  let '(neg, s2) :=
    match s1 with
    | String "-" r => (true, r)
    | String "+" r => (false, r)
    | _ => (false, s1)
    end in
  let '(v, seen) :=
    match s2 with
    | String "0" (String c r) =>
        if Ascii.eqb c "x" || Ascii.eqb c "X" then hex_prefix 0 false r
        else digits_prefix 0 false s2
    | _ => digits_prefix 0 false s2
    end in
  if seen && fits_double v then Some (if neg then - v else v) else None.

(** [a.localeCompare(b)] and the relational operators on strings, on the
    digits-and-hyphens strings that dates are: the order of the character
    codes. *)
Definition localeCompare (a b : string) : comparison := String.compare a b.
Definition str_le (a b : string) : bool := String.leb a b.

(** [Array.prototype.sort] with a comparator, whose result [Lt], [Eq] or
    [Gt] stands for a negative, zero or positive number.  The sort is
    stable: insertion from the right keeps equal elements in their order. *)
Fixpoint insert_sorted {A} (cmp : A -> A -> comparison) (x : A) (l : list A) : list A :=
  match l with
  | [] => [x]
  | y :: l' =>
      match cmp x y with
      | Gt => y :: insert_sorted cmp x l'
      | _ => x :: l
      end
  end.

Fixpoint sort {A} (cmp : A -> A -> comparison) (l : list A) : list A :=
  match l with
  | [] => []
  | x :: l' => insert_sorted cmp x (sort cmp l')
  end.

(** *** Dates *)

(** Days from 1970-01-01 to the civil date [(y, m, d)] of the proleptic
    Gregorian calendar; the year is counted from March so that the leap day
    comes last. *)
Definition days_from_civil (y m d : Z) : Z :=
  let y' := if m <=? 2 then y - 1 else y in
  let era := y' / 400 in
  let yoe := y' - era * 400 in
  let mp := if m <=? 2 then m + 9 else m - 3 in
  let doy := (153 * mp + 2) / 5 + d - 1 in
  let doe := yoe * 365 + yoe / 4 - yoe / 100 + doy in
  era * 146097 + doe - 719468.

(** The civil date [(year, month, day)] of a day number. *)
Definition civil_from_days (z : Z) : Z * Z * Z :=
  let z' := z + 719468 in
  let era := z' / 146097 in
  let doe := z' mod 146097 in
  let yoe := (doe - doe / 1460 + doe / 36524 - doe / 146096) / 365 in
  let doy := doe - (365 * yoe + yoe / 4 - yoe / 100) in
  let mp := (5 * doy + 2) / 153 in
  let d := doy - (153 * mp + 2) / 5 + 1 in
  let m := if mp <? 10 then mp + 3 else mp - 9 in
  let y := yoe + era * 400 in
  (if m <=? 2 then y + 1 else y, m, d).

(** A [Date] object: the day number of its local midnight, or [None] for
    an invalid date. *)
Definition Date : Type := option Z.

(** [new Date(year, monthIndex, day)]: a year from 0 to 99 means 1900 +
    year; month index and day may lie outside their ranges and carry over.
    That the day lies within the days of a [Date] ([Days.Date_limit]) is
    not checked here. *)
Definition newDate (year monthIndex day : Num) : Date :=
  match year, monthIndex, day with
  | Some y, Some m, Some d =>
      let y' := if (0 <=? y) && (y <=? 99) then 1900 + y else y in
      Some (days_from_civil (y' + m / 12) (m mod 12 + 1) 1 + (d - 1))
  | _, _, _ => None
  end.

Definition getFullYear (t : Date) : Num :=
  option_map (fun z => fst (fst (civil_from_days z))) t.
(** [getMonth] is the month index, from 0. *)
Definition getMonth (t : Date) : Num :=
  option_map (fun z => snd (fst (civil_from_days z)) - 1) t.
Definition getDate (t : Date) : Num :=
  option_map (fun z => snd (civil_from_days z)) t.

(** The relational operators on two dates compare their time values and
    are false when one of them is invalid. *)
Definition date_lt (a b : Date) : bool :=
  match a, b with Some x, Some y => x <? y | _, _ => false end.
Definition date_le (a b : Date) : bool :=
  match a, b with Some x, Some y => x <=? y | _, _ => false end.
Definition date_ge (a b : Date) : bool := date_le b a.

Definition add (a b : Num) : Num := lift2 Z.add a b.
Definition sub (a b : Num) : Num := lift2 Z.sub a b.

End JS.

(** ** Payroll types (src/lib/payroll/types.ts) *)

Module PayrollTypes.

Inductive FilingStatus := single | married_joint | head_of_household.
Inductive PayCycle := weekly | biweekly | semimonthly | monthly.
Inductive ContributionMode := percent | fixed_per_paycheck.
Inductive BonusWithholdingMethod := supplemental_flat | regular_annualized.

Record Payroll401kSettings := mkK401 {
  enabled : bool;
  contribution_mode : ContributionMode;
  contribution_value : Q;
  enforce_annual_max : bool;
  catch_up_enabled : bool;
  catch_up_amount_override : option Q
}.

Record PayrollBenefitsSettings := mkBenefits {
  pre_tax_benefits_per_paycheck : Q;
  post_tax_deductions_per_paycheck : Q
}.

Record PayrollFicaSettings := mkFicaSettings {
  include_fica : bool;
  ss_wage_base_override : option Q;
  additional_medicare_threshold_override : option Q
}.

Record BonusEvent := mkBonusEvent {
  bonus_id : string;
  bonus_date : string;
  gross_amount : Q;
  method : BonusWithholdingMethod;
  bonus_description : option string
}.

Record PayrollSettings := mkPayrollSettings {
  tax_year : Z;
  filing_status : FilingStatus;
  pay_cycle : PayCycle;
  settings_paycheck_anchor_date : option string;
  settings_paycheck_category_id : option string;
  salary_annual : Q;
  dependents_count : Q;
  dependent_credit_override : option Q;
  other_income_annual : option Q;
  deductions_annual : option Q;
  extra_withholding_per_paycheck : option Q;
  state_withholding_flat_rate : option Q;
  k401 : Payroll401kSettings;      (* the property ['401k'] *)
  benefits : PayrollBenefitsSettings;
  fica_settings : PayrollFicaSettings;   (* the property [fica] *)
  bonus_events : list BonusEvent
}.

Record TaxBracket := mkBracket {
  lowerBound : Q;
  upperBound : option Q;   (* [null] is [None] *)
  rate : Q
}.

Record FicaConfig := mkFicaConfig {
  ss_rate : Q;
  medicare_rate : Q;
  ss_wage_base : Q;
  additional_medicare_rate : Q;
  (* [number | Record<FilingStatus, number>] *)
  additional_medicare_threshold : Q + (FilingStatus -> Q)
}.

Record RetirementLimits := mkRetirement {
  k401_employee_max : Q;
  k401_catch_up_max : Q
}.

Record TaxTableSet := mkTaxTableSet {
  table_tax_year : Z;
  federal_income_tax_brackets : FilingStatus -> list TaxBracket;
  standard_deduction : FilingStatus -> Q;
  per_dependent_credit_amount : Q;   (* [dependent_credit.per_dependent_credit_amount] *)
  federal_supplemental_withholding_rate : option Q;
  fica : FicaConfig;
  retirement : RetirementLimits
}.

End PayrollTypes.

(** ** Federal withholding (src/lib/payroll/federal/withholding.ts) *)

Module Withholding.

Import PayrollTypes.
Local Open Scope Q_scope.

(** [Math.min(taxableIncome, bracket.upperBound ?? Infinity)]. *)
Definition min_with_upper (taxableIncome : Q) (upper : option Q) : Q :=
  match upper with
  | Some u => Qmin taxableIncome u
  | None => taxableIncome
  end.

(** The callback of the [reduce] in [calculateAnnualTax]. *)
Definition tax_step (taxableIncome : Q) (sum : Q) (bracket : TaxBracket) : Q :=
  let upper := upperBound bracket in
  let taxableAtBracket :=
    Qmax 0 (min_with_upper taxableIncome upper - lowerBound bracket) in
  if Qle_bool taxableAtBracket 0 then sum
  else sum + taxableAtBracket * rate bracket.

Definition calculateAnnualTax (taxableIncome : Q) (brackets : list TaxBracket) : Q :=
  if Qle_bool taxableIncome 0 then 0
  else fold_left (tax_step taxableIncome) brackets 0.

Record WithholdingInput := mkWithholdingInput {
  taxableWagesPerPaycheck : Q;
  payPeriodsPerYear : Q;
  filingStatus : FilingStatus;
  standardDeduction : Q;
  deductionsAnnual : Q;
  otherIncomeAnnual : Q;
  brackets : list TaxBracket;
  dependentCredit : Q;
  dependentsCount : Q;
  dependentCreditOverride : option Q;
  extraWithholdingPerPaycheck : Q
}.

Definition calculateFederalWithholding (i : WithholdingInput) : Q :=
  let annualizedWages := taxableWagesPerPaycheck i * payPeriodsPerYear i in
  let adjustedIncome := annualizedWages + otherIncomeAnnual i in
  let totalDeductions := standardDeduction i + deductionsAnnual i in
  let taxableIncome := Qmax 0 (adjustedIncome - totalDeductions) in
  let annualTax := calculateAnnualTax taxableIncome (brackets i) in
  let credit :=
    match dependentCreditOverride i with
    | Some c => c
    | None => dependentsCount i * dependentCredit i
    end in
  let annualAfterCredits := Qmax 0 (annualTax - credit) in
  let perPaycheck := annualAfterCredits / payPeriodsPerYear i in
  Qmax 0 (perPaycheck + extraWithholdingPerPaycheck i).

(** The specification's reading of marginal taxation: the part of the
    income that lies in a bracket, and the sum of the parts, each taxed at
    its bracket's rate. *)
Definition portion_in_bracket (income : Q) (b : TaxBracket) : Q :=
  Qmax 0 (min_with_upper income (upperBound b) - lowerBound b).

Fixpoint marginal_tax (income : Q) (bs : list TaxBracket) : Q :=
  match bs with
  | [] => 0
  | b :: bs' => portion_in_bracket income b * rate b + marginal_tax income bs'
  end.

(** The two-bracket table of the specification's example. *)
Definition example_brackets : list TaxBracket :=
  [ mkBracket 0 (Some 10000) (1 # 10); mkBracket 10000 None (2 # 10) ].

End Withholding.

(** ** Calendar helpers shared by the payroll engine and the generator

  [parseDate], [formatDate] and the two loops of [getDatesByInterval] are
  written twice in the repository, with the same text (next to
  [calculatePayrollForMonth] and next to [generateMonthTransactions]); they
  are embedded once. *)

Module Calendar.

Import JS.
Local Open Scope string_scope.

Definition parseDate (value : string) : Date :=
  let parts := split "-" value in
  let year := nth_Number 0 parts in
  let month := nth_Number 1 parts in
  let day := nth_Number 2 parts in
  newDate year (sub month (Some 1)) day.

Definition formatDate (date : Date) : string :=
  let year := getFullYear date in
  let month := padStart2 (toString (add (getMonth date) (Some 1))) in
  let day := padStart2 (toString (getDate date)) in
  toString year ++ "-" ++ month ++ "-" ++ day.

(** [new Date(current.getFullYear(), current.getMonth(),
    current.getDate() + intervalDays)]. *)
Definition stepDate (current : Date) (intervalDays : Z) : Date :=
  newDate (getFullYear current) (getMonth current)
          (add (getDate current) (Some intervalDays)).

(** The number of days from [a] to [b], zero when [b] is not later or a
    date is invalid: a bound on the iterations of a loop that runs while
    the first date is before the second and moves it forward. *)
Definition days_until (a b : Date) : nat :=
  match a, b with
  | Some x, Some y => Z.to_nat (y - x)
  | _, _ => O
  end.

(** [while (current < start) current = stepDate(current)]. *)
Fixpoint advance_loop (fuel : nat) (start current : Date) (intervalDays : Z) : Date :=
  match fuel with
  | O => current
  | S fuel' =>
      if date_lt current start
      then advance_loop fuel' start (stepDate current intervalDays) intervalDays
      else current
  end.

(** [while (current <= end) { if (current >= start) dates.push(...);
    current = stepDate(current) }]. *)
Fixpoint collect_loop (fuel : nat) (start end_ current : Date) (intervalDays : Z)
  : list string :=
  match fuel with
  | O => []
  | S fuel' =>
      if date_le current end_
      then (if date_ge current start then [formatDate current] else [])
             ++ collect_loop fuel' start end_ (stepDate current intervalDays) intervalDays
      else []
  end.

Definition datesByInterval (start end_ anchorDate : Date) (intervalDays : Z)
  : list string :=
  let current := advance_loop (days_until anchorDate start) start anchorDate intervalDays in
  collect_loop (S (days_until current end_)) start end_ current intervalDays.

Record MonthInfo := mkMonthInfo {
  year : Num;
  month : Num;
  daysInMonth : Num;
  start : Date;
  end_ : Date
}.

Definition getMonthInfo (monthId : string) : MonthInfo :=
  let parts := split "-" monthId in
  let year := nth_Number 0 parts in
  let month := nth_Number 1 parts in
  let daysInMonth := getDate (newDate year month (Some 0)) in
  {| year := year;
     month := month;
     daysInMonth := daysInMonth;
     start := newDate year (sub month (Some 1)) (Some 1);
     end_ := newDate year (sub month (Some 1)) daysInMonth |}.

(** [`${monthId}-${n.toString().padStart(2, '0')}`]. *)
Definition dateInMonth (monthId : string) (n : Num) : string :=
  monthId ++ "-" ++ padStart2 (toString n).

End Calendar.

(** ** Payroll engine (src/lib/payroll/engine.ts) *)

Module Payroll.

Import JS Calendar PayrollTypes Withholding.
Local Open Scope string_scope.

Record PayrollYtd := mkYtd {
  ytd_gross : Q;
  ytd_taxable_wages : Q;
  ytd_k401_contribution : Q;
  ytd_ss_wages : Q;
  ytd_medicare_wages : Q;
  ytd_federal_withholding : Q;
  ytd_fica_withholding : Q;
  ytd_net : Q
}.

Record PayrollPaycheckResult := mkPaycheckResult {
  id : string;
  date : string;
  gross : Q;
  k401_contribution : Q;
  pre_tax_benefits : Q;
  taxable_wages : Q;
  federal_withholding : Q;
  state_withholding : Q;
  ss_withholding : Q;
  medicare_withholding : Q;
  additional_medicare_withholding : Q;
  fica_withholding : Q;
  post_tax_deductions : Q;
  net : Q;
  is_bonus : bool;
  bonus_method : option BonusWithholdingMethod;
  description : option string;
  ytd : PayrollYtd
}.

(** [StateTaxPluginInput]; the plugin returns [{ withholding }]. *)
Record StateTaxPluginInput := mkStateInput {
  state_gross : Q;
  state_taxableWages : Q;
  state_filingStatus : FilingStatus;
  state_date : string
}.
Definition StateTaxPlugin : Type := StateTaxPluginInput -> Q.

Definition getMonthlyDate (monthId : string) (day : Num) : string :=
  let daysInMonth := daysInMonth (getMonthInfo monthId) in
  let clamped := Math_min (Math_max day (Some 1)) daysInMonth in
  dateInMonth monthId clamped.

Definition getDatesByInterval := datesByInterval.

Definition getPayDatesForMonth (monthId : string) (schedule : PayCycle)
           (anchorDate : string) : list string :=
  let info := getMonthInfo monthId in
  match schedule with
  | weekly => getDatesByInterval (start info) (end_ info) (parseDate anchorDate) 7
  | biweekly => getDatesByInterval (start info) (end_ info) (parseDate anchorDate) 14
  | semimonthly => [ monthId ++ "-15"; dateInMonth monthId (daysInMonth info) ]
  | monthly =>
      let anchorDay := getDate (parseDate anchorDate) in
      [ getMonthlyDate monthId anchorDay ]
  end.

Definition getPayPeriodsPerYear (schedule : PayCycle) : Q :=
  match schedule with
  | weekly => 52
  | biweekly => 26
  | semimonthly => 24
  | monthly => 12
  end.

Definition resolveAdditionalMedicareThreshold
           (threshold : Q + (FilingStatus -> Q)) (filingStatus : FilingStatus) : Q :=
  match threshold with
  | inl n => n
  | inr per_status => per_status filingStatus
  end.

(** The months ["YYYY-01"] to the month of [monthId]: the [for] loop runs
    for [i] from 1 to [Number(monthId.split('-')[1])] and not at all when
    that is [NaN]. *)
Definition monthsToDate (monthId : string) : list string :=
  let year := hd "" (split "-" monthId) in
  match nth_Number 1 (split "-" monthId) with
  | Some n =>
      map (fun i => year ++ "-" ++ padStart2 (toString (Some (Z.of_nat i))))
          (seq 1 (Z.to_nat n))
  | None => []
  end.

Definition buildYearToDatePayDates (monthId : string) (schedule : PayCycle)
           (anchorDate : string) : list string :=
  flat_map (fun id => getPayDatesForMonth id schedule anchorDate)
           (monthsToDate monthId).

Record PayrollEvent := mkEvent {
  ev_id : string;
  ev_date : string;
  ev_is_bonus : bool;
  ev_bonus_method : option BonusWithholdingMethod;
  ev_description : option string;
  ev_gross_override : option Q
}.

(** The comparator passed to [sort] in [buildPayrollEvents]. *)
Definition compareEvents (a b : PayrollEvent) : comparison :=
  if String.eqb (ev_date a) (ev_date b) then
    if Bool.eqb (ev_is_bonus a) (ev_is_bonus b) then Eq
    else if ev_is_bonus a then Gt else Lt
  else localeCompare (ev_date a) (ev_date b).

Definition regularEvent (date : string) : PayrollEvent :=
  {| ev_id := "regular:" ++ date;
     ev_date := date;
     ev_is_bonus := false;
     ev_bonus_method := None;
     ev_description := None;
     ev_gross_override := None |}.

Definition bonusEvent (event : BonusEvent) : PayrollEvent :=
  {| ev_id := "bonus:" ++ bonus_id event;
     ev_date := bonus_date event;
     ev_is_bonus := true;
     ev_bonus_method := Some (method event);
     ev_description :=
       Some (if truthy_opt (bonus_description event)
             then default "" (bonus_description event) else "Bonus");
     ev_gross_override := Some (gross_amount event) |}.

Definition buildPayrollEvents (monthId : string) (schedule : PayCycle)
           (anchorDate : string) (bonusEvents : list BonusEvent) : list PayrollEvent :=
  let payDates := buildYearToDatePayDates monthId schedule anchorDate in
  let regularEvents := map regularEvent payDates in
  let bonusEventsInRange :=
    map bonusEvent
        (List.filter (fun event => str_le (slice_to 7 (bonus_date event)) monthId)
                     bonusEvents) in
  sort compareEvents (regularEvents ++ bonusEventsInRange).

Local Open Scope Q_scope.

(** The running year-to-date totals, all zero before the first event. *)
Definition ytd_start : PayrollYtd := mkYtd 0 0 0 0 0 0 0 0.

(** [k401Max]: the table's employee maximum plus the catch-up amount. *)
Definition k401Max (payrollSettings : PayrollSettings) (taxTables : TaxTableSet) : Q :=
  let k401Settings := k401 payrollSettings in
  k401_employee_max (retirement taxTables)
  + (if catch_up_enabled k401Settings
     then match catch_up_amount_override k401Settings with
          | Some o => o
          | None => k401_catch_up_max (retirement taxTables)
          end
     else 0).

(** [desired] of a regular event. *)
Definition desiredContribution (k401Settings : Payroll401kSettings) (gross : Q) : Q :=
  match contribution_mode k401Settings with
  | percent => gross * (contribution_value k401Settings / 100)
  | fixed_per_paycheck => contribution_value k401Settings
  end.

Definition or_zero (o : option Q) : Q := default 0 o.

(** The body of [events.forEach]: the totals before the event give the
    totals after it and the event's paycheck. *)
Definition processEvent (payPeriodsPerYear grossPerPaycheck : Q)
           (payrollSettings : PayrollSettings) (taxTables : TaxTableSet)
           (stateWithholding : option StateTaxPlugin)
           (acc : PayrollYtd) (event : PayrollEvent)
  : PayrollYtd * PayrollPaycheckResult :=
  let isBonus := ev_is_bonus event in
  let gross := if isBonus then or_zero (ev_gross_override event) else grossPerPaycheck in
  let k401Settings := k401 payrollSettings in
  let k401Max := k401Max payrollSettings taxTables in
  let k401Contribution :=
    if enabled k401Settings && negb isBonus then
      let desired := desiredContribution k401Settings gross in
      if enforce_annual_max k401Settings then
        let remaining := Qmax 0 (k401Max - ytd_k401_contribution acc) in
        Qmin desired remaining
      else desired
    else 0 in
  let preTaxBenefits :=
    if isBonus then 0 else pre_tax_benefits_per_paycheck (benefits payrollSettings) in
  let taxableWages := Qmax 0 (gross - k401Contribution - preTaxBenefits) in
  let standardDeduction := standard_deduction taxTables (filing_status payrollSettings) in
  let deductionsAnnual := or_zero (deductions_annual payrollSettings) in
  let otherIncomeAnnual := or_zero (other_income_annual payrollSettings) in
  let extraWithholding :=
    if isBonus then 0 else or_zero (extra_withholding_per_paycheck payrollSettings) in
  let federalWithholding :=
    match isBonus, ev_bonus_method event with
    | true, Some supplemental_flat =>
        let supplementalRate := or_zero (federal_supplemental_withholding_rate taxTables) in
        taxableWages * supplementalRate
    | _, _ =>
        calculateFederalWithholding
          {| taxableWagesPerPaycheck := taxableWages;
             Withholding.payPeriodsPerYear := payPeriodsPerYear;
             filingStatus := filing_status payrollSettings;
             standardDeduction := standardDeduction;
             deductionsAnnual := deductionsAnnual;
             otherIncomeAnnual := otherIncomeAnnual;
             brackets := federal_income_tax_brackets taxTables (filing_status payrollSettings);
             dependentCredit := per_dependent_credit_amount taxTables;
             dependentsCount := dependents_count payrollSettings;
             dependentCreditOverride := dependent_credit_override payrollSettings;
             extraWithholdingPerPaycheck := extraWithholding |}
    end in
  let '(ssWithholding, medicareWithholding, additionalMedicareWithholding) :=
    if include_fica (fica_settings payrollSettings) then
      let ssWageBase :=
        match ss_wage_base_override (fica_settings payrollSettings) with
        | Some o => o
        | None => ss_wage_base (fica taxTables)
        end in
      let ssRemaining := Qmax 0 (ssWageBase - ytd_ss_wages acc) in
      let ssTaxable := Qmin gross ssRemaining in
      let threshold :=
        match additional_medicare_threshold_override (fica_settings payrollSettings) with
        | Some o => o
        | None =>
            resolveAdditionalMedicareThreshold
              (additional_medicare_threshold (fica taxTables))
              (filing_status payrollSettings)
        end in
      let medicareAboveThreshold :=
        Qmax 0 (ytd_medicare_wages acc + gross - threshold)
        - Qmax 0 (ytd_medicare_wages acc - threshold) in
      (ssTaxable * ss_rate (fica taxTables),
       gross * medicare_rate (fica taxTables),
       medicareAboveThreshold * additional_medicare_rate (fica taxTables))
    else (0, 0, 0) in
  let ficaWithholding :=
    ssWithholding + medicareWithholding + additionalMedicareWithholding in
  let flatStateRate := or_zero (state_withholding_flat_rate payrollSettings) in
  let stateResult :=
    match stateWithholding with
    | Some plugin =>
        plugin {| state_gross := gross;
                  state_taxableWages := taxableWages;
                  state_filingStatus := filing_status payrollSettings;
                  state_date := ev_date event |}
    | None => taxableWages * (flatStateRate / 100)
    end in
  let postTaxDeductions :=
    if isBonus then 0 else post_tax_deductions_per_paycheck (benefits payrollSettings) in
  let net :=
    gross - k401Contribution - preTaxBenefits - federalWithholding - stateResult
    - ficaWithholding - postTaxDeductions in
  let acc' :=
    {| ytd_gross := ytd_gross acc + gross;
       ytd_taxable_wages := ytd_taxable_wages acc + taxableWages;
       ytd_k401_contribution := ytd_k401_contribution acc + k401Contribution;
       ytd_ss_wages := ytd_ss_wages acc + gross;
       ytd_medicare_wages := ytd_medicare_wages acc + gross;
       ytd_federal_withholding := ytd_federal_withholding acc + federalWithholding;
       ytd_fica_withholding := ytd_fica_withholding acc + ficaWithholding;
       ytd_net := ytd_net acc + net |} in
  (acc',
   {| id := ev_id event;
      date := ev_date event;
      gross := gross;
      k401_contribution := k401Contribution;
      pre_tax_benefits := preTaxBenefits;
      taxable_wages := taxableWages;
      federal_withholding := federalWithholding;
      state_withholding := stateResult;
      ss_withholding := ssWithholding;
      medicare_withholding := medicareWithholding;
      additional_medicare_withholding := additionalMedicareWithholding;
      fica_withholding := ficaWithholding;
      post_tax_deductions := postTaxDeductions;
      net := net;
      is_bonus := isBonus;
      bonus_method := ev_bonus_method event;
      description := ev_description event;
      ytd := acc' |}).

(** [events.forEach] from given totals: the paycheck of every event, in
    the order of the events, and the totals at the end. *)
Fixpoint processEvents (payPeriodsPerYear grossPerPaycheck : Q)
         (payrollSettings : PayrollSettings) (taxTables : TaxTableSet)
         (stateWithholding : option StateTaxPlugin)
         (acc : PayrollYtd) (events : list PayrollEvent)
  : list PayrollPaycheckResult * PayrollYtd :=
  match events with
  | [] => ([], acc)
  | event :: rest =>
      let '(acc', result) :=
        processEvent payPeriodsPerYear grossPerPaycheck payrollSettings taxTables
                     stateWithholding acc event in
      let '(results, final) :=
        processEvents payPeriodsPerYear grossPerPaycheck payrollSettings taxTables
                      stateWithholding acc' rest in
      (result :: results, final)
  end.

(** All the paychecks of the year to date, before the ones outside
    [monthId] are left out of [results]. *)
Definition paychecksToDate (monthId : string) (schedule : PayCycle) (anchorDate : string)
           (payrollSettings : PayrollSettings) (taxTables : TaxTableSet)
           (stateWithholding : option StateTaxPlugin) : list PayrollPaycheckResult :=
  let payPeriodsPerYear := getPayPeriodsPerYear schedule in
  let grossPerPaycheck := salary_annual payrollSettings / payPeriodsPerYear in
  let events := buildPayrollEvents monthId schedule anchorDate (bonus_events payrollSettings) in
  fst (processEvents payPeriodsPerYear grossPerPaycheck payrollSettings taxTables
                     stateWithholding ytd_start events).

(** The result is [{ paychecks: results }]; a paycheck is pushed when
    [event.date.startsWith(monthId)]. *)
Definition calculatePayrollForMonth (monthId : string) (schedule : PayCycle)
           (anchorDate : string) (payrollSettings : PayrollSettings)
           (taxTables : TaxTableSet) (stateWithholding : option StateTaxPlugin)
  : list PayrollPaycheckResult :=
  List.filter (fun result => startsWith (date result) monthId)
              (paychecksToDate monthId schedule anchorDate payrollSettings taxTables
                               stateWithholding).

End Payroll.

(** ** Application types (src/types.ts) *)

Module Types.

(** [credit_card] is not in the [AccountType] union any more; stored
    settings may still hold it and [normalizeAccounts] tests for it. *)
Inductive AccountType := checking | savings | investment | loan | credit_card.
Inductive RecurringCadence := cad_monthly | cad_weekly | cad_biweekly | cad_semimonthly.
Inductive RecurringItemType := income | expense | transfer.
Inductive PaycheckSchedule := sch_weekly | sch_biweekly | sch_semimonthly | sch_monthly.
Inductive Source := generated | manual.

Record Account := mkAccount {
  acc_id : string;
  acc_name : string;
  acc_type : AccountType;
  included_in_cash_forecast : bool;
  acc_created_at : Z;
  acc_updated_at : Z
}.

Record Transaction := mkTransaction {
  tx_id : string;
  tx_date : string;
  tx_amount : Q;
  tx_account_id : string;
  tx_transfer_account_id : option string;
  tx_transaction_type : option RecurringItemType;
  tx_category_id : string;
  tx_description : string;
  tx_notes : option string;
  tx_loan_id : option string;
  tx_created_at : Z;
  tx_updated_at : Z;
  tx_source : option Source;
  tx_source_item_id : option string;
  tx_generated_batch_id : option string
}.

Record StartingBalance := mkStartingBalance {
  sb_account_id : string;
  sb_amount : Q
}.

Record RecurringItem := mkRecurringItem {
  item_id : string;
  item_name : string;
  item_category_id : string;
  item_account_id : string;
  item_transfer_account_id : option string;
  item_loan_id : option string;
  cadence : RecurringCadence;
  default_amount : Q;
  day_rule : string;
  item_type : RecurringItemType;
  item_enabled : bool;
  anchor_date : option string
}.

Record PaycheckEntry := mkPaycheckEntry {
  entry_id : string;
  entry_date : string;
  entry_amount : Q;
  entry_is_bonus : option bool;
  entry_description : option string
}.

Record PaycheckDepositSplit := mkSplit {
  split_id : string;
  split_account_id : string;
  split_amount : Q;
  is_remainder : option bool
}.

Record VariableOverride := mkVariableOverride {
  vo_item_id : string;
  vo_amount : Q
}.

Record OneOffAdjustment := mkOneOff {
  adj_id : string;
  adj_date : string;
  adj_description : string;
  adj_amount : Q;
  adj_account_id : string;
  adj_transfer_account_id : option string;
  adj_category_id : string;
  adj_loan_id : option string;
  adj_type : RecurringItemType
}.

Record MonthSetup := mkMonthSetup {
  paycheck_schedule : PaycheckSchedule;
  paycheck_anchor_date : string;
  paycheck_deposit_splits : list PaycheckDepositSplit;
  paycheck_category_id : string;
  paycheck_default_amount : Q;
  paycheck_estimates : option (list PaycheckEntry);
  paycheck_overrides : list PaycheckEntry;
  variable_overrides : list VariableOverride;
  one_offs : list OneOffAdjustment;
  last_generated_at : Z;
  generation_version : Z
}.

(** The fields of [MonthSnapshot] the forecast reads. *)
Record MonthSnapshot := mkSnapshot {
  snapshot_id : string;
  accounts : list Account;
  transactions : list Transaction;
  starting_balances : list StartingBalance
}.

Record ForecastPoint := mkForecastPoint {
  point_date : string;
  balances : gmap string Q;
  total_cash : Q
}.

End Types.

(** ** The outside world of the generator

  [crypto.randomUUID()] and [Date.now()] are the only effects of the code;
  a [World] gives the identifiers and the clock readings still to come. *)

Module Effects.

Record World := mkWorld {
  uuids : nat -> string;
  clock : nat -> Z
}.

Definition Gen (A : Type) : Type := World -> A * World.

Definition ret {A} (a : A) : Gen A := fun w => (a, w).

Definition bind {A B} (m : Gen A) (k : A -> Gen B) : Gen B :=
  fun w => let '(a, w') := m w in k a w'.

Definition randomUUID : Gen string :=
  fun w => (uuids w O, {| uuids := fun n => uuids w (S n); clock := clock w |}).

Definition Date_now : Gen Z :=
  fun w => (clock w O, {| uuids := uuids w; clock := fun n => clock w (S n) |}).

(** [l.map(f)] when [f] has effects: left to right. *)
Fixpoint mapM {A B} (f : A -> Gen B) (l : list A) : Gen (list B) :=
  match l with
  | [] => ret []
  | x :: l' =>
      bind (f x) (fun y => bind (mapM f l') (fun ys => ret (y :: ys)))
  end.

(** [l.flatMap(f)] when [f] has effects. *)
Fixpoint flatMapM {A B} (f : A -> Gen (list B)) (l : list A) : Gen (list B) :=
  match l with
  | [] => ret []
  | x :: l' =>
      bind (f x) (fun ys => bind (flatMapM f l') (fun zs => ret (ys ++ zs)))
  end.

End Effects.

Declare Scope gen_scope.
Delimit Scope gen_scope with gen.
Notation "'let*' x := c 'in' k" := (Effects.bind c (fun x => k))
(at level 10, x name, c at level 100, k at level 200) : gen_scope.

(** ** Transaction generator ([generateMonthTransactions] and its helpers) *)

Module Generation.

Import JS Calendar Types Effects.
Local Open Scope string_scope.
Local Open Scope Q_scope.

Inductive GenerateMode := missing | regenerate | reset.

Definition getDatesByInterval (monthId anchorDate : string) (intervalDays : Z)
  : list string :=
  let info := getMonthInfo monthId in
  datesByInterval (start info) (end_ info) (parseDate anchorDate) intervalDays.

Definition getMonthlyDate (monthId dayRule : string) (fallbackDay : Num) : string :=
  let daysInMonth := daysInMonth (getMonthInfo monthId) in
  if String.eqb dayRule "last" then dateInMonth monthId daysInMonth
  else
    let raw := if startsWith dayRule "day:" then slice_from 4 dayRule else dayRule in
    let dayNum := parseInt raw in
    let day := if isFinite dayNum then dayNum else fallbackDay in
    let clamped := Math_min (Math_max day (Some 1%Z)) daysInMonth in
    dateInMonth monthId clamped.

Definition getScheduleDates (monthId : string) (schedule : PaycheckSchedule)
           (anchorDate : string) : list string :=
  let daysInMonth := daysInMonth (getMonthInfo monthId) in
  match schedule with
  | sch_weekly => getDatesByInterval monthId anchorDate 7
  | sch_biweekly => getDatesByInterval monthId anchorDate 14
  | sch_semimonthly => [ monthId ++ "-15"; dateInMonth monthId daysInMonth ]
  | sch_monthly =>
      let anchorDay := getDate (parseDate anchorDate) in
      [ getMonthlyDate monthId (toString anchorDay) (Some 1%Z) ]
  end.

Definition resolveAmount (type : RecurringItemType) (amount : Q) : Q :=
  let absolute := Qabs amount in
  match type with
  | income => absolute
  | _ => - absolute
  end.

(** [Math.round] rounds to the nearest integer, a half upwards. *)
Definition Math_round (x : Q) : Q := inject_Z (Qfloor (x + (1 # 2))).

(** [Math.round(value * 100) / 100] on the exact value.  The product of
    doubles may fall on the other side of a half cent, so a theorem on a
    rounded amount either bounds it within half a cent or takes an amount
    of whole cents, which both roundings leave as it is. *)
Definition roundToCents (value : Q) : Q := Math_round (value * 100) / 100.

(** [x !== 0] on amounts. *)
Definition nonzero (x : Q) : bool := negb (Qeq_bool x 0).

Definition paycheckKind (is_bonus : option bool) : string :=
  if truthy_flag is_bonus then "bonus" else "paycheck".

(** [entry.description || (entry.is_bonus ? 'Bonus' : 'Paycheck')]. *)
Definition paycheckDescription (entry : PaycheckEntry) : string :=
  if truthy_opt (entry_description entry) then default "" (entry_description entry)
  else if truthy_flag (entry_is_bonus entry) then "Bonus" else "Paycheck".

(** The transaction pushed for one deposit split of a paycheck entry. *)
Definition splitTransaction (entry : PaycheckEntry) (monthSetup : MonthSetup)
           (createdAt : Z) (generatedBatchId : string)
           (account_id : string) (amount : Q) : Gen Transaction :=
  (let* id := randomUUID in
   ret {| tx_id := id;
          tx_date := entry_date entry;
          tx_amount := amount;
          tx_account_id := account_id;
          tx_transfer_account_id := None;
          tx_transaction_type := None;
          tx_category_id := paycheck_category_id monthSetup;
          tx_description := paycheckDescription entry;
          tx_notes := None;
          tx_loan_id := None;
          tx_created_at := createdAt;
          tx_updated_at := createdAt;
          tx_source := Some generated;
          tx_source_item_id :=
            Some (paycheckKind (entry_is_bonus entry) ++ ":" ++ entry_date entry
                  ++ ":" ++ account_id);
          tx_generated_batch_id := Some generatedBatchId |})%gen.

Definition eligibleSplits (splits : list PaycheckDepositSplit) : list PaycheckDepositSplit :=
  List.filter (fun split => truthy (split_account_id split)) splits.

(** [fixedSplits]: the eligible splits that are not the remainder and have
    an amount, with the amount made positive. *)
Definition fixedSplits (splits : list PaycheckDepositSplit) : list PaycheckDepositSplit :=
  map (fun split =>
         {| split_id := split_id split;
            split_account_id := split_account_id split;
            split_amount := Qabs (split_amount split);
            is_remainder := is_remainder split |})
      (List.filter (fun split => negb (truthy_flag (is_remainder split))
                                 && nonzero (split_amount split))
                   (eligibleSplits splits)).

Definition buildPaycheckSplitTransactions (entry : PaycheckEntry)
           (splits : list PaycheckDepositSplit) (monthSetup : MonthSetup)
           (createdAt : Z) (generatedBatchId : string) : Gen (list Transaction) :=
  if negb (truthy (paycheck_category_id monthSetup)) then ret []
  else
    let eligibleSplits := eligibleSplits splits in
    match eligibleSplits with
    | [] => ret []
    | _ =>
        let remainderSplit :=
          List.find (fun split => truthy_flag (is_remainder split)) eligibleSplits in
        let fixedSplits := fixedSplits splits in
        let fixedTotal := fold_left (fun sum split => sum + split_amount split) fixedSplits 0 in
        let absoluteAmount := Qabs (entry_amount entry) in
        (let* tx :=
           mapM (fun split =>
                   splitTransaction entry monthSetup createdAt generatedBatchId
                                    (split_account_id split) (split_amount split))
                fixedSplits in
         match remainderSplit with
         | Some remainderSplit =>
             let remainderAmount := roundToCents (Qmax (absoluteAmount - fixedTotal) 0) in
             if nonzero remainderAmount then
               let* last :=
                 splitTransaction entry monthSetup createdAt generatedBatchId
                                  (split_account_id remainderSplit) remainderAmount in
               ret (tx ++ [last])%list
             else ret tx
         | None => ret tx
         end)%gen
    end.

(** [buildKey] of [generateMonthTransactions]. *)
Definition buildKey (entry : PaycheckEntry) : string :=
  entry_date entry ++ ":" ++ (if truthy_flag (entry_is_bonus entry) then "bonus" else "regular").

(** [new Map(pairs)] and [get]: a later pair with the same key replaces an
    earlier one. *)
Definition Map_of {V} (pairs : list (string * V)) : gmap string V :=
  fold_left (fun m kv => <[fst kv := snd kv]> m) pairs ∅.

(** [{ ...entry, ...override }]. *)
Definition spreadOver (entry override : PaycheckEntry) : PaycheckEntry :=
  {| entry_id := entry_id override;
     entry_date := entry_date override;
     entry_amount := entry_amount override;
     entry_is_bonus :=
       match entry_is_bonus override with
       | Some b => Some b
       | None => entry_is_bonus entry
       end;
     entry_description :=
       match entry_description override with
       | Some d => Some d
       | None => entry_description entry
       end |}.

(** [estimateEntries]: the cached estimates when there are some, otherwise
    one entry of the default amount per scheduled date. *)
Definition estimateEntries (monthSetup : MonthSetup) (paycheckDates : list string)
  : Gen (list PaycheckEntry) :=
  match paycheck_estimates monthSetup with
  | Some (e :: es) => ret (e :: es)
  | _ =>
      mapM (fun date =>
              (let* id := randomUUID in
               ret {| entry_id := id;
                      entry_date := date;
                      entry_amount := paycheck_default_amount monthSetup;
                      entry_is_bonus := Some false;
                      entry_description := None |})%gen)
           paycheckDates
  end.

(** [paycheckEntries]: the estimates with the overrides of the same key
    applied, then the overrides whose key no estimate has. *)
Definition resolveEntries (monthSetup : MonthSetup) (estimateEntries : list PaycheckEntry)
  : list PaycheckEntry :=
  let overridesByKey :=
    Map_of (map (fun entry => (buildKey entry, entry)) (paycheck_overrides monthSetup)) in
  let baseEntries :=
    map (fun entry =>
           match overridesByKey !! buildKey entry with
           | Some override => spreadOver entry override
           | None => entry
           end)
        estimateEntries in
  let extraOverrides :=
    List.filter
      (fun entry =>
         negb (existsb (fun e => String.eqb (buildKey e) (buildKey entry)) estimateEntries))
      (paycheck_overrides monthSetup) in
  (baseEntries ++ extraOverrides)%list.

(** The [dates] of a recurring item. *)
Definition recurringDates (monthId : string) (item : RecurringItem) : list string :=
  let anchor :=
    if truthy_opt (anchor_date item) then default "" (anchor_date item)
    else monthId ++ "-01" in
  match cadence item with
  | cad_weekly => getDatesByInterval monthId anchor 7
  | cad_biweekly => getDatesByInterval monthId anchor 14
  | cad_semimonthly =>
      [ monthId ++ "-15"; dateInMonth monthId (daysInMonth (getMonthInfo monthId)) ]
  | cad_monthly =>
      let fallbackDay := getDate (parseDate anchor) in
      [ getMonthlyDate monthId (day_rule item) fallbackDay ]
  end.

(** The transactions of one enabled recurring item. *)
Definition recurringTransactions (monthId : string) (variableOverrides : gmap string Q)
           (createdAt : Z) (generatedBatchId : string) (item : RecurringItem)
  : Gen (list Transaction) :=
  let amount :=
    match variableOverrides !! item_id item with
    | Some a => a
    | None => default_amount item
    end in
  let dates := recurringDates monthId item in
  mapM (fun date =>
          (let* id := randomUUID in
           ret {| tx_id := id;
                  tx_date := date;
                  tx_amount := resolveAmount (item_type item) amount;
                  tx_account_id := item_account_id item;
                  tx_transfer_account_id := item_transfer_account_id item;
                  tx_transaction_type := Some (item_type item);
                  tx_category_id := item_category_id item;
                  tx_description := item_name item;
                  tx_notes := None;
                  tx_loan_id := item_loan_id item;
                  tx_created_at := createdAt;
                  tx_updated_at := createdAt;
                  tx_source := Some generated;
                  tx_source_item_id := Some ("recurring:" ++ item_id item ++ ":" ++ date);
                  tx_generated_batch_id := Some generatedBatchId |})%gen)
       (List.filter (fun _ => truthy (item_category_id item) && truthy (item_account_id item))
                    dates).

Definition oneOffTransaction (createdAt : Z) (generatedBatchId : string)
           (adj : OneOffAdjustment) : Gen Transaction :=
  (let* id := randomUUID in
   ret {| tx_id := id;
          tx_date := adj_date adj;
          tx_amount := resolveAmount (adj_type adj) (adj_amount adj);
          tx_account_id := adj_account_id adj;
          tx_transfer_account_id := adj_transfer_account_id adj;
          tx_transaction_type := Some (adj_type adj);
          tx_category_id := adj_category_id adj;
          tx_description :=
            if truthy (adj_description adj) then adj_description adj
            else "One-off adjustment";
          tx_notes := None;
          tx_loan_id := adj_loan_id adj;
          tx_created_at := createdAt;
          tx_updated_at := createdAt;
          tx_source := Some generated;
          tx_source_item_id := Some ("oneoff:" ++ adj_id adj);
          tx_generated_batch_id := Some generatedBatchId |})%gen.

(** [generatedTransactions] and the resolved [paycheckEntries], given the
    batch identifier and the creation time. *)
Definition generateAll (monthId : string) (monthSetup : MonthSetup)
           (recurringItems : list RecurringItem) (createdAt : Z) (generatedBatchId : string)
  : Gen (list PaycheckEntry * list Transaction) :=
  let paycheckDates :=
    getScheduleDates monthId (paycheck_schedule monthSetup) (paycheck_anchor_date monthSetup) in
  (let* estimateEntries := estimateEntries monthSetup paycheckDates in
   let paycheckEntries := resolveEntries monthSetup estimateEntries in
   let* paycheckTx :=
     flatMapM (fun entry =>
                 buildPaycheckSplitTransactions entry (paycheck_deposit_splits monthSetup)
                                                monthSetup createdAt generatedBatchId)
              (List.filter (fun entry => nonzero (entry_amount entry)) paycheckEntries) in
   let variableOverrides :=
     Map_of (map (fun o => (vo_item_id o, vo_amount o)) (variable_overrides monthSetup)) in
   let* recurringTx :=
     flatMapM (recurringTransactions monthId variableOverrides createdAt generatedBatchId)
              (List.filter item_enabled recurringItems) in
   let* oneOffTx :=
     mapM (oneOffTransaction createdAt generatedBatchId)
          (List.filter (fun adj => truthy (adj_account_id adj) && truthy (adj_category_id adj))
                       (one_offs monthSetup)) in
   ret (paycheckEntries, (paycheckTx ++ recurringTx ++ oneOffTx)%list))%gen.

(** [tx.source !== 'generated']. *)
Definition not_generated (tx : Transaction) : bool :=
  match tx_source tx with
  | Some generated => false
  | _ => true
  end.

(** [existingIds.has(id)], where [existingIds] is the set of the truthy
    [source_item_id]s of the existing transactions. *)
Definition existingIds (existingTransactions : list Transaction) : gset string :=
  list_to_set
    (omap (fun tx => if truthy_opt (tx_source_item_id tx) then tx_source_item_id tx else None)
          existingTransactions).

Definition has_id (ids : gset string) (o : option string) : bool :=
  match o with
  | Some s => bool_decide (s ∈ ids)
  | None => false
  end.

Definition mergeByMode (mode : GenerateMode) (existingTransactions generatedTransactions
                       : list Transaction) : list Transaction :=
  match mode with
  | reset => generatedTransactions
  | regenerate => (List.filter not_generated existingTransactions ++ generatedTransactions)%list
  | missing =>
      let existingIds := existingIds existingTransactions in
      let missing :=
        List.filter (fun tx => negb (has_id existingIds (tx_source_item_id tx)))
                    generatedTransactions in
      (existingTransactions ++ missing)%list
  end.

Record GenerateResult := mkGenerateResult {
  result_transactions : list Transaction;
  result_month_setup : MonthSetup
}.

Definition generateMonthTransactions (monthId : string) (monthSetup : MonthSetup)
           (recurringItems : list RecurringItem) (existingTransactions : list Transaction)
           (mode : GenerateMode) : Gen GenerateResult :=
  (let* generatedBatchId := randomUUID in
   let* createdAt := Date_now in
   let* generation := generateAll monthId monthSetup recurringItems createdAt generatedBatchId in
   let generatedTransactions := snd generation in
   let nextTransactions := mergeByMode mode existingTransactions generatedTransactions in
   let* now := Date_now in
   ret {| result_transactions := nextTransactions;
          result_month_setup :=
            {| paycheck_schedule := paycheck_schedule monthSetup;
               paycheck_anchor_date := paycheck_anchor_date monthSetup;
               paycheck_deposit_splits := paycheck_deposit_splits monthSetup;
               paycheck_category_id := paycheck_category_id monthSetup;
               paycheck_default_amount := paycheck_default_amount monthSetup;
               paycheck_estimates := paycheck_estimates monthSetup;
               paycheck_overrides := paycheck_overrides monthSetup;
               variable_overrides := variable_overrides monthSetup;
               one_offs := one_offs monthSetup;
               last_generated_at := now;
               generation_version := generation_version monthSetup + 1 |} |})%gen.

End Generation.

(** ** Forecast simulator (lib/forecasting, [calculateForecast]) *)

Module Forecasting.

Import JS Calendar Types.
Local Open Scope string_scope.
Local Open Scope Q_scope.

(** [currentBalances[id] -= amt] and [+=] behind the test
    [currentBalances[id] !== undefined]; the balances are the object's own
    properties, one per account.  For an [id] that names a property every
    object inherits ([ForecastNotions.inherited_keys]) the test
    succeeds in the code and the assignment adds a property; the finite map
    has no such key, and the theorems on the keys of the balances are
    stated for snapshots that are [keyed_plainly]. *)
Definition adjust (currentBalances : gmap string Q) (id : string) (delta : Q)
  : gmap string Q :=
  match currentBalances !! id with
  | Some balance => <[id := balance + delta]> currentBalances
  | None => currentBalances
  end.

Definition is_transfer (tx : Transaction) : bool :=
  (match tx_transaction_type tx with Some transfer => true | _ => false end
   || truthy_opt (tx_transfer_account_id tx))
  && truthy_opt (tx_transfer_account_id tx).

(** The body of [dayTransactions.forEach]. *)
Definition applyTransaction (currentBalances : gmap string Q) (tx : Transaction)
  : gmap string Q :=
  if is_transfer tx then
    let fromId := tx_account_id tx in
    let toId := default "" (tx_transfer_account_id tx) in
    let amt := Qabs (tx_amount tx) in
    adjust (adjust currentBalances fromId (- amt)) toId amt
  else adjust currentBalances (tx_account_id tx) (tx_amount tx).

Definition cashEligible (acc : Account) : bool :=
  included_in_cash_forecast acc
  && match acc_type acc with investment => false | _ => true end.

(** [currentBalances[acc.id] || 0]. *)
Definition balanceOrZero (currentBalances : gmap string Q) (id : string) : Q :=
  default 0 (currentBalances !! id).

Definition cashAccountsTotal (accounts : list Account) (currentBalances : gmap string Q) : Q :=
  fold_left (fun sum acc => sum + balanceOrZero currentBalances (acc_id acc))
            (List.filter cashEligible accounts) 0.

(** [accounts.forEach(acc => currentBalances[acc.id] = ...)]. *)
Definition initialBalances (accounts : list Account)
           (starting_balances : list StartingBalance) : gmap string Q :=
  fold_left
    (fun currentBalances acc =>
       let starting :=
         List.find (fun sb => String.eqb (sb_account_id sb) (acc_id acc)) starting_balances in
       <[acc_id acc := match starting with Some sb => sb_amount sb | None => 0 end]>
         currentBalances)
    accounts ∅.

(** One turn of the loop over the days: the balances after the day's
    transactions and the day's point. *)
Definition forecastDay (yearMonth : string) (accounts : list Account)
           (sortedTx : list Transaction) (currentBalances : gmap string Q) (day : Z)
  : gmap string Q * ForecastPoint :=
  let dateStr := dateInMonth yearMonth (Some day) in
  let dayTransactions := List.filter (fun tx => String.eqb (tx_date tx) dateStr) sortedTx in
  let currentBalances' := fold_left applyTransaction dayTransactions currentBalances in
  (currentBalances',
   {| point_date := dateStr;
      balances := currentBalances';
      total_cash := cashAccountsTotal accounts currentBalances' |}).

Fixpoint forecastDays (yearMonth : string) (accounts : list Account)
         (sortedTx : list Transaction) (currentBalances : gmap string Q) (days : list Z)
  : list ForecastPoint :=
  match days with
  | [] => []
  | day :: rest =>
      let '(currentBalances', point) :=
        forecastDay yearMonth accounts sortedTx currentBalances day in
      point :: forecastDays yearMonth accounts sortedTx currentBalances' rest
  end.

(** The days 1 to [daysInMonth]; none when [daysInMonth] is [NaN]. *)
Definition daysOfMonth (daysInMonth : Num) : list Z :=
  match daysInMonth with
  | Some n => map Z.of_nat (seq 1 (Z.to_nat n))
  | None => []
  end.

Definition calculateForecast (snapshot : MonthSnapshot) : list ForecastPoint :=
  let sortedTx :=
    sort (fun a b => localeCompare (tx_date a) (tx_date b)) (transactions snapshot) in
  let currentBalances := initialBalances (accounts snapshot) (starting_balances snapshot) in
  let yearMonth := snapshot_id snapshot in
  let parts := split "-" yearMonth in
  let daysInMonth :=
    getDate (newDate (parseInt_any (nth 0 parts "")) (parseInt_any (nth 1 parts ""))
                     (Some 0%Z)) in
  forecastDays yearMonth (accounts snapshot) sortedTx currentBalances
               (daysOfMonth daysInMonth).

End Forecasting.

(** ** Settings normalisation ([normalizeAccounts]) *)

Module Settings.

Import Types.

Definition normalizeAccounts (accounts : list Account) : list Account :=
  map (fun acc =>
         match acc_type acc with
         | credit_card =>
             {| acc_id := acc_id acc; acc_name := acc_name acc; acc_type := loan;
                included_in_cash_forecast := false;
                acc_created_at := acc_created_at acc; acc_updated_at := acc_updated_at acc |}
         | investment =>
             {| acc_id := acc_id acc; acc_name := acc_name acc; acc_type := investment;
                included_in_cash_forecast := false;
                acc_created_at := acc_created_at acc; acc_updated_at := acc_updated_at acc |}
         | _ => acc
         end)
      accounts.

End Settings.

(** ** Forecast summary (lib/forecasting, [getForecastSummary]) *)

Module Summary.

Import JS Types.
Local Open Scope string_scope.
Local Open Scope Q_scope.

Record ForecastSummary := mkSummary {
  projected_end_balance : Q;
  lowest_projected_balance : Q;
  lowest_balance_date : string
}.

(** [a < b] on amounts. *)
Definition Qlt_bool (a b : Q) : bool := negb (Qle_bool b a).

(** The callback of [points.forEach]: [lowestBalance] is [None] while it is
    [Infinity], which every amount is below. *)
Definition lowest_step (state : option Q * string) (p : ForecastPoint) : option Q * string :=
  match fst state with
  | None => (Some (total_cash p), point_date p)
  | Some lowestBalance =>
      if Qlt_bool (total_cash p) lowestBalance then (Some (total_cash p), point_date p)
      else state
  end.

Definition getForecastSummary (points : list ForecastPoint) : ForecastSummary :=
  match points with
  | [] => mkSummary 0 0 ""
  | first :: _ =>
      let endBalance := total_cash (List.last points first) in
      let '(lowestBalance, lowestDate) := fold_left lowest_step points (None, "") in
      {| projected_end_balance := endBalance;
         lowest_projected_balance :=
           match lowestBalance with None => 0 | Some low => low end;
         lowest_balance_date := lowestDate |}
  end.

End Summary.

(** ** Dashboard page (pages/Dashboard.tsx): the totals of the month *)

Module DashboardPage.

Import JS.
Local Open Scope Q_scope.

Record Totals := mkTotals {
  totals_income : Q;
  totals_expenses : Q;
  totals_net : Q
}.

(** The callback of [currentSnapshot.transactions.forEach] in [totals]:
    the income and the expenses so far. *)
Definition totals_step (state : Q * Q) (tx : Types.Transaction) : Q * Q :=
  let '(income, expenses) := state in
  if match Types.tx_transaction_type tx with Some Types.transfer => true | _ => false end
     || truthy_opt (Types.tx_transfer_account_id tx)
  then state
  else if Qle_bool 0 (Types.tx_amount tx) then (income + Types.tx_amount tx, expenses)
  else (income, expenses + Qabs (Types.tx_amount tx)).

Definition totals (currentSnapshot : option Types.MonthSnapshot) : Totals :=
  match currentSnapshot with
  | None => mkTotals 0 0 0
  | Some snapshot =>
      let '(income, expenses) := fold_left totals_step (Types.transactions snapshot) (0, 0) in
      mkTotals income expenses (income - expenses)
  end.

End DashboardPage.

(** ** Application shell (App.tsx): normalisation of stored data *)

Module App.

Import JS Types Effects.
Local Open Scope string_scope.
Local Open Scope Q_scope.


(** [getPreviousMonthId]; the page of the monthly setup has the same
    function, with the same text. *)
Definition getPreviousMonthId (monthId : string) : string :=
  let parts := split "-" monthId in
  let yearRaw := nth_Number 0 parts in
  let monthRaw := nth_Number 1 parts in
  let month := sub monthRaw (Some 1%Z) in
  let '(year, month) :=
    match month with
    | Some 0%Z => (sub yearRaw (Some 1%Z), Some 12%Z)
    | _ => (yearRaw, month)
    end in
  toString year ++ "-" ++ padStart2 (toString month).

(** A month setup as it may be stored: with the account of the whole
    paycheck that older versions kept in [paycheck_deposit_account_id]. *)
Record StoredMonthSetup := mkStoredMonthSetup {
  stored_setup : MonthSetup;
  paycheck_deposit_account_id : option string
}.

(** [list[0]?.id]. *)
Definition firstId (list : list Account) : option string :=
  option_map acc_id (head list).

(** [a || b] on optional strings, the empty string standing for a falsy
    result. *)
Definition or_else (a : option string) (b : string) : string :=
  if truthy_opt a then default "" a else b.

(** [{ id: crypto.randomUUID(), account_id, amount: 0, is_remainder: true }]. *)
Definition wholePaycheckSplit (account_id : string) : Gen PaycheckDepositSplit :=
  (let* id := randomUUID in
   ret {| split_id := id; split_account_id := account_id; split_amount := 0;
          is_remainder := Some true |})%gen.

(** The callback of the first [map]: an amount is a number here, so
    [Number.isFinite(Number(split.amount))] holds and the amount is
    kept. *)
Definition cleanSplit (validIds : gset string) (fallbackAccountId : string)
           (split : PaycheckDepositSplit) : Gen PaycheckDepositSplit :=
  (let* id := if truthy (split_id split) then ret (split_id split) else randomUUID in
   ret {| split_id := id;
          split_account_id :=
            if bool_decide (split_account_id split ∈ validIds) then split_account_id split
            else fallbackAccountId;
          split_amount := split_amount split;
          is_remainder := Some (truthy_flag (is_remainder split)) |})%gen.

(** The second [map], with its variable [remainderAssigned]: the first
    remainder split keeps the remainder and gets the amount 0, every later
    one becomes a fixed split. *)
Fixpoint assignRemainder (remainderAssigned : bool) (splits : list PaycheckDepositSplit)
  : list PaycheckDepositSplit :=
  match splits with
  | [] => []
  | split :: rest =>
      if negb (truthy_flag (is_remainder split))
      then split :: assignRemainder remainderAssigned rest
      else if remainderAssigned
      then {| split_id := split_id split; split_account_id := split_account_id split;
              split_amount := split_amount split; is_remainder := Some false |}
             :: assignRemainder true rest
      else {| split_id := split_id split; split_account_id := split_account_id split;
              split_amount := 0; is_remainder := is_remainder split |}
             :: assignRemainder true rest
  end.

(** [normalizePaycheckSplits]; [paycheck_deposit_splits] is a list here, so
    the test [Array.isArray] holds. *)
Definition normalizePaycheckSplits (monthSetup : StoredMonthSetup) (accounts : list Account)
  : Gen (list PaycheckDepositSplit) :=
  let cashAccounts :=
    List.filter (fun acc => match acc_type acc with loan => false | _ => true end) accounts in
  let fallbackAccountId := or_else (firstId cashAccounts) (or_else (firstId accounts) "") in
  let legacyAccountId := or_else (paycheck_deposit_account_id monthSetup) fallbackAccountId in
  let splits := paycheck_deposit_splits (stored_setup monthSetup) in
  (let* splits :=
     match splits with
     | [] =>
         if truthy legacyAccountId
         then let* split := wholePaycheckSplit legacyAccountId in ret [split]
         else ret []
     | _ => ret splits
     end in
   let validIds : gset string := list_to_set (map acc_id cashAccounts) in
   let* cleaned := mapM (cleanSplit validIds fallbackAccountId) splits in
   let splits := List.filter (fun split => truthy (split_account_id split)) cleaned in
   let splits := assignRemainder false splits in
   let* splits :=
     match splits with
     | [] =>
         if truthy fallbackAccountId
         then let* split := wholePaycheckSplit fallbackAccountId in ret [split]
         else ret []
     | _ => ret splits
     end in
   let splits :=
     if negb (existsb (fun split => truthy_flag (is_remainder split)) splits)
        && Nat.eqb (length splits) 1
     then map (fun split =>
                 {| split_id := split_id split; split_account_id := split_account_id split;
                    split_amount := 0; is_remainder := Some true |})
              splits
     else splits in
   ret splits)%gen.

End App.

(** ** Month page (pages/MonthDetail.tsx): the order of the running balances *)

Module MonthDetailPage.

Import JS Types.
Local Open Scope string_scope.

(** [l.includes(id)]. *)
Definition includes (l : list string) (id : string) : bool := existsb (String.eqb id) l.

(** [a.every((value, index) => value === b[index])] from the index [index]
    on. *)
Fixpoint every_at (b : list string) (index : nat) (a : list string) : bool :=
  match a with
  | [] => true
  | value :: rest =>
      match nth_error b index with
      | Some other => String.eqb value other
      | None => false
      end
      && every_at b (S index) rest
  end.

Definition arraysEqual (a b : list string) : bool :=
  if negb (Nat.eqb (length a) (length b)) then false else every_at b 0 a.

Definition normalizeBalanceOrder (order : list string) (accounts : list Account)
  : list string :=
  let ids := map acc_id accounts in
  let existing := List.filter (fun id => includes ids id) order in
  let missing := List.filter (fun id => negb (includes existing id)) ids in
  (existing ++ missing)%list.

End MonthDetailPage.

(** ** Gain and loss page (pages/GainLoss.tsx): months, totals, CSV lines *)

Module GainLossPage.

Import JS Calendar Types.
Local Open Scope string_scope.

(** [date.setMonth(monthIndex)]: the year and the day of the month are
    kept, a month index outside 0 to 11 carries over to the year, and a
    year from 0 to 99 is not read as 1900 to 1999. *)
Definition setMonth (t : Date) (monthIndex : Num) : Date :=
  match t, monthIndex with
  | Some z, Some m =>
      let '(y, _, d) := civil_from_days z in
      Some (days_from_civil (y + m / 12) (m mod 12 + 1) 1 + (d - 1))%Z
  | _, _ => None
  end.

Definition formatMonthId (date : Date) : string :=
  let year := getFullYear date in
  let month := padStart2 (toString (add (getMonth date) (Some 1%Z))) in
  toString year ++ "-" ++ month.

Definition addMonths (monthId : string) (delta : Z) : string :=
  let parts := split "-" monthId in
  let year := nth_Number 0 parts in
  let month := nth_Number 1 parts in
  let date := newDate year (add (sub month (Some 1%Z)) (Some delta)) (Some 1%Z) in
  formatMonthId date.

(** [while (cursor <= end) { months.push(formatMonthId(cursor));
    cursor.setMonth(cursor.getMonth() + 1) }]. *)
Fixpoint month_loop (fuel : nat) (end_ cursor : Date) : list string :=
  match fuel with
  | O => []
  | S fuel' =>
      if date_le cursor end_
      then formatMonthId cursor
             :: month_loop fuel' end_ (setMonth cursor (add (getMonth cursor) (Some 1%Z)))
      else []
  end.

(** [buildMonthRange]; the loop runs once for a month at most, so the
    number of days from the start to the end, plus one, bounds its
    turns. *)
Definition buildMonthRange (startId endId : string) : list string :=
  if negb (truthy startId) || negb (truthy endId) then []
  else
    let startParts := split "-" startId in
    let endParts := split "-" endId in
    let start := newDate (nth_Number 0 startParts)
                         (sub (nth_Number 1 startParts) (Some 1%Z)) (Some 1%Z) in
    let end_ := newDate (nth_Number 0 endParts)
                        (sub (nth_Number 1 endParts) (Some 1%Z)) (Some 1%Z) in
    if date_lt end_ start then []
    else month_loop (S (days_until start end_)) end_ start.

Definition getPreviousMonthId (monthId : string) : string :=
  let parts := split "-" monthId in
  let year := nth_Number 0 parts in
  let month := nth_Number 1 parts in
  let date := newDate year (sub month (Some 1%Z)) (Some 1%Z) in
  formatMonthId (setMonth date (sub (getMonth date) (Some 1%Z))).

Local Open Scope Q_scope.

Record Totals := mkTotals {
  cash : Q;
  investments : Q;
  cashAndInvestments : Q
}.

(** The callback of [forEach] in [buildTotalsFromMap]. *)
Definition totals_step (balanceMap : gmap string Q) (totals : Totals) (acc : Account)
  : Totals :=
  let value := default 0 (balanceMap !! acc_id acc) in
  let isCash :=
    included_in_cash_forecast acc
    && match acc_type acc with investment => false | _ => true end
    && match acc_type acc with loan => false | _ => true end in
  let isInvestment := match acc_type acc with investment => true | _ => false end in
  {| cash := if isCash then cash totals + value else cash totals;
     investments := if isInvestment then investments totals + value else investments totals;
     cashAndInvestments :=
       if isCash || isInvestment then cashAndInvestments totals + value
       else cashAndInvestments totals |}.

(** [buildTotalsFromMap], with the accounts of the settings that the
    function reads as an argument. *)
Definition buildTotalsFromMap (accounts : list Account) (balanceMap : gmap string Q)
  : Totals :=
  fold_left (totals_step balanceMap)
            (List.filter (fun acc => match acc_type acc with loan => false | _ => true end)
                         accounts)
            (mkTotals 0 0 0).

(** [buildBalanceMap]. *)
Definition buildBalanceMap (balances : list StartingBalance) : gmap string Q :=
  Generation.Map_of (map (fun b => (sb_account_id b, sb_amount b)) balances).

Local Open Scope string_scope.

(** The double quote. *)
Definition quote : ascii := "034"%char.

(** The loop of [parseCsvLine] from the character at hand: [current] holds
    the characters of the field so far, last first. *)
Fixpoint parseCsvLine_from (current : string) (inQuotes : bool) (line : string)
  : list string :=
  match line with
  | EmptyString => [String.rev current]
  | String char rest =>
      if Ascii.eqb char quote then
        match inQuotes, rest with
        | true, String next rest' =>
            if Ascii.eqb next quote
            then parseCsvLine_from (String quote current) inQuotes rest'
            else parseCsvLine_from current (negb inQuotes) rest
        | _, _ => parseCsvLine_from current (negb inQuotes) rest
        end
      else if Ascii.eqb char "," && negb inQuotes
      then String.rev current :: parseCsvLine_from EmptyString inQuotes rest
      else parseCsvLine_from (String char current) inQuotes rest
  end.

Definition parseCsvLine (line : string) : list string :=
  parseCsvLine_from EmptyString false line.

(** The lines of the template of [handleDownloadTemplate]:
    [['Account', ...months].join(',')] and, for an account,
    [[acc.name, ...months.map(() => '')].join(',')]. *)
Definition templateHeader (months : list string) : string :=
  String.concat "," ("Account" :: months).

Definition templateRow (months : list string) (acc : Account) : string :=
  String.concat "," (acc_name acc :: map (fun _ => "") months).

End GainLossPage.

(** ** Loan tracker (pages/LoanTracker.tsx): applying the payments of a month *)

Module LoanTracker.

Import JS Types Effects.
Local Open Scope string_scope.
Local Open Scope Q_scope.

Record LoanPaymentRecord := mkLoanPayment {
  payment_month_id : string;
  payment_amount : Q;
  interest_accrued : option Q;
  balance_before : option Q;
  balance_after : option Q
}.

(** [payment_history] is read as [loan.payment_history || []]: it may be
    missing in stored settings. *)
Record Loan := mkLoan {
  loan_id : string;
  loan_name : string;
  origination_date : string;
  original_principal : Q;
  current_balance : Q;
  interest_rate : Q;
  maturity_date : string;
  payment_history : option (list LoanPaymentRecord);
  loan_created_at : Z;
  loan_updated_at : Z
}.

(** The callback of [snapshot.transactions.forEach]: the payments by
    loan. *)
Definition payment_step (paymentsByLoan : gmap string Q) (tx : Transaction) : gmap string Q :=
  if negb (truthy_opt (tx_loan_id tx)) then paymentsByLoan
  else if Qle_bool 0 (tx_amount tx) then paymentsByLoan
  else
    let loan_id := default "" (tx_loan_id tx) in
    let amount := Qabs (tx_amount tx) in
    <[loan_id := default 0 (paymentsByLoan !! loan_id) + amount]> paymentsByLoan.

Definition paymentsByLoan (transactions : list Transaction) : gmap string Q :=
  fold_left payment_step transactions ∅.

(** The callback of [sortedLoans.map]. *)
Definition applyToLoan (selectedMonthId : string) (paymentsByLoan : gmap string Q)
           (loan : Loan) : Gen Loan :=
  let paid := default 0 (paymentsByLoan !! loan_id loan) in
  let history := default [] (payment_history loan) in
  let existing :=
    List.find (fun h => String.eqb (payment_month_id h) selectedMonthId) history in
  let previousPaid := match existing with Some h => payment_amount h | None => 0 end in
  let previousInterest :=
    match existing with Some h => default 0 (interest_accrued h) | None => 0 end in
  let balanceBefore :=
    match existing with
    | Some h => default (current_balance loan) (balance_before h)
    | None => current_balance loan
    end in
  let monthlyInterest := (balanceBefore * (interest_rate loan / 100)) / 12 in
  let deltaInterest := monthlyInterest - previousInterest in
  let deltaPayment := paid - previousPaid in
  let newBalance := Qmax 0 (current_balance loan + deltaInterest - deltaPayment) in
  let record :=
    {| payment_month_id := selectedMonthId;
       payment_amount := paid;
       interest_accrued := Some monthlyInterest;
       balance_before := Some balanceBefore;
       balance_after := Some newBalance |} in
  let newHistory :=
    match existing with
    | Some _ =>
        map (fun h => if String.eqb (payment_month_id h) selectedMonthId then record else h)
            history
    | None => (history ++ [record])%list
    end in
  (let* now := Date_now in
   ret {| loan_id := loan_id loan;
          loan_name := loan_name loan;
          origination_date := origination_date loan;
          original_principal := original_principal loan;
          current_balance := newBalance;
          interest_rate := interest_rate loan;
          maturity_date := maturity_date loan;
          payment_history := Some newHistory;
          loan_created_at := loan_created_at loan;
          loan_updated_at := now |})%gen.

(** [applyPaymentsForMonth]: the loans that are handed to
    [updateSettings], none when the month has no snapshot.  [snapshot] is
    what [storage.getMonth(selectedMonthId)] resolves to, and [sortedLoans]
    is the list of that name that the function reads. *)
Definition applyPaymentsForMonth (selectedMonthId : string)
           (snapshot : option MonthSnapshot) (sortedLoans : list Loan)
  : Gen (option (list Loan)) :=
  match snapshot with
  | None => ret None
  | Some snapshot =>
      let paymentsByLoan := paymentsByLoan (transactions snapshot) in
      (let* updatedLoans := mapM (applyToLoan selectedMonthId paymentsByLoan) sortedLoans in
       ret (Some updatedLoans))%gen
  end.

End LoanTracker.

(** ** Notions used to state the properties *)

Module SpecNotions.

Import JS PayrollTypes Payroll Types Effects.
Local Open Scope Z_scope.
Local Open Scope Q_scope.

(** The value of a decimal numeral read after the value [acc]. *)
Fixpoint uint_value (acc : Z) (d : Decimal.uint) : Z :=
  match d with
  | Decimal.Nil => acc
  | Decimal.D0 d => uint_value (10 * acc)%Z d
  | Decimal.D1 d => uint_value (10 * acc + 1)%Z d
  | Decimal.D2 d => uint_value (10 * acc + 2)%Z d
  | Decimal.D3 d => uint_value (10 * acc + 3)%Z d
  | Decimal.D4 d => uint_value (10 * acc + 4)%Z d
  | Decimal.D5 d => uint_value (10 * acc + 5)%Z d
  | Decimal.D6 d => uint_value (10 * acc + 6)%Z d
  | Decimal.D7 d => uint_value (10 * acc + 7)%Z d
  | Decimal.D8 d => uint_value (10 * acc + 8)%Z d
  | Decimal.D9 d => uint_value (10 * acc + 9)%Z d
  end.

Definition is_nil (d : Decimal.uint) : bool :=
  match d with Decimal.Nil => true | _ => false end.

(** What is checked of a day [doe] of a 400-year cycle: the year of the
    cycle that [civil_from_days] computes is one of the 400, and the day of
    that year is one of at most 366. *)
Definition cycle_day_ok (doe : Z) : bool :=
  let yoe := ((doe - doe / 1460 + doe / 36524 - doe / 146096) / 365)%Z in
  let doy := (doe - (365 * yoe + yoe / 4 - yoe / 100))%Z in
  ((0 <=? yoe) && (yoe <=? 399) && (0 <=? doy) && (doy <=? 365))%Z.

(** What is checked of a day [doy] of a year that starts in March: the
    month and the day that [civil_from_days] computes are a month and a day,
    and [days_from_civil] finds the day of the year back from them. *)
Definition year_day_ok (doy : Z) : bool :=
  let mp := ((5 * doy + 2) / 153)%Z in
  let d := (doy - (153 * mp + 2) / 5 + 1)%Z in
  let m := (if mp <? 10 then mp + 3 else mp - 9)%Z in
  ((1 <=? m) && (m <=? 12) && (1 <=? d) && (d <=? 31)
   && ((if m <=? 2 then m + 9 else m - 3) =? mp))%Z.

(** What is checked of the month [i mod 12 + 1] of the year [i / 12]: the
    day before its first day is a 28th or later. *)
Definition month_end_ok (i : Z) : bool :=
  (28 <=? snd (civil_from_days (days_from_civil (i / 12) (i mod 12 + 1) 1 - 1)))%Z.

(** What is checked of the month [i mod 12 + 1] of the year [i / 12], a
    year from 0 to 99: the same month of the year 1900 later comes later. *)
Definition century_ok (i : Z) : bool :=
  (days_from_civil (i / 12) (i mod 12 + 1) 1
   <? days_from_civil (1900 + i / 12) (i mod 12 + 1) 1)%Z.

(** A string without a colon. *)
Fixpoint colon_free (s : string) : bool :=
  match s with
  | EmptyString => true
  | String c s' => negb (Ascii.eqb c ":") && colon_free s'
  end.

(** What is checked of a number [k] from 0 to 99: padded to two places its
    numeral has two characters, all digits, and reads back as [k]. *)
Definition two_digits_ok (k : Z) : bool :=
  let s := padStart2 (toString (Some k)) in
  Nat.eqb (String.length s) 2 && colon_free s && all_digits s
  && match parseInt s with Some v => (v =? k)%Z | None => false end
  && match Number_ s with Some v => (v =? k)%Z | None => false end.

(** The identifier of the month [m] of the year [y], "YYYY-MM". *)
Definition monthIdOf (y m : Z) : string :=
  (toString (Some y) ++ "-" ++ padStart2 (toString (Some m)))%string.

(** A check of [f] on the [n] integers from [z0] on: the next integer to
    check and whether all went well so far. *)
Definition check_step (f : Z -> bool) (st : Z * bool) : Z * bool :=
  ((fst st + 1)%Z, snd st && f (fst st)).
Definition check_range (f : Z -> bool) (z0 : Z) (n : positive) : Z * bool :=
  Pos.iter (check_step f) (z0, true) n.

(** [holds P m]: the result of [m] satisfies [P] in every world. *)
Definition holds {A} (P : A -> Prop) (m : Gen A) : Prop :=
  forall w, P (fst (m w)).

(** [agree R m1 m2]: the results of [m1] and [m2] are related by [R]
    whatever the worlds they are run in. *)
Definition agree {A B} (R : A -> B -> Prop) (m1 : Gen A) (m2 : Gen B) : Prop :=
  forall w1 w2, R (fst (m1 w1)) (fst (m2 w2)).

(** What regeneration must reproduce of a transaction. *)
Definition tx_view (tx : Transaction) : string * Q * string * option string :=
  (tx_date tx, tx_amount tx, tx_account_id tx, tx_source_item_id tx).

(** A transaction without its identifiers and timestamps: [id],
    [created_at], [updated_at] and [generated_batch_id] are blanked. *)
Definition anonymous (tx : Transaction) : Transaction :=
  {| tx_id := ""; tx_date := tx_date tx; tx_amount := tx_amount tx;
     tx_account_id := tx_account_id tx;
     tx_transfer_account_id := tx_transfer_account_id tx;
     tx_transaction_type := tx_transaction_type tx;
     tx_category_id := tx_category_id tx; tx_description := tx_description tx;
     tx_notes := tx_notes tx; tx_loan_id := tx_loan_id tx;
     tx_created_at := 0; tx_updated_at := 0; tx_source := tx_source tx;
     tx_source_item_id := tx_source_item_id tx; tx_generated_batch_id := None |}.

(** Two transactions that are equal up to identifiers and timestamps. *)
Definition same_tx (a b : Transaction) : Prop := anonymous a = anonymous b.

(** Two paycheck entries that are equal up to their [id]. *)
Definition same_entry (a b : PaycheckEntry) : Prop :=
  entry_date a = entry_date b /\ entry_amount a = entry_amount b
  /\ entry_is_bonus a = entry_is_bonus b /\ entry_description a = entry_description b.

(** The accounts of the deposit splits that can emit a transaction: the
    fixed splits with an amount and the first remainder split. *)
Definition emittingAccounts (splits : list PaycheckDepositSplit) : list string :=
  (map split_account_id (Generation.fixedSplits splits)
   ++ match List.find (fun split => truthy_flag (is_remainder split))
                      (Generation.eligibleSplits splits) with
      | Some remainderSplit => [split_account_id remainderSplit]
      | None => []
      end)%list.

(** The one-off adjustments that emit a transaction. *)
Definition emittingOneOffs (monthSetup : MonthSetup) : list OneOffAdjustment :=
  List.filter (fun adj => truthy (adj_account_id adj) && truthy (adj_category_id adj))
              (one_offs monthSetup).

(** The cached estimates of a month setup, none when there is no cache. *)
Definition cachedEstimates (monthSetup : MonthSetup) : list PaycheckEntry :=
  default [] (paycheck_estimates monthSetup).

(** The keys of the transactions of a run. *)
Definition keys_of (txs : list Transaction) : list (option string) :=
  map tx_source_item_id txs.

(** The key of the transaction of a paycheck entry into an account. *)
Definition paycheck_key (entry : PaycheckEntry) (account : string) : option string :=
  Some (Generation.paycheckKind (entry_is_bonus entry) ++ ":" ++ entry_date entry
        ++ ":" ++ account)%string.

(** The key of the transaction of a recurring item on a date. *)
Definition recurring_key (item : RecurringItem) (date : string) : option string :=
  Some ("recurring:" ++ item_id item ++ ":" ++ date)%string.

(** The key of the transaction of a one-off adjustment. *)
Definition oneoff_key (adj : OneOffAdjustment) : option string :=
  Some ("oneoff:" ++ adj_id adj)%string.

(** The first character of a key. *)
Definition key_initial (key : option string) : option ascii :=
  match key with
  | Some (String c _) => Some c
  | _ => None
  end.

(** A transaction of the generator: marked [generated], with a non-empty
    [source_item_id]. *)
Definition is_generated (tx : Transaction) : Prop :=
  tx_source tx = Some generated
  /\ exists key, tx_source_item_id tx = Some key /\ key <> ""%string.

(** The 401(k) contributions of a list of paychecks, added up. *)
Definition total_contributed (paychecks : list PayrollPaycheckResult) : Q :=
  fold_right (fun paycheck sum => k401_contribution paycheck + sum) 0 paychecks.

(** The balances of a list of accounts, added up. *)
Definition sum_balances (m : gmap string Q) (l : list Account) : Q :=
  fold_right (fun acc sum => Forecasting.balanceOrZero m (acc_id acc) + sum) 0 l.

(** A checking and a savings account, both in the cash forecast, and a
    transfer of 200 from the first to the second on 2024-03-10. *)
Definition sample_checking : Account := mkAccount "acc1" "Main Checking" checking true 0 0.
Definition sample_savings : Account := mkAccount "acc2" "Savings" savings true 0 0.
Definition sample_transfer : Transaction :=
  {| tx_id := "t1"; tx_date := "2024-03-10"; tx_amount := - (200);
     tx_account_id := "acc1"; tx_transfer_account_id := Some "acc2"%string;
     tx_transaction_type := Some transfer; tx_category_id := "cat9";
     tx_description := "To savings"; tx_notes := None; tx_loan_id := None;
     tx_created_at := 0; tx_updated_at := 0; tx_source := Some manual;
     tx_source_item_id := None; tx_generated_batch_id := None |}.
Definition sample_balances : gmap string Q :=
  Forecasting.initialBalances [sample_checking; sample_savings]
    [mkStartingBalance "acc1" 1000; mkStartingBalance "acc2" 500].

(** A month with one account, a loan whose "include in cash forecast" box
    is ticked, 5000 owed, and no transaction. *)
Definition sample_loan : Account := mkAccount "loan1" "Car loan" loan true 0 0.
Definition sample_loan_month : MonthSnapshot :=
  {| snapshot_id := "2024-03";
     accounts := [sample_loan];
     transactions := [];
     starting_balances := [mkStartingBalance "loan1" (- (5000))] |}.

(** A world whose identifiers are "u0", "u1", ... and whose clock reads
    0, 1, ... *)
Definition sample_world : World :=
  {| uuids := fun n => String.append "u" (toString (Some (Z.of_nat n)));
     clock := fun n => Z.of_nat n |}.

(** A bonus of 500 entered by hand for 2024-03-20. *)
Definition sample_override : PaycheckEntry :=
  {| entry_id := "o1"; entry_date := "2024-03-20"; entry_amount := 500;
     entry_is_bonus := Some true; entry_description := None |}.

(** A month setup with one estimated paycheck of 1000 on 2024-03-15, the
    override above, and the given deposit splits. *)
Definition sample_setup (splits : list PaycheckDepositSplit) : MonthSetup :=
  {| paycheck_schedule := sch_monthly;
     paycheck_anchor_date := "2024-01-15";
     paycheck_deposit_splits := splits;
     paycheck_category_id := "cat0";
     paycheck_default_amount := 1000;
     paycheck_estimates :=
       Some [ {| entry_id := "e1"; entry_date := "2024-03-15"; entry_amount := 1000;
                 entry_is_bonus := Some false; entry_description := None |} ];
     paycheck_overrides := [ sample_override ];
     variable_overrides := [];
     one_offs := [];
     last_generated_at := 0;
     generation_version := 0 |}.

(** A rent of 1200 on the first of every month. *)
Definition sample_rent : RecurringItem :=
  mkRecurringItem "r1" "Rent" "cat2" "acc1" None None cad_monthly 1200 "1" expense true None.

(** All of a paycheck into one account. *)
Definition one_split : list PaycheckDepositSplit :=
  [ mkSplit "s1" "acc1" 0 (Some true) ].

(** Two fixed deposit splits into the same account and the remainder into
    another. *)
Definition same_account_splits : list PaycheckDepositSplit :=
  [ mkSplit "s1" "acc1" 100 None; mkSplit "s2" "acc1" 50 None;
    mkSplit "s3" "acc2" 0 (Some true) ].

(** A small tax table: the two brackets of the specification's example for
    every filing status, no standard deduction, an employee maximum of
    12000 for the 401(k). *)
Definition sample_tables : TaxTableSet :=
  {| table_tax_year := 2024;
     federal_income_tax_brackets := fun _ => Withholding.example_brackets;
     standard_deduction := fun _ => 0;
     per_dependent_credit_amount := 0;
     federal_supplemental_withholding_rate := Some (22 # 100);
     fica := {| ss_rate := 62 # 1000; medicare_rate := 145 # 10000;
                ss_wage_base := 168600; additional_medicare_rate := 9 # 1000;
                additional_medicare_threshold := inl 200000 |};
     retirement := {| k401_employee_max := 12000; k401_catch_up_max := 7500 |} |}.

(** A salary of 120000 a year, half of every paycheck into the 401(k), the
    annual maximum enforced, and the given bonus events. *)
Definition sample_settings (bonuses : list BonusEvent) : PayrollSettings :=
  {| tax_year := 2024;
     filing_status := single;
     pay_cycle := PayrollTypes.monthly;
     settings_paycheck_anchor_date := None;
     settings_paycheck_category_id := None;
     salary_annual := 120000;
     dependents_count := 0;
     dependent_credit_override := None;
     other_income_annual := None;
     deductions_annual := None;
     extra_withholding_per_paycheck := None;
     state_withholding_flat_rate := None;
     k401 := {| enabled := true; contribution_mode := percent; contribution_value := 50;
                enforce_annual_max := true; catch_up_enabled := false;
                catch_up_amount_override := None |};
     benefits := {| pre_tax_benefits_per_paycheck := 0;
                    post_tax_deductions_per_paycheck := 0 |};
     fica_settings := {| include_fica := true; ss_wage_base_override := None;
                         additional_medicare_threshold_override := None |};
     bonus_events := bonuses |}.

End SpecNotions.

(** ** Further notions: totals *)

Module Totals.

Local Open Scope Q_scope.

(** The values of [f] over a list, added up. *)
Definition total_of {A} (f : A -> Q) (l : list A) : Q :=
  fold_right (fun x sum => f x + sum) 0 l.

(** The Social Security wage base in force: the override of the payroll
    settings when there is one, the wage base of the tax table otherwise. *)
Definition wageBaseInForce (payrollSettings : PayrollTypes.PayrollSettings)
           (taxTables : PayrollTypes.TaxTableSet) : Q :=
  default (PayrollTypes.ss_wage_base (PayrollTypes.fica taxTables))
          (PayrollTypes.ss_wage_base_override (PayrollTypes.fica_settings payrollSettings)).


End Totals.

(** ** Further notions: days *)

Module Days.

Local Open Scope Z_scope.

(** The [len] days from [first] on. *)
Definition days_from (first : Z) (len : nat) : list Z :=
  map (fun k => first + Z.of_nat k) (seq 0 len).

(** The days from [first] to [last]; none when [last] is before [first]. *)
Definition days_from_to (first last : Z) : list Z :=
  days_from first (Z.to_nat (last - first + 1)).

(** Whether [day] is the anchor day or a whole number of intervals after
    it. *)
Definition on_schedule (anchor interval day : Z) : bool :=
  (anchor <=? day) && ((day - anchor) mod interval =? 0).

(** The month number [i] counts the months from January of the year 0:
    its year and its month from 1 to 12. *)
Definition year_of_month (i : Z) : Z := i / 12.
Definition month_of_month (i : Z) : Z := i mod 12 + 1.

(** The first day of the month number [i]. *)
Definition month_start (i : Z) : Z :=
  JS.days_from_civil (year_of_month i) (month_of_month i) 1.

(** The number of days of the month number [i]. *)
Definition month_length (i : Z) : Z := month_start (i + 1) - month_start i.

(** The identifier of the month number [i]. *)
Definition month_id (i : Z) : string :=
  SpecNotions.monthIdOf (year_of_month i) (month_of_month i).

(** The number of the month [m], from 1 to 12, of the year [y]. *)
Definition month_count (y m : Z) : Z := 12 * y + (m - 1).

(** The year that [new Date(y, ...)] takes for [y]: 1900 to 1999 for 0 to
    99. *)
Definition year_read (y : Z) : Z := if (0 <=? y) && (y <=? 99) then 1900 + y else y.

(** What is checked of the month number [i]: its first day is the first of
    that month of that year, its last day is the day before the next month
    and is numbered with its length, which is 28 to 31. *)
Definition month_ok (i : Z) : bool :=
  let first := JS.civil_from_days (month_start i) in
  let last := JS.civil_from_days (month_start (i + 1) - 1) in
  (fst (fst first) =? year_of_month i) && (snd (fst first) =? month_of_month i)
  && (snd first =? 1)
  && (fst (fst last) =? year_of_month i) && (snd (fst last) =? month_of_month i)
  && (snd last =? month_length i)
  && (28 <=? month_length i) && (month_length i <=? 31).

(** A year is a leap year when it is a multiple of 4 and not of 100, or a
    multiple of 400. *)
Definition is_leap (y : Z) : bool :=
  (y mod 4 =? 0) && (negb (y mod 100 =? 0) || (y mod 400 =? 0)).

(** The number of days of the month [m] of the year [y] by the calendar. *)
Definition calendar_days (y m : Z) : Z :=
  if m =? 2 then (if is_leap y then 29 else 28)
  else if (m =? 4) || (m =? 6) || (m =? 9) || (m =? 11) then 30
  else 31.

(** What is checked of the month number [i]: its length is that of the
    calendar. *)
Definition month_days_ok (i : Z) : bool :=
  month_length i =? calendar_days (year_of_month i) (month_of_month i).

(** The time of a [Date] lies within 100,000,000 days of 1970-01-01: the
    years from [first_full_year] to [last_full_year] are those that lie
    within these days in full. *)
Definition Date_limit : Z := 100000000.
Definition first_full_year : Z := -271820.
Definition last_full_year : Z := 275759.

(** A date text that [Number] and [new Date] are modelled exactly on: its
    pieces between hyphens are made of decimal digits, and the date that is
    read from it, when there is one, lies within the days of a [Date]. *)
Definition plain_date_text (s : string) : bool :=
  forallb JS.all_digits (JS.split "-" s)
  && match Calendar.parseDate s with
     | Some z => Z.abs z <? Date_limit
     | None => true
     end.

(** A paycheck schedule of a month setup as the pay cycle that the payroll
    engine is given: the two types are the same union of strings. *)
Definition asPayCycle (schedule : Types.PaycheckSchedule) : PayrollTypes.PayCycle :=
  match schedule with
  | Types.sch_weekly => PayrollTypes.weekly
  | Types.sch_biweekly => PayrollTypes.biweekly
  | Types.sch_semimonthly => PayrollTypes.semimonthly
  | Types.sch_monthly => PayrollTypes.monthly
  end.

End Days.

(** ** Further notions: the forecast *)

Module ForecastNotions.

Import Types.
Local Open Scope Q_scope.


(** The property names that a plain object inherits from
    [Object.prototype]. *)
Definition inherited_keys : list string :=
  [ "constructor"; "__defineGetter__"; "__defineSetter__"; "hasOwnProperty";
    "__lookupGetter__"; "__lookupSetter__"; "isPrototypeOf"; "propertyIsEnumerable";
    "toString"; "valueOf"; "__proto__"; "toLocaleString" ]%string.

Definition own_key (id : string) : bool :=
  negb (existsb (String.eqb id) inherited_keys).

(** A snapshot whose balances are keyed by names of their own: no account
    and no transaction names a property that the object of the balances
    inherits.  The map that stands for that object is exact there. *)
Definition keyed_plainly (snapshot : MonthSnapshot) : bool :=
  forallb (fun acc => own_key (acc_id acc)) (accounts snapshot)
  && forallb (fun tx => own_key (tx_account_id tx)
                        && own_key (default ""%string (tx_transfer_account_id tx)))
             (transactions snapshot).


(** A snapshot with other transactions. *)
Definition with_transactions (snapshot : MonthSnapshot) (txs : list Transaction)
  : MonthSnapshot :=
  {| snapshot_id := snapshot_id snapshot;
     accounts := accounts snapshot;
     transactions := txs;
     starting_balances := starting_balances snapshot |}.



(** The amount of the last starting balance listed for an account, zero
    when there is none. *)
Definition last_balance_of (starting : list StartingBalance) (account : string) : Q :=
  match List.find (fun sb => String.eqb (sb_account_id sb) account) (rev starting) with
  | Some sb => sb_amount sb
  | None => 0
  end.

(** Whether the totals of the dashboard count a transaction: it is not of
    type transfer and has no transfer account. *)
Definition counted_in_totals (tx : Transaction) : bool :=
  negb (match tx_transaction_type tx with Some transfer => true | _ => false end
        || JS.truthy_opt (tx_transfer_account_id tx)).

(** March 2024 with a checking and a savings account: a paycheck on the
    5th, a transfer to savings on the 10th, a purchase dated in April. *)
Definition sample_month : MonthSnapshot :=
  {| snapshot_id := "2024-03";
     accounts := [ SpecNotions.sample_checking; SpecNotions.sample_savings ];
     transactions :=
       [ SpecNotions.sample_transfer;
         {| tx_id := "t2"; tx_date := "2024-04-02"; tx_amount := - (80);
            tx_account_id := "acc1"; tx_transfer_account_id := None;
            tx_transaction_type := Some expense; tx_category_id := "cat3";
            tx_description := "Groceries"; tx_notes := None; tx_loan_id := None;
            tx_created_at := 0; tx_updated_at := 0; tx_source := Some manual;
            tx_source_item_id := None; tx_generated_batch_id := None |};
         {| tx_id := "t3"; tx_date := "2024-03-05"; tx_amount := 1500;
            tx_account_id := "acc1"; tx_transfer_account_id := None;
            tx_transaction_type := Some income; tx_category_id := "cat0";
            tx_description := "Paycheck"; tx_notes := None; tx_loan_id := None;
            tx_created_at := 0; tx_updated_at := 0; tx_source := Some manual;
            tx_source_item_id := None; tx_generated_batch_id := None |} ];
     starting_balances :=
       [ mkStartingBalance "acc1" 1000; mkStartingBalance "acc2" 500 ] |}.

End ForecastNotions.

(** ** Further notions: the generator *)

Module GenerationNotions.

Import Types.
Local Open Scope Q_scope.

(** The month setup that a run returns: the setup it was given, with the
    time and the count of the run. *)
Definition touched (monthSetup : MonthSetup) (now version : Z) : MonthSetup :=
  {| paycheck_schedule := paycheck_schedule monthSetup;
     paycheck_anchor_date := paycheck_anchor_date monthSetup;
     paycheck_deposit_splits := paycheck_deposit_splits monthSetup;
     paycheck_category_id := paycheck_category_id monthSetup;
     paycheck_default_amount := paycheck_default_amount monthSetup;
     paycheck_estimates := paycheck_estimates monthSetup;
     paycheck_overrides := paycheck_overrides monthSetup;
     variable_overrides := variable_overrides monthSetup;
     one_offs := one_offs monthSetup;
     last_generated_at := now;
     generation_version := version |}.

(** The fixed part of the deposit splits of a paycheck: the absolute
    amounts of the splits that have an account and are not the remainder,
    added up. *)
Definition fixedTotal (splits : list PaycheckDepositSplit) : Q :=
  Totals.total_of (fun split => Qabs (split_amount split))
    (List.filter (fun split => negb (JS.truthy_flag (is_remainder split)))
                 (Generation.eligibleSplits splits)).

(** Whether a split that has an account takes the remainder. *)
Definition has_remainder (splits : list PaycheckDepositSplit) : bool :=
  existsb (fun split => JS.truthy_flag (is_remainder split))
          (Generation.eligibleSplits splits).

(** The sign that goes with the type of a transaction: not negative for
    an income and for a transaction without a type, not positive for an
    expense and for a transfer. *)
Definition signed_by_type (tx : Transaction) : Prop :=
  match tx_transaction_type tx with
  | Some income | None => 0 <= tx_amount tx
  | Some _ => tx_amount tx <= 0
  end.

End GenerationNotions.

(** ** Further notions: the deposit splits of a month setup *)

Module AppNotions.

Import JS Types.
Local Open Scope string_scope.
Local Open Scope Q_scope.

(** Whether a split takes the remainder of a paycheck. *)
Definition takes_remainder (split : PaycheckDepositSplit) : bool :=
  truthy_flag (is_remainder split).

(** Deposit splits in normal form for a list of accounts: every split
    names an account of the list by an identifier that is not empty, one
    split at most takes the remainder, a split that takes the remainder
    has the amount 0, and a split that is alone takes the remainder. *)
Definition normalized (accounts : list Account) (splits : list PaycheckDepositSplit) : Prop :=
  Forall (fun split => truthy (split_account_id split) = true
                       /\ In (split_account_id split) (map acc_id accounts)) splits
  /\ (length (List.filter takes_remainder splits) <= 1)%nat
  /\ Forall (fun split => takes_remainder split = true -> split_amount split = 0) splits
  /\ (length splits = 1%nat -> Forall (fun split => takes_remainder split = true) splits).

(** Whether a list of accounts has an account to deposit a paycheck into
    when nothing else is said: the first account that is not a loan, or
    the first account, with an identifier that is not empty. *)
Definition fallbackAccount (accounts : list Account) : string :=
  App.or_else
    (App.firstId
       (List.filter (fun acc => match acc_type acc with loan => false | _ => true end) accounts))
    (App.or_else (App.firstId accounts) "").

End AppNotions.

(** ** Further notions: lines of comma separated values *)

Module CsvNotions.

Local Open Scope string_scope.

(** A cell that can be written as it is: no comma and no double quote. *)
Fixpoint csv_plain (cell : string) : bool :=
  match cell with
  | EmptyString => true
  | String char rest =>
      negb (Ascii.eqb char GainLossPage.quote) && negb (Ascii.eqb char ",") && csv_plain rest
  end.

(** A cell with every double quote written twice. *)
Fixpoint csv_doubled (cell : string) : string :=
  match cell with
  | EmptyString => EmptyString
  | String char rest =>
      if Ascii.eqb char GainLossPage.quote
      then String GainLossPage.quote (String GainLossPage.quote (csv_doubled rest))
      else String char (csv_doubled rest)
  end.

(** A cell between double quotes. *)
Definition csv_quoted (cell : string) : string :=
  String GainLossPage.quote (csv_doubled cell ++ String GainLossPage.quote EmptyString).

(** [text] is a way to write [cell]: the cell as it is when it is plain,
    or the cell between double quotes. *)
Definition csv_written (cell text : string) : Prop :=
  (csv_plain cell = true /\ text = cell) \/ text = csv_quoted cell.

End CsvNotions.

(** ** Further notions: the totals of the gain and loss page *)

Module GainLossNotions.

Import Types.
Local Open Scope Q_scope.

(** An account counted as cash: in the cash forecast, and neither an
    investment nor a loan. *)
Definition counted_as_cash (acc : Account) : bool :=
  included_in_cash_forecast acc
  && match acc_type acc with investment | loan => false | _ => true end.

(** An account counted as an investment. *)
Definition counted_as_investment (acc : Account) : bool :=
  match acc_type acc with investment => true | _ => false end.

(** The balance of an account in a map of balances, 0 when the map has
    none. *)
Definition balance_in (balanceMap : gmap string Q) (acc : Account) : Q :=
  default 0 (balanceMap !! acc_id acc).

End GainLossNotions.

(** ** Further notions: loans and their payments *)

Module LoanNotions.

Import JS Types LoanTracker.
Local Open Scope string_scope.
Local Open Scope Q_scope.

(** A transaction that pays the loan [id]: it names the loan and its
    amount is negative. *)
Definition paid_to (id : string) (tx : Transaction) : bool :=
  match tx_loan_id tx with
  | Some named => truthy named && String.eqb named id
  | None => false
  end
  && negb (Qle_bool 0 (tx_amount tx)).

(** Two optional amounts that are both missing or are the same number. *)
Definition same_amount (a b : option Q) : Prop :=
  match a, b with
  | Some x, Some y => x == y
  | None, None => True
  | _, _ => False
  end.

(** Two records of payment with the same month and the same numbers. *)
Definition same_record (a b : LoanPaymentRecord) : Prop :=
  payment_month_id a = payment_month_id b
  /\ payment_amount a == payment_amount b
  /\ same_amount (interest_accrued a) (interest_accrued b)
  /\ same_amount (balance_before a) (balance_before b)
  /\ same_amount (balance_after a) (balance_after b).

(** Two loans that are the same but for the time of their last update. *)
Definition same_loan (a b : Loan) : Prop :=
  loan_id a = loan_id b
  /\ loan_name a = loan_name b
  /\ origination_date a = origination_date b
  /\ original_principal a == original_principal b
  /\ current_balance a == current_balance b
  /\ interest_rate a == interest_rate b
  /\ maturity_date a = maturity_date b
  /\ Forall2 same_record (default [] (payment_history a)) (default [] (payment_history b))
  /\ loan_created_at a = loan_created_at b.

(** A loan of 12000 at 6 percent a year, with no payment recorded, and a
    month with a payment of [amount] on it. *)
Definition sample_car_loan : Loan :=
  {| loan_id := "loan1"; loan_name := "Car loan"; origination_date := "2023-01-01";
     original_principal := 15000; current_balance := 12000; interest_rate := 6;
     maturity_date := "2028-01-01"; payment_history := None;
     loan_created_at := 0; loan_updated_at := 0 |}.

Definition sample_payment_month (amount : Q) : MonthSnapshot :=
  {| snapshot_id := "2024-03";
     accounts := [];
     transactions :=
       [{| tx_id := "p1"; tx_date := "2024-03-05"; tx_amount := - amount;
           tx_account_id := "acc1"; tx_transfer_account_id := None;
           tx_transaction_type := Some expense; tx_category_id := "cat3";
           tx_description := "Car payment"; tx_notes := None;
           tx_loan_id := Some "loan1"%string;
           tx_created_at := 0; tx_updated_at := 0; tx_source := Some manual;
           tx_source_item_id := None; tx_generated_batch_id := None |}];
     starting_balances := [] |}.

End LoanNotions.

(** * Properties *)

(** ** The primitives: numerals *)

Module JSFacts.

Import JS SpecNotions.
Local Open Scope Z_scope.

Lemma digits_prefix_numeral d : forall acc seen,
  digits_prefix acc seen (NilEmpty.string_of_uint d)
  = (uint_value acc d, seen || negb (is_nil d)).
Proof.
  induction d; intros acc seen; simpl;
    rewrite ?IHd, ?orb_true_r, ?orb_false_r, ?Z.add_0_r; reflexivity.
Qed.

Lemma uint_value_shift d : forall acc,
  uint_value acc d = uint_value 0 d + acc * 10 ^ Z.of_nat (Decimal.nb_digits d).
Proof.
  induction d; intros acc; cbn [uint_value Decimal.nb_digits];
    [ rewrite Z.pow_0_r; lia | .. ];
    match goal with
    | |- uint_value ?a d = uint_value ?b d + _ => rewrite (IHd a), (IHd b)
    end;
    rewrite Nat2Z.inj_succ, Z.pow_succ_r by lia; ring.
Qed.

Lemma uint_value_pos p : uint_value 0 (Pos.to_uint p) = Z.pos p.
Proof.
  assert (H : forall d, uint_value 0 d = Z.of_N (Pos.of_uint d)).
  { intros d. rewrite DecimalPos.Unsigned.of_uint_alt.
    rewrite <- (DecimalFacts.rev_rev d) at 1.
    generalize (Decimal.rev d). clear d. intros d.
    unfold Decimal.rev.
    assert (G : forall d d', uint_value 0 (Decimal.revapp d d')
                             = Z.of_N (DecimalPos.Unsigned.of_lu d)
                               * 10 ^ Z.of_nat (Decimal.nb_digits d')
                               + uint_value 0 d').
    { induction d0; intros d'; cbn [Decimal.revapp DecimalPos.Unsigned.of_lu];
        [ simpl; lia | .. ];
        rewrite IHd0; cbn [Decimal.nb_digits uint_value];
        rewrite (uint_value_shift d'), Nat2Z.inj_succ, Z.pow_succ_r by lia;
        rewrite ?N2Z.inj_add, ?N2Z.inj_mul; simpl Z.of_N; ring. }
    rewrite G. simpl. lia. }
  rewrite H, DecimalPos.Unsigned.of_to. reflexivity.
Qed.

Lemma read_int_unsigned d :
  d <> Decimal.Nil ->
  read_int (NilEmpty.string_of_uint d) = Some (uint_value 0 d)
  /\ read_int (String "-" (NilEmpty.string_of_uint d)) = Some (- uint_value 0 d).
Proof.
  intros Hd.
  destruct d as [|d|d|d|d|d|d|d|d|d|d]; [congruence|..];
    unfold read_int; cbn [NilEmpty.string_of_uint skip_spaces];
    repeat match goal with
           | |- context [is_space ?c] =>
               let b := eval vm_compute in (is_space c) in change (is_space c) with b
           end;
    cbv iota beta; cbn [digits_prefix];
    repeat match goal with
           | |- context [digit_of ?c] =>
               let b := eval vm_compute in (digit_of c) in change (digit_of c) with b
           end;
    cbv iota beta; rewrite !digits_prefix_numeral; split; reflexivity.
Qed.

(** Reading back the numeral of an integer gives the integer. *)
Lemma read_int_toString z : read_int (toString (Some z)) = Some z.
Proof.
  unfold toString. destruct z as [|p|p]; [reflexivity|..];
    pose proof (DecimalPos.Unsigned.to_uint_nonnil p) as Hn;
    destruct (read_int_unsigned (Pos.to_uint p) Hn) as [H1 H2];
    rewrite uint_value_pos in H1, H2; simpl Z.to_int;
    unfold NilZero.string_of_int, NilZero.string_of_uint.
  - destruct (Pos.to_uint p); [congruence|exact H1..].
  - destruct (Pos.to_uint p); [congruence|exact H2..].
Qed.

Lemma parseInt_toString z : fits_double z = true -> parseInt (toString (Some z)) = Some z.
Proof. intros Hz. unfold parseInt. rewrite read_int_toString, Hz. reflexivity. Qed.

(** The integers of the calendar fit. *)
Lemma fits_double_small z : Z.abs z < 2 ^ 64 -> fits_double z = true.
Proof.
  intros Hz. unfold fits_double. apply Z.ltb_lt.
  eapply Z.lt_le_trans; [exact Hz|]. vm_compute. discriminate.
Qed.

(** Without a radix, a string of decimal digits is read in base 10. *)
Lemma parseInt_any_digits s : all_digits s = true -> parseInt_any s = parseInt s.
Proof.
  intros H. destruct s as [|c s]; [reflexivity|].
  cbn [all_digits] in H. apply andb_true_iff in H. destruct H as [Hc Hs].
  assert (Hend : forall (p : Z * bool),
             (let '(v, seen) := p in
              if seen && fits_double v then Some v else None)
             = match (let '(v, seen) := p in if seen then Some v else None) with
               | Some v => if fits_double v then Some v else None
               | None => None
               end).
  { intros [v []]; cbn [andb]; [reflexivity|reflexivity]. }
  unfold parseInt_any, parseInt, read_int.
  destruct c as [[] [] [] [] [] [] [] []]; try discriminate Hc;
    cbn [skip_spaces];
    repeat match goal with
           | |- context [is_space ?c] =>
               let b := eval vm_compute in (is_space c) in change (is_space c) with b
           end;
    cbv iota beta; try apply Hend.
  destruct s as [|c' r]; [reflexivity|].
  cbn [all_digits] in Hs. apply andb_true_iff in Hs. destruct Hs as [Hc' _].
  destruct c' as [[] [] [] [] [] [] [] []]; try discriminate Hc';
    repeat match goal with
           | |- context [Ascii.eqb ?a ?b] =>
               let v := eval vm_compute in (Ascii.eqb a b) in change (Ascii.eqb a b) with v
           end;
    cbv iota beta; cbn [orb]; cbv iota; apply Hend.
Qed.

Lemma toString_inj a b : toString (Some a) = toString (Some b) -> a = b.
Proof.
  intros H. apply (f_equal read_int) in H. rewrite !read_int_toString in H. congruence.
Qed.

End JSFacts.

(** ** The primitives: the calendar *)

Module CalendarFacts.

Import JS Calendar SpecNotions JSFacts.
Local Open Scope Z_scope.

(** The two conversions move together by whole 400-year cycles of 146097
    days. *)
Lemma days_from_civil_cycle y m d k :
  days_from_civil (y + 400 * k) m d = days_from_civil y m d + 146097 * k.
Proof.
  unfold days_from_civil.
  set (y' := if m <=? 2 then y - 1 else y).
  replace (if m <=? 2 then y + 400 * k - 1 else y + 400 * k) with (y' + k * 400)
    by (unfold y'; destruct (m <=? 2); ring).
  cbv zeta. rewrite Z.div_add by lia.
  replace (y' + k * 400 - (y' / 400 + k) * 400) with (y' - y' / 400 * 400) by ring.
  ring.
Qed.

Lemma civil_from_days_cycle z k :
  civil_from_days (z + 146097 * k)
  = let '(y, m, d) := civil_from_days z in (y + 400 * k, m, d).
Proof.
  unfold civil_from_days.
  replace (z + 146097 * k + 719468) with (z + 719468 + k * 146097) by ring.
  cbv zeta. rewrite Z.div_add, Z_mod_plus_full by lia.
  destruct (_ <=? 2); f_equal; f_equal; ring.
Qed.

Lemma check_steps f n : forall st,
  let st' := Pos.iter (check_step f) st n in
  fst st' = fst st + Z.pos n
  /\ (snd st' = true ->
      snd st = true /\ forall z, fst st <= z < fst st + Z.pos n -> f z = true).
Proof.
  induction n as [|n IH] using Pos.peano_ind; intros st; cbv zeta.
  - simpl. split; [reflexivity|]. intros H. apply andb_true_iff in H.
    split; [tauto|]. intros z Hz. replace z with (fst st) by lia. tauto.
  - rewrite Pos.iter_succ. specialize (IH st). cbv zeta in IH.
    destruct IH as [IH1 IH2]. unfold check_step at 1. cbn [fst snd].
    rewrite IH1. split; [lia|]. intros H. apply andb_true_iff in H.
    destruct H as [H1 H2]. destruct (IH2 H1) as [H3 H4].
    split; [exact H3|]. intros z Hz.
    destruct (Z.eq_dec z (fst st + Z.pos n)) as [->|Hne]; [rewrite <- IH1; exact H2|].
    apply H4. lia.
Qed.

Lemma check_range_sound f z0 n :
  snd (check_range f z0 n) = true -> forall z, z0 <= z < z0 + Z.pos n -> f z = true.
Proof.
  intros H. destruct (check_steps f n (z0, true)) as [_ Hs].
  destruct (Hs H) as [_ Hall]. exact Hall.
Qed.

(** One cycle of 400 years, checked day by day, and one year, checked day
    by day. *)
Lemma cycle_days_checked : snd (check_range cycle_day_ok 0 146097) = true.
Proof. vm_cast_no_check (eq_refl true). Qed.

Lemma year_days_checked : snd (check_range year_day_ok 0 366) = true.
Proof. vm_cast_no_check (eq_refl true). Qed.

(** The civil date of every day number: a month from 1 to 12, a day from 1
    to 31, and [days_from_civil] gives the day number back. *)
Lemma civil_from_days_spec z :
  let '(y, m, d) := civil_from_days z in
  1 <= m <= 12 /\ 1 <= d <= 31 /\ days_from_civil y m d = z.
Proof.
  unfold civil_from_days, days_from_civil. cbv zeta.
  set (z' := z + 719468). set (era := z' / 146097). set (doe := z' mod 146097).
  pose proof (Z.mod_pos_bound z' 146097 ltac:(lia)) as Hdoe. fold doe in Hdoe.
  pose proof (Z.div_mod z' 146097 ltac:(lia)) as Hz. fold era doe in Hz.
  pose proof (check_range_sound _ _ _ cycle_days_checked doe ltac:(lia)) as Hc.
  unfold cycle_day_ok in Hc. cbv zeta in Hc.
  set (yoe := (doe - doe / 1460 + doe / 36524 - doe / 146096) / 365) in *.
  set (doy := doe - (365 * yoe + yoe / 4 - yoe / 100)) in *.
  rewrite !andb_true_iff, !Z.leb_le in Hc. destruct Hc as [[[Hy0 Hy1] Hd0] Hd1].
  pose proof (check_range_sound _ _ _ year_days_checked doy ltac:(lia)) as Hd.
  unfold year_day_ok in Hd. cbv zeta in Hd.
  set (mp := (5 * doy + 2) / 153) in *.
  set (d := doy - (153 * mp + 2) / 5 + 1) in *.
  set (m := if mp <? 10 then mp + 3 else mp - 9) in *.
  rewrite !andb_true_iff, !Z.leb_le, Z.eqb_eq in Hd.
  destruct Hd as [[[[Hm0 Hm1] Hdd0] Hdd1] Hmp].
  split; [lia|]. split; [lia|].
  replace (if m <=? 2 then (if m <=? 2 then yoe + era * 400 + 1 else yoe + era * 400) - 1
           else if m <=? 2 then yoe + era * 400 + 1 else yoe + era * 400)
    with (yoe + era * 400) by (destruct (m <=? 2); ring).
  rewrite Hmp, Z.div_add by lia.
  rewrite (Z.div_small yoe 400) by lia.
  replace (yoe + era * 400 - (0 + era) * 400) with yoe by ring.
  unfold d, doy. lia.
Qed.

Lemma days_from_civil_day y m d :
  days_from_civil y m d = days_from_civil y m 1 + (d - 1).
Proof. unfold days_from_civil. cbv zeta. ring. Qed.

Lemma month_index y m :
  1 <= m <= 12 ->
  (y * 12 + (m - 1)) / 12 = y /\ (y * 12 + (m - 1)) mod 12 + 1 = m.
Proof. intros H. split; Z.div_mod_to_equations; lia. Qed.

(** The months of 400 years, checked one by one. *)
Lemma month_ends_checked : snd (check_range month_end_ok 0 4800) = true.
Proof. vm_cast_no_check (eq_refl true). Qed.

(** The day before the first day of a month is a 28th or later. *)
Lemma month_end_late y m :
  1 <= m <= 12 -> 28 <= snd (civil_from_days (days_from_civil y m 1 - 1)).
Proof.
  intros Hm.
  set (k := y / 400). set (y0 := y mod 400).
  assert (Hy : y = y0 + 400 * k) by (unfold y0, k; pose proof (Z.div_mod y 400); lia).
  pose proof (Z.mod_pos_bound y 400 ltac:(lia)) as Hb. fold y0 in Hb.
  pose proof (check_range_sound _ _ _ month_ends_checked (y0 * 12 + (m - 1)) ltac:(lia)) as H.
  unfold month_end_ok in H.
  destruct (month_index y0 m Hm) as [Hq Hr]. rewrite Hq, Hr in H.
  apply Z.leb_le in H.
  rewrite Hy, days_from_civil_cycle.
  replace (days_from_civil y0 m 1 + 146097 * k - 1)
    with (days_from_civil y0 m 1 - 1 + 146097 * k) by ring.
  rewrite civil_from_days_cycle.
  destruct (civil_from_days (days_from_civil y0 m 1 - 1)) as [[? ?] ?]. exact H.
Qed.

Lemma centuries_checked : snd (check_range century_ok 0 1200) = true.
Proof. vm_cast_no_check (eq_refl true). Qed.

Lemma century_later y m :
  0 <= y <= 99 -> 1 <= m <= 12 ->
  days_from_civil y m 1 < days_from_civil (1900 + y) m 1.
Proof.
  intros Hy Hm.
  pose proof (check_range_sound _ _ _ centuries_checked (y * 12 + (m - 1)) ltac:(lia)) as H.
  unfold century_ok in H.
  destruct (month_index y m Hm) as [Hq Hr]. rewrite Hq, Hr in H.
  apply Z.ltb_lt in H. exact H.
Qed.

(** [new Date(y, m, d + n)] from the parts of a date is at least [n] days
    later: exactly [n], unless the year is one of 0 to 99, which the
    constructor reads as 1900 to 1999. *)
Lemma stepDate_later z n :
  exists z', stepDate (Some z) n = Some z' /\ z + n <= z'.
Proof.
  unfold stepDate, getFullYear, getMonth, getDate, add, lift2, option_map, newDate.
  pose proof (civil_from_days_spec z) as H.
  destruct (civil_from_days z) as [[y m] d]. cbn [fst snd].
  destruct H as (Hm & Hd & Hz).
  eexists. split; [reflexivity|].
  destruct (month_index 0 m Hm) as [Hq Hr].
  rewrite Z.mul_0_l, Z.add_0_l in Hq, Hr. rewrite Hq, Hr.
  rewrite days_from_civil_day in Hz.
  destruct ((0 <=? y) && (y <=? 99)) eqn:E.
  - apply andb_true_iff in E. rewrite !Z.leb_le in E.
    pose proof (century_later y m E Hm). rewrite Z.add_0_r. lia.
  - rewrite Z.add_0_r. lia.
Qed.

End CalendarFacts.

(** ** The primitives: strings and formatted dates *)

Module StringFacts.

Import JS Calendar SpecNotions JSFacts CalendarFacts.
Local Open Scope string_scope.
Local Arguments String.append !_ _ / : simpl nomatch.

Lemma length_app (a b : string) :
  String.length (a ++ b) = (String.length a + String.length b)%nat.
Proof. induction a as [|c a IH]; simpl; [reflexivity|]. rewrite IH. reflexivity. Qed.

(** Two strings that end in tails of the same length. *)
Lemma app_inj_tail (s1 s2 t1 t2 : string) :
  String.length t1 = String.length t2 -> s1 ++ t1 = s2 ++ t2 -> s1 = s2 /\ t1 = t2.
Proof.
  intros Hl. revert s2.
  induction s1 as [|c s1 IH]; intros [|c' s2] H; simpl in H.
  - split; [reflexivity|exact H].
  - exfalso. apply (f_equal String.length) in H.
    rewrite ?length_app in H. simpl in H. rewrite ?length_app in H. lia.
  - exfalso. apply (f_equal String.length) in H.
    rewrite ?length_app in H. simpl in H. rewrite ?length_app in H. lia.
  - injection H as -> H. destruct (IH s2 H) as [-> ->]. split; reflexivity.
Qed.

Lemma colon_free_app a b : colon_free (a ++ b) = colon_free a && colon_free b.
Proof.
  induction a as [|c a IH]; simpl; [reflexivity|]. rewrite IH, andb_assoc. reflexivity.
Qed.

(** Two strings cut at their first colon. *)
Lemma cut_at_first_colon d1 d2 a1 a2 :
  colon_free d1 = true -> colon_free d2 = true ->
  d1 ++ ":" ++ a1 = d2 ++ ":" ++ a2 -> d1 = d2 /\ a1 = a2.
Proof.
  revert d2. induction d1 as [|c d1 IH]; intros [|c' d2] H1 H2 H;
    cbn [String.append colon_free] in *.
  - inversion H. split; reflexivity.
  - inversion H; subst. discriminate.
  - inversion H; subst. discriminate.
  - inversion H; subst.
    apply andb_true_iff in H1, H2.
    destruct (IH d2 (proj2 H1) (proj2 H2) ltac:(assumption)) as [-> ->].
    split; reflexivity.
Qed.

(** Two strings cut at their last colon. *)
Lemma cut_at_last_colon a1 a2 d1 d2 :
  colon_free d1 = true -> colon_free d2 = true ->
  a1 ++ ":" ++ d1 = a2 ++ ":" ++ d2 -> a1 = a2 /\ d1 = d2.
Proof.
  intros H1 H2. revert a2. induction a1 as [|c a1 IH]; intros [|c' a2] H;
    cbn [String.append] in *.
  - inversion H. split; reflexivity.
  - inversion H; subst. exfalso.
    rewrite colon_free_app in H1. cbn [colon_free String.append] in H1.
    rewrite andb_false_r in H1. discriminate.
  - inversion H; subst. exfalso.
    rewrite colon_free_app in H2. cbn [colon_free String.append] in H2.
    rewrite andb_false_r in H2. discriminate.
  - inversion H; subst.
    destruct (IH a2 ltac:(assumption)) as [-> ->]. split; reflexivity.
Qed.

Lemma numeral_colon_free d : colon_free (NilEmpty.string_of_uint d) = true.
Proof. induction d; simpl; auto. Qed.

Lemma toString_colon_free n : colon_free (toString n) = true.
Proof.
  destruct n as [z|]; [|reflexivity].
  unfold toString, NilZero.string_of_int, NilZero.string_of_uint.
  destruct (Z.to_int z) as [d|d]; destruct d; simpl; rewrite ?numeral_colon_free; reflexivity.
Qed.

Lemma padStart2_colon_free s : colon_free s = true -> colon_free (padStart2 s) = true.
Proof. destruct s as [|c [|c' s]]; simpl; auto. Qed.

Lemma dateInMonth_colon_free monthId n :
  colon_free monthId = true -> colon_free (dateInMonth monthId n) = true.
Proof.
  intros H. unfold dateInMonth. rewrite !colon_free_app, H. simpl.
  apply padStart2_colon_free, toString_colon_free.
Qed.

Lemma formatDate_colon_free date : colon_free (formatDate date) = true.
Proof.
  unfold formatDate. rewrite !colon_free_app, toString_colon_free. simpl.
  rewrite !padStart2_colon_free by apply toString_colon_free. reflexivity.
Qed.

Lemma two_digits_checked : snd (check_range two_digits_ok 0 100) = true.
Proof. vm_compute. reflexivity. Qed.

Lemma two_digits k :
  (0 <= k <= 99)%Z ->
  String.length (padStart2 (toString (Some k))) = 2%nat
  /\ parseInt (padStart2 (toString (Some k))) = Some k.
Proof.
  intros Hk.
  pose proof (check_range_sound _ _ _ two_digits_checked k ltac:(lia)) as H.
  unfold two_digits_ok in H. rewrite !andb_true_iff in H.
  destruct H as [[[[Hl _] _] Hp] _]. apply Nat.eqb_eq in Hl. split; [exact Hl|].
  destruct (parseInt _) as [v|]; [|discriminate].
  apply Z.eqb_eq in Hp. congruence.
Qed.

Lemma two_digits_number k :
  (0 <= k <= 99)%Z ->
  all_digits (padStart2 (toString (Some k))) = true
  /\ Number_ (padStart2 (toString (Some k))) = Some k.
Proof.
  intros Hk.
  pose proof (check_range_sound _ _ _ two_digits_checked k ltac:(lia)) as H.
  unfold two_digits_ok in H. rewrite !andb_true_iff in H.
  destruct H as [[[_ Hd] _] Hn]. split; [exact Hd|].
  destruct (Number_ _) as [v|]; [|discriminate].
  apply Z.eqb_eq in Hn. congruence.
Qed.

Lemma numeral_all_digits d : all_digits (NilEmpty.string_of_uint d) = true.
Proof. induction d; simpl; auto. Qed.

(** [Number] reads the numeral of a number that is not negative. *)
Lemma Number_toString z :
  (0 <= z)%Z -> all_digits (toString (Some z)) = true /\ Number_ (toString (Some z)) = Some z.
Proof.
  intros Hz. destruct z as [|p|p]; [split; reflexivity| |lia].
  unfold Number_, toString. simpl Z.to_int.
  unfold NilZero.string_of_int, NilZero.string_of_uint.
  pose proof (DecimalPos.Unsigned.to_uint_nonnil p) as Hn.
  assert (H : forall d, d <> Decimal.Nil ->
                        match d with
                        | Decimal.Nil => "0"
                        | _ => NilEmpty.string_of_uint d
                        end = NilEmpty.string_of_uint d).
  { intros d Hd. destruct d; [congruence|reflexivity..]. }
  rewrite (H _ Hn), numeral_all_digits, digits_prefix_numeral, uint_value_pos.
  split; reflexivity.
Qed.

Lemma append_empty (a : string) : a ++ "" = a.
Proof. induction a as [|c a IH]; simpl; [reflexivity|]. rewrite IH. reflexivity. Qed.

Lemma append_assoc (a b c : string) : (a ++ b) ++ c = a ++ (b ++ c).
Proof.
  induction a as [|x a IH]; cbn [String.append]; [reflexivity|]. rewrite IH. reflexivity.
Qed.

Lemma rev_app_twice a : forall b c,
  String.rev_app (String.rev_app a b) c = String.rev_app b (a ++ c).
Proof.
  induction a as [|x a IH]; intros b c; simpl; [reflexivity|].
  rewrite IH. reflexivity.
Qed.

(** Cutting at the hyphens a string that starts with digits. *)
Lemma split_go_digits a : forall cur rest,
  all_digits a = true ->
  split_go "-" cur (a ++ rest) = split_go "-" (String.rev_app a cur) rest.
Proof.
  induction a as [|c a IH]; intros cur rest Ha; [reflexivity|].
  cbn [all_digits] in Ha. apply andb_true_iff in Ha. destruct Ha as [Hc Ha].
  simpl. destruct (Ascii.eqb_spec c "-") as [->|_]; [discriminate Hc|].
  apply IH. exact Ha.
Qed.

Lemma split_month_id a b :
  all_digits a = true -> all_digits b = true -> split "-" (a ++ "-" ++ b) = [a; b].
Proof.
  intros Ha Hb. unfold split. rewrite split_go_digits by exact Ha.
  simpl. unfold String.rev. rewrite rev_app_twice. simpl. rewrite append_empty. f_equal.
  rewrite <- (append_empty b) at 1. rewrite split_go_digits by exact Hb.
  simpl. unfold String.rev. rewrite rev_app_twice. simpl. rewrite append_empty. reflexivity.
Qed.

(** The text of a valid date, from its civil date. *)
Lemma formatDate_parts z :
  formatDate (Some z)
  = let '(y, m, d) := civil_from_days z in
    toString (Some y) ++ "-" ++ padStart2 (toString (Some m))
              ++ "-" ++ padStart2 (toString (Some d)).
Proof.
  unfold formatDate, getFullYear, getMonth, getDate, add, lift2, option_map.
  destruct (civil_from_days z) as [[y m] d]. cbn [fst snd].
  replace (m - 1 + 1)%Z with m by ring. reflexivity.
Qed.

(** Two valid dates with the same text are the same day. *)
Lemma formatDate_inj a b : formatDate (Some a) = formatDate (Some b) -> a = b.
Proof.
  rewrite !formatDate_parts.
  pose proof (civil_from_days_spec a) as Ha. pose proof (civil_from_days_spec b) as Hb.
  destruct (civil_from_days a) as [[y m] d], (civil_from_days b) as [[y' m'] d'].
  destruct Ha as (Hm & Hd & Hz), Hb as (Hm' & Hd' & Hz').
  destruct (two_digits m ltac:(lia)) as [Lm Pm], (two_digits m' ltac:(lia)) as [Lm' Pm'].
  destruct (two_digits d ltac:(lia)) as [Ld Pd], (two_digits d' ltac:(lia)) as [Ld' Pd'].
  intros H.
  assert (Ht : forall mm dd : string,
             String.length mm = 2%nat -> String.length dd = 2%nat ->
             String.length ("-" ++ mm ++ "-" ++ dd) = 6%nat).
  { intros mm dd H1 H2. rewrite !length_app, H1, H2. reflexivity. }
  apply app_inj_tail in H; [|rewrite !Ht by assumption; reflexivity].
  destruct H as [Hy H]. apply (app_inj_tail "-" "-") in H.
  2:{ rewrite !length_app, Lm, Lm', Ld, Ld'. reflexivity. }
  destruct H as [_ H].
  apply app_inj_tail in H; [|rewrite !length_app, Ld, Ld'; reflexivity].
  destruct H as [HM H]. apply (app_inj_tail "-" "-") in H; [|congruence].
  destruct H as [_ HD].
  apply toString_inj in Hy.
  assert (m = m') by congruence. assert (d = d') by congruence.
  subst. reflexivity.
Qed.

End StringFacts.

(** ** The schedule loops *)

Module ScheduleFacts.

Import JS Calendar SpecNotions JSFacts CalendarFacts StringFacts.
Local Open Scope string_scope.
Local Open Scope Z_scope.
Local Arguments String.append !_ _ / : simpl nomatch.

(** The first loop of [getDatesByInterval] stops because its condition
    fails, not because the bound on its iterations is reached. *)
Lemma advance_loop_ends start intervalDays :
  1 <= intervalDays ->
  forall fuel current,
    (days_until current start <= fuel)%nat ->
    date_lt (advance_loop fuel start current intervalDays) start = false.
Proof.
  intros Hi. induction fuel as [|fuel IH]; intros current Hf.
  - simpl. destruct current as [c|], start as [s|]; simpl in *; try reflexivity.
    apply Z.ltb_ge. lia.
  - simpl. destruct (date_lt current start) eqn:E; [|exact E].
    destruct current as [c|], start as [s|]; simpl in E; try discriminate.
    apply Z.ltb_lt in E.
    destruct (stepDate_later c intervalDays) as (c' & -> & Hc').
    apply IH. simpl in *. lia.
Qed.

(** The second loop does the same with one more iteration allowed. *)
Lemma collect_loop_stable start end_ intervalDays :
  1 <= intervalDays ->
  forall fuel current,
    (days_until current end_ < fuel)%nat ->
    collect_loop (S fuel) start end_ current intervalDays
    = collect_loop fuel start end_ current intervalDays.
Proof.
  intros Hi. induction fuel as [|fuel IH]; intros current Hf; [lia|].
  change (collect_loop (S (S fuel)) start end_ current intervalDays)
    with (if date_le current end_
          then ((if date_ge current start then [formatDate current] else [])
                  ++ collect_loop (S fuel) start end_ (stepDate current intervalDays)
                       intervalDays)%list
          else []).
  change (collect_loop (S fuel) start end_ current intervalDays)
    with (if date_le current end_
          then ((if date_ge current start then [formatDate current] else [])
                  ++ collect_loop fuel start end_ (stepDate current intervalDays)
                       intervalDays)%list
          else []).
  destruct (date_le current end_) eqn:E; [|reflexivity].
  destruct current as [c|], end_ as [e|]; simpl in E; try discriminate.
  apply Z.leb_le in E.
  destruct (stepDate_later c intervalDays) as (c' & Hs & Hc').
  destruct (Z.le_gt_cases c' e) as [Hle|Hgt].
  - rewrite IH; [reflexivity|]. rewrite Hs. simpl in *. lia.
  - rewrite Hs. destruct fuel as [|fuel'].
    + simpl. replace (c' <=? e) with false by (symmetry; apply Z.leb_gt; lia).
      reflexivity.
    + simpl. replace (c' <=? e) with false by (symmetry; apply Z.leb_gt; lia).
      reflexivity.
Qed.

(** The dates collected from a day on are those of later or equal days,
    each once. *)
Lemma collect_loop_distinct start end_ intervalDays :
  1 <= intervalDays ->
  forall fuel c,
    List.NoDup (collect_loop fuel start end_ (Some c) intervalDays)
    /\ forall x, In x (collect_loop fuel start end_ (Some c) intervalDays) ->
                 exists c', c <= c' /\ x = formatDate (Some c').
Proof.
  intros Hi. induction fuel as [|fuel IH]; intros c.
  - simpl. split; [constructor|]. intros x [].
  - cbn [collect_loop].
    destruct (date_le (Some c) end_); [|split; [constructor|intros x []]].
    destruct (stepDate_later c intervalDays) as (c' & -> & Hc').
    destruct (IH c') as [Hnd Hin].
    destruct (date_ge (Some c) start); cbn [app].
    + split.
      * constructor; [|exact Hnd].
        intros Hx. destruct (Hin _ Hx) as (c'' & Hle & Heq).
        apply formatDate_inj in Heq. lia.
      * intros x [<-|Hx]; [exists c; split; [lia|reflexivity]|].
        destruct (Hin _ Hx) as (c'' & Hle & Heq). exists c''. split; [lia|exact Heq].
    + split; [exact Hnd|]. intros x Hx.
      destruct (Hin _ Hx) as (c'' & Hle & Heq). exists c''. split; [lia|exact Heq].
Qed.

Lemma collect_loop_invalid fuel start end_ intervalDays :
  collect_loop fuel start end_ None intervalDays = [].
Proof. destruct fuel; reflexivity. Qed.

Lemma datesByInterval_distinct start end_ anchorDate intervalDays :
  1 <= intervalDays ->
  List.NoDup (datesByInterval start end_ anchorDate intervalDays).
Proof.
  intros Hi. unfold datesByInterval.
  destruct (advance_loop _ start anchorDate intervalDays) as [c|].
  - apply collect_loop_distinct. exact Hi.
  - rewrite collect_loop_invalid. constructor.
Qed.

Lemma datesByInterval_colon_free start end_ anchorDate intervalDays :
  Forall (fun date => colon_free date = true)
         (datesByInterval start end_ anchorDate intervalDays).
Proof.
  unfold datesByInterval.
  generalize (advance_loop (days_until anchorDate start) start anchorDate intervalDays).
  intros current. generalize (S (days_until current end_)). intros fuel.
  revert current. induction fuel as [|fuel IH]; intros current; simpl; [constructor|].
  destruct (date_le current end_); [|constructor].
  apply Forall_app. split; [|apply IH].
  destruct (date_ge current start); constructor; [|constructor].
  apply formatDate_colon_free.
Qed.

(** The number of days of a month is 28 at least and 31 at most. *)
Lemma daysInMonth_range monthId D :
  daysInMonth (getMonthInfo monthId) = Some D -> 28 <= D <= 31.
Proof.
  unfold getMonthInfo. cbn [daysInMonth].
  destruct (nth_Number 0 _) as [y|]; [|discriminate].
  destruct (nth_Number 1 _) as [m|]; [|discriminate].
  unfold newDate, getDate, option_map.
  set (y' := (if (0 <=? y) && (y <=? 99) then 1900 + y else y) + m / 12).
  replace (days_from_civil y' (m mod 12 + 1) 1 + (0 - 1))
    with (days_from_civil y' (m mod 12 + 1) 1 - 1) by ring.
  pose proof (Z.mod_pos_bound m 12 ltac:(lia)) as Hm.
  pose proof (month_end_late y' (m mod 12 + 1) ltac:(lia)) as H.
  pose proof (civil_from_days_spec (days_from_civil y' (m mod 12 + 1) 1 - 1)) as Hs.
  remember (civil_from_days (days_from_civil y' (m mod 12 + 1) 1 - 1)) as ymd eqn:E.
  clear E. destruct ymd as [[? ?] d]. cbn [fst snd] in *.
  intros Heq. assert (d = D) by congruence. lia.
Qed.

(** The identifier of every month of every year from 0 on is read by the
    code: the month has a number of days. *)
Lemma month_id_readable y m :
  0 <= y -> 1 <= m <= 12 -> exists D, daysInMonth (getMonthInfo (monthIdOf y m)) = Some D.
Proof.
  intros Hy Hm. unfold getMonthInfo, monthIdOf. cbn [daysInMonth].
  destruct (Number_toString y Hy) as [Hd Hn].
  destruct (two_digits_number m ltac:(lia)) as [Hd' Hn'].
  rewrite (split_month_id _ _ Hd Hd'). unfold nth_Number. cbn [nth_error].
  rewrite Hn, Hn'. eexists. reflexivity.
Qed.

Lemma app_inv_head (a b c : string) : a ++ b = a ++ c -> b = c.
Proof. induction a as [|x a IH]; simpl; intros H; [exact H|]. injection H. exact IH. Qed.

(** The 15th and the last day of a month are two dates. *)
Lemma semimonthly_distinct monthId :
  List.NoDup [ monthId ++ "-15"; dateInMonth monthId (daysInMonth (getMonthInfo monthId)) ].
Proof.
  constructor; [|constructor; [intros []|constructor]].
  intros [H|[]]. unfold dateInMonth in H.
  destruct (daysInMonth (getMonthInfo monthId)) as [D|] eqn:E.
  - apply daysInMonth_range in E.
    destruct (two_digits D ltac:(lia)) as [_ Hp].
    apply app_inv_head in H. change "-15" with ("-" ++ "15") in H.
    apply app_inv_head in H. rewrite H in Hp.
    change (parseInt "15") with (Some 15) in Hp. injection Hp as Hp. lia.
  - apply app_inv_head in H. change "-15" with ("-" ++ "15") in H.
    apply app_inv_head in H. change (padStart2 (toString None)) with "NaN" in H.
    discriminate.
Qed.

End ScheduleFacts.

(** ** Progressive taxation *)

Module WithholdingFacts.

Import PayrollTypes Withholding.
Local Open Scope Q_scope.

Lemma tax_step_adds income sum b :
  tax_step income sum b == sum + portion_in_bracket income b * rate b.
Proof.
  unfold tax_step, portion_in_bracket.
  set (t := Qmax 0 _).
  destruct (Qle_bool t 0) eqn:E; [|reflexivity].
  apply Qle_bool_iff in E.
  assert (Ht : t == 0) by (apply Qle_antisym; [exact E | apply Q.le_max_l]).
  rewrite Ht. ring.
Qed.

Lemma reduce_adds income bs : forall sum,
  fold_left (tax_step income) bs sum == sum + marginal_tax income bs.
Proof.
  induction bs as [|b bs IH]; intros sum; simpl.
  - ring.
  - rewrite IH. rewrite tax_step_adds. ring.
Qed.

Lemma portion_nonpositive_income income b :
  income <= 0 -> 0 <= lowerBound b -> portion_in_bracket income b == 0.
Proof.
  intros Hi Hl. unfold portion_in_bracket.
  apply Q.max_l.
  assert (min_with_upper income (upperBound b) <= income).
  { unfold min_with_upper. destruct (upperBound b); [apply Q.le_min_l | apply Qle_refl]. }
  lra.
Qed.

(** C1, the example as the specification computes it, refuted: for the
    brackets [{0,10000,0.10},{10000,null,0.20}] and a taxable income of
    15000 the annual tax is not 1500 (10000 x 0.10 + 5000 x 0.20 is 2000). *)
Lemma calculateAnnualTax_example_not_1500 :
  ~ calculateAnnualTax 15000 example_brackets == 1500.
Proof. vm_compute. discriminate. Qed.

(** C1, amended: [calculateAnnualTax] is marginal-bracket taxation.  For
    every bracket list and every taxable income that is positive (or, for
    an income of zero or less, whenever no bracket starts below zero) the
    tax is the sum over the brackets of the part of the income between the
    bracket's lower bound and min(upper bound or infinity, income), taxed
    at the bracket's rate.  For the example table and an income of 15000
    that is 10000 x 0.10 + 5000 x 0.20 = 2000, not the single-rate
    15000 x 0.20 = 3000. *)
Theorem calculateAnnualTax_marginal (income : Q) (bs : list TaxBracket) :
  0 < income \/ Forall (fun b => 0 <= lowerBound b) bs ->
  calculateAnnualTax income bs == marginal_tax income bs
  /\ calculateAnnualTax 15000 example_brackets == 2000
  /\ ~ calculateAnnualTax 15000 example_brackets == 3000.
Proof.
  intros H. split; [|split; vm_compute; [reflexivity | discriminate]].
  unfold calculateAnnualTax.
  destruct (Qle_bool income 0) eqn:E.
  - apply Qle_bool_iff in E.
    destruct H as [H|H]; [lra|].
    induction H as [|b bs Hb _ IH]; simpl; [reflexivity|].
    rewrite <- IH, (portion_nonpositive_income income b E Hb). ring.
  - change (fold_left (tax_step income) bs 0 == marginal_tax income bs).
    rewrite reduce_adds. ring.
Qed.

Lemma calculateAnnualTax_marginal_witness :
  calculateAnnualTax 15000 example_brackets == marginal_tax 15000 example_brackets
  /\ calculateAnnualTax 15000 example_brackets == 2000
  /\ ~ calculateAnnualTax 15000 example_brackets == 3000.
Proof.
  apply (calculateAnnualTax_marginal 15000 example_brackets).
  left. reflexivity.
Defined.

End WithholdingFacts.

(** ** Payroll engine: the 401(k) annual cap *)

Module PayrollFacts.

Import JS Calendar PayrollTypes Withholding Payroll SpecNotions.
Local Open Scope Q_scope.

Lemma cap_crossed (annualMax desired total : Q) :
  total <= annualMax -> annualMax < total + desired ->
  Qmin desired (Qmax 0 (annualMax - total)) == annualMax - total.
Proof.
  intros Hle Hlt. rewrite (Q.max_r 0) by lra. apply Q.min_r. lra.
Qed.

Lemma crossing_is_positive (annualMax desired total : Q) :
  total <= annualMax -> annualMax < total + desired -> 0 <= desired.
Proof. intros; lra. Qed.

(** The annual maximum: the employee maximum of the table, plus the
    catch-up amount when catch-up is enabled, the override if there is one
    and the amount of the table otherwise. *)
Lemma k401Max_value payrollSettings taxTables :
  k401Max payrollSettings taxTables
  = k401_employee_max (retirement taxTables)
    + (if catch_up_enabled (k401 payrollSettings)
       then default (k401_catch_up_max (retirement taxTables))
                    (catch_up_amount_override (k401 payrollSettings))
       else 0).
Proof.
  unfold k401Max. destruct (catch_up_enabled _); [|reflexivity].
  destruct (catch_up_amount_override _); reflexivity.
Qed.

Section Engine.

Variables (payPeriodsPerYear grossPerPaycheck : Q).
Variables (payrollSettings : PayrollSettings) (taxTables : TaxTableSet).
Variable stateWithholding : option StateTaxPlugin.

Let step := processEvent payPeriodsPerYear grossPerPaycheck payrollSettings taxTables
                         stateWithholding.
Let run := processEvents payPeriodsPerYear grossPerPaycheck payrollSettings taxTables
                         stateWithholding.

Lemma processEvents_cons acc event rest :
  run acc (event :: rest)
  = (snd (step acc event) :: fst (run (fst (step acc event)) rest),
     snd (run (fst (step acc event)) rest)).
Proof.
  unfold run, step; simpl.
  destruct (processEvent _ _ _ _ _ acc event) as [acc' result]; simpl.
  destruct (processEvents _ _ _ _ _ acc' rest); reflexivity.
Qed.

Lemma processEvents_app pre : forall acc post,
  run acc (pre ++ post)
  = (fst (run acc pre) ++ fst (run (snd (run acc pre)) post),
     snd (run (snd (run acc pre)) post)).
Proof.
  induction pre as [|e pre IH]; intros acc post.
  - simpl. destruct (run acc post); reflexivity.
  - change ((e :: pre) ++ post) with (e :: (pre ++ post)).
    rewrite !processEvents_cons, IH. reflexivity.
Qed.

(** The contribution of a regular event, and the total after it. *)
Lemma regular_contribution acc event :
  enabled (k401 payrollSettings) = true ->
  enforce_annual_max (k401 payrollSettings) = true ->
  ev_is_bonus event = false ->
  k401_contribution (snd (step acc event))
  = Qmin (desiredContribution (k401 payrollSettings) grossPerPaycheck)
         (Qmax 0 (k401Max payrollSettings taxTables - ytd_k401_contribution acc)).
Proof.
  intros He Hf Hb. unfold step, processEvent. rewrite He, Hf, Hb. simpl.
  destruct (include_fica _); reflexivity.
Qed.

Lemma bonus_contribution acc event :
  ev_is_bonus event = true -> k401_contribution (snd (step acc event)) = 0.
Proof.
  intros Hb. unfold step, processEvent. rewrite Hb, andb_false_r.
  destruct (ev_bonus_method event) as [[]|], (include_fica _); reflexivity.
Qed.

Lemma total_after acc event :
  ytd_k401_contribution (fst (step acc event))
  = ytd_k401_contribution acc + k401_contribution (snd (step acc event)).
Proof.
  unfold step, processEvent.
  destruct (ev_is_bonus event), (ev_bonus_method event) as [[]|], (include_fica _);
    reflexivity.
Qed.

(** Once the total has reached the annual maximum, nothing more is
    contributed. *)
Lemma capped_contributes_nothing events : forall acc,
  enabled (k401 payrollSettings) = true ->
  enforce_annual_max (k401 payrollSettings) = true ->
  0 <= desiredContribution (k401 payrollSettings) grossPerPaycheck ->
  ytd_k401_contribution acc == k401Max payrollSettings taxTables ->
  Forall (fun result => k401_contribution result == 0) (fst (run acc events)).
Proof.
  induction events as [|e events IH]; intros acc He Hf Hd Hacc.
  - constructor.
  - rewrite processEvents_cons. simpl.
    assert (Hz : k401_contribution (snd (step acc e)) == 0).
    { destruct (ev_is_bonus e) eqn:Hb.
      - rewrite bonus_contribution by exact Hb. reflexivity.
      - rewrite regular_contribution by assumption.
        rewrite (Q.max_l 0) by lra. apply Q.min_r. exact Hd. }
    constructor; [exact Hz|].
    apply IH; try assumption.
    rewrite total_after, Hz, Hacc. ring.
Qed.

Lemma processEvents_length events : forall acc,
  length (fst (run acc events)) = length events.
Proof.
  induction events as [|e events IH]; intros acc; [reflexivity|].
  rewrite processEvents_cons. simpl. rewrite IH. reflexivity.
Qed.

(** The running total is what the paychecks so far have contributed. *)
Lemma total_is_sum events : forall acc,
  ytd_k401_contribution (snd (run acc events))
  == ytd_k401_contribution acc + total_contributed (fst (run acc events)).
Proof.
  induction events as [|e events IH]; intros acc.
  - simpl. ring.
  - rewrite processEvents_cons. simpl. rewrite IH, total_after. ring.
Qed.

End Engine.

(** C4: with the 401(k) enabled and the annual maximum enforced, the
    paycheck of every regular event of the year to date contributes
    min(desired, max(0, annualMax - ytd401k)), where ytd401k is the sum of
    the contributions of the paychecks before it and annualMax is the
    table's employee maximum plus the catch-up amount ([k401Max]).  So the
    paycheck at which the cap is crossed contributes annualMax minus what
    was contributed before it, and every later paycheck contributes 0. *)
Theorem k401_annual_cap
        (monthId : string) (schedule : PayCycle) (anchorDate : string)
        (payrollSettings : PayrollSettings) (taxTables : TaxTableSet)
        (stateWithholding : option StateTaxPlugin)
        (pre post : list PayrollEvent) (event : PayrollEvent) :
  let desired :=
    desiredContribution (k401 payrollSettings)
      (salary_annual payrollSettings / getPayPeriodsPerYear schedule) in
  let annualMax := k401Max payrollSettings taxTables in
  buildPayrollEvents monthId schedule anchorDate (bonus_events payrollSettings)
  = pre ++ event :: post ->
  enabled (k401 payrollSettings) = true ->
  enforce_annual_max (k401 payrollSettings) = true ->
  ev_is_bonus event = false ->
  exists earlier paycheck later,
    paychecksToDate monthId schedule anchorDate payrollSettings taxTables stateWithholding
    = earlier ++ paycheck :: later
    /\ length earlier = length pre
    /\ id paycheck = ev_id event
    /\ k401_contribution paycheck
       == Qmin desired (Qmax 0 (annualMax - total_contributed earlier))
    /\ (total_contributed earlier <= annualMax ->
        annualMax < total_contributed earlier + desired ->
        k401_contribution paycheck == annualMax - total_contributed earlier
        /\ Forall (fun result => k401_contribution result == 0) later).
Proof.
  intros desired annualMax Hev He Hf Hb.
  unfold paychecksToDate. rewrite Hev.
  set (ppy := getPayPeriodsPerYear schedule).
  set (gpp := salary_annual payrollSettings / ppy).
  rewrite processEvents_app, processEvents_cons. cbn [fst snd].
  set (run := processEvents ppy gpp payrollSettings taxTables stateWithholding).
  set (step := processEvent ppy gpp payrollSettings taxTables stateWithholding).
  set (before := snd (run ytd_start pre)).
  exists (fst (run ytd_start pre)), (snd (step before event)),
    (fst (run (fst (step before event)) post)).
  assert (Hsum : ytd_k401_contribution before == total_contributed (fst (run ytd_start pre))).
  { unfold before, run. rewrite total_is_sum. simpl. ring. }
  assert (Hc : k401_contribution (snd (step before event))
               == Qmin desired
                       (Qmax 0 (annualMax - total_contributed (fst (run ytd_start pre))))).
  { unfold step. rewrite regular_contribution by assumption.
    fold gpp desired annualMax. rewrite Hsum. reflexivity. }
  split; [reflexivity|].
  split; [apply processEvents_length|].
  split; [unfold step, processEvent; destruct (ev_is_bonus event),
            (ev_bonus_method event) as [[]|], (include_fica _); reflexivity|].
  split; [exact Hc|].
  intros Hle Hlt.
  assert (Hv : k401_contribution (snd (step before event))
               == annualMax - total_contributed (fst (run ytd_start pre))).
  { rewrite Hc. apply cap_crossed; assumption. }
  split; [exact Hv|].
  apply capped_contributes_nothing; try assumption.
  - fold gpp desired. apply (crossing_is_positive annualMax _ _ Hle Hlt).
  - unfold step. rewrite total_after. fold step. rewrite Hv, Hsum.
    fold annualMax. ring.
Qed.

(** The theorem at work: monthly pay of 10000 from January to April 2024,
    5000 desired per paycheck, a maximum of 12000; the cap is crossed at
    the March paycheck. *)
Lemma k401_annual_cap_witness :
  exists earlier paycheck later,
    paychecksToDate "2024-04" monthly "2024-01-15" (sample_settings []) sample_tables None
    = earlier ++ paycheck :: later
    /\ length earlier = 2%nat
    /\ id paycheck = "regular:2024-03-15"%string
    /\ k401_contribution paycheck
       == Qmin (desiredContribution (k401 (sample_settings [])) (120000 / 12))
               (Qmax 0 (12000 - total_contributed earlier))
    /\ (total_contributed earlier <= 12000 ->
        12000 < total_contributed earlier
                + desiredContribution (k401 (sample_settings [])) (120000 / 12) ->
        k401_contribution paycheck == 12000 - total_contributed earlier
        /\ Forall (fun result => k401_contribution result == 0) later).
Proof.
  apply (k401_annual_cap "2024-04" monthly "2024-01-15" (sample_settings []) sample_tables
           None
           [regularEvent "2024-01-15"; regularEvent "2024-02-15"]
           [regularEvent "2024-04-15"]
           (regularEvent "2024-03-15")).
  - vm_compute. reflexivity.
  - reflexivity.
  - reflexivity.
  - reflexivity.
Defined.

Example k401_contributions_of_the_sample :
  map (fun paycheck => Qred (k401_contribution paycheck))
      (paychecksToDate "2024-04" monthly "2024-01-15" (sample_settings []) sample_tables None)
  = [5000; 5000; 2000; 0].
Proof. vm_compute. reflexivity. Qed.

End PayrollFacts.

(** ** Payroll engine: the events of the year to date *)

Module PayrollEventsFacts.

Import JS Calendar PayrollTypes Withholding Payroll SpecNotions.
Local Open Scope string_scope.

(** Only paychecks dated in [monthId] are returned. *)
Lemma calculatePayrollForMonth_in_month monthId schedule anchorDate payrollSettings
      taxTables stateWithholding :
  Forall (fun paycheck => startsWith (date paycheck) monthId = true)
         (calculatePayrollForMonth monthId schedule anchorDate payrollSettings taxTables
                                   stateWithholding).
Proof.
  unfold calculatePayrollForMonth. apply List.Forall_forall.
  intros paycheck Hin. apply List.filter_In in Hin. tauto.
Qed.

(** C5, the code at the failing input: the settings hold a bonus of 1000
    paid on 2023-12-15 and the payroll of March 2024 is asked for.  The
    bonus is among the events processed, before the January paycheck, and
    the year-to-date gross of the March paycheck is 31000 instead of
    the 30000 of three monthly paychecks of 10000. *)
Theorem bonus_of_an_earlier_year_is_processed :
  let settings :=
    sample_settings [ mkBonusEvent "b1" "2023-12-15" 1000 supplemental_flat None ] in
  map ev_date (buildPayrollEvents "2024-03" monthly "2024-01-15" (bonus_events settings))
  = [ "2023-12-15"; "2024-01-15"; "2024-02-15"; "2024-03-15" ]
  /\ map (fun paycheck => (date paycheck, Qred (ytd_gross (ytd paycheck))))
         (calculatePayrollForMonth "2024-03" monthly "2024-01-15" settings sample_tables None)
     = [ ("2024-03-15", 31000%Q) ].
Proof. vm_compute. split; reflexivity. Qed.

End PayrollEventsFacts.

(** ** Forecast simulator *)

Module ForecastFacts.

Import JS Calendar Types Forecasting SpecNotions.
Local Open Scope Q_scope.

Lemma fold_left_balances (m : gmap string Q) (l : list Account) : forall s,
  fold_left (fun sum acc => sum + balanceOrZero m (acc_id acc)) l s
  == s + sum_balances m l.
Proof.
  induction l as [|acc l IH]; intros s; simpl; [ring|].
  rewrite IH. ring.
Qed.

Lemma cashAccountsTotal_sum accounts (m : gmap string Q) :
  cashAccountsTotal accounts m == sum_balances m (List.filter cashEligible accounts).
Proof. unfold cashAccountsTotal. rewrite fold_left_balances. ring. Qed.

Lemma adjust_lookup_same (m : gmap string Q) id delta v :
  m !! id = Some v -> adjust m id delta !! id = Some (v + delta).
Proof. intros H. unfold adjust. rewrite H. apply lookup_insert_eq. Qed.

Lemma adjust_lookup_other (m : gmap string Q) id id' delta :
  id <> id' -> adjust m id delta !! id' = m !! id'.
Proof.
  intros H. unfold adjust. destruct (m !! id); [|reflexivity].
  apply lookup_insert_ne. exact H.
Qed.

(** A sum over accounts that do not have the adjusted identifier. *)
Lemma sum_balances_untouched (m : gmap string Q) id delta l :
  ~ In id (map acc_id l) ->
  sum_balances (adjust m id delta) l = sum_balances m l.
Proof.
  induction l as [|acc l IH]; intros Hn; simpl; [reflexivity|].
  simpl in Hn. rewrite IH by tauto.
  unfold balanceOrZero.
  rewrite adjust_lookup_other by (intros E; apply Hn; left; congruence).
  reflexivity.
Qed.

(** A sum over accounts with distinct identifiers, one of which is
    adjusted. *)
Lemma sum_balances_adjusted (m : gmap string Q) id delta v l :
  m !! id = Some v ->
  List.NoDup (map acc_id l) -> In id (map acc_id l) ->
  sum_balances (adjust m id delta) l == sum_balances m l + delta.
Proof.
  intros Hm. induction l as [|acc l IH]; intros Hnd Hin; simpl in *; [tauto|].
  inversion Hnd as [|? ? Hnotin Hnd']; subst.
  destruct (String.eqb_spec (acc_id acc) id) as [Heq|Hne].
  - rewrite Heq in *. rewrite sum_balances_untouched by exact Hnotin.
    unfold balanceOrZero. rewrite (adjust_lookup_same m id delta v Hm), Hm. simpl. ring.
  - destruct Hin as [Hin|Hin]; [congruence|].
    rewrite (IH Hnd' Hin).
    unfold balanceOrZero. rewrite adjust_lookup_other by congruence. ring.
Qed.

Lemma NoDup_ids_filter (p : Account -> bool) l :
  List.NoDup (map acc_id l) -> List.NoDup (map acc_id (List.filter p l)).
Proof.
  induction l as [|acc l IH]; intros Hnd; simpl; [constructor|].
  inversion Hnd as [|? ? Hnotin Hnd']; subst.
  destruct (p acc); simpl; [|auto].
  constructor; [|auto].
  intros Hin. apply Hnotin.
  apply List.in_map_iff in Hin. destruct Hin as (a & Ha & Hin).
  apply List.filter_In in Hin. apply List.in_map_iff. exists a. tauto.
Qed.

Lemma eligible_in_filter accA accounts :
  In accA accounts -> cashEligible accA = true ->
  In (acc_id accA) (map acc_id (List.filter cashEligible accounts)).
Proof.
  intros Hin He. apply List.in_map. apply List.filter_In. tauto.
Qed.

Lemma transfer_applied tx toId :
  tx_transfer_account_id tx = Some toId -> toId <> ""%string ->
  forall m, applyTransaction m tx
            = adjust (adjust m (tx_account_id tx) (- Qabs (tx_amount tx)))
                     toId (Qabs (tx_amount tx)).
Proof.
  intros Ht Hne m. unfold applyTransaction, is_transfer. rewrite Ht. simpl.
  destruct toId; [congruence|]. simpl. rewrite orb_true_r. reflexivity.
Qed.

(** One transfer applied to balances: the balance of the account it is
    taken from goes down by the absolute amount, the balance of the account
    it is given to goes up by it, and the cash total of accounts with
    distinct identifiers stays when both accounts are cash-eligible. *)
Lemma transfer_step
        (accounts : list Account) (currentBalances : gmap string Q) (tx : Transaction)
        (accA accB : Account) (a b : Q) :
  tx_account_id tx = acc_id accA ->
  tx_transfer_account_id tx = Some (acc_id accB) ->
  acc_id accB <> ""%string ->
  acc_id accA <> acc_id accB ->
  In accA accounts -> In accB accounts ->
  List.NoDup (map acc_id accounts) ->
  currentBalances !! acc_id accA = Some a ->
  currentBalances !! acc_id accB = Some b ->
  let after := applyTransaction currentBalances tx in
  after !! acc_id accA = Some (a + - Qabs (tx_amount tx))
  /\ after !! acc_id accB = Some (b + Qabs (tx_amount tx))
  /\ (forall id, id <> acc_id accA -> id <> acc_id accB ->
                 after !! id = currentBalances !! id)
  /\ (cashEligible accA = true -> cashEligible accB = true ->
      cashAccountsTotal accounts after == cashAccountsTotal accounts currentBalances).
Proof.
  intros Hfrom Hto Hne Hab HinA HinB Hnd Ha Hb after.
  unfold after. rewrite (transfer_applied tx _ Hto Hne), Hfrom.
  set (x := Qabs (tx_amount tx)).
  assert (Hb' : adjust currentBalances (acc_id accA) (- x) !! acc_id accB = Some b).
  { rewrite adjust_lookup_other by exact Hab. exact Hb. }
  split; [|split; [|split]].
  - rewrite adjust_lookup_other by congruence. apply adjust_lookup_same. exact Ha.
  - apply adjust_lookup_same. exact Hb'.
  - intros id HA HB. rewrite !adjust_lookup_other by congruence. reflexivity.
  - intros HeA HeB. rewrite !cashAccountsTotal_sum.
    pose proof (NoDup_ids_filter cashEligible accounts Hnd) as Hnd'.
    rewrite (sum_balances_adjusted _ _ x b _ Hb' Hnd' (eligible_in_filter _ _ HinB HeB)).
    rewrite (sum_balances_adjusted _ _ (- x) a _ Ha Hnd' (eligible_in_filter _ _ HinA HeA)).
    ring.
Qed.

Example transfer_of_the_sample :
  cashAccountsTotal [sample_checking; sample_savings] sample_balances == 1500
  /\ cashAccountsTotal [sample_checking; sample_savings]
                       (applyTransaction sample_balances sample_transfer) == 1500.
Proof. vm_compute. split; reflexivity. Qed.

(** The balances of the forecast are those of the snapshot's accounts. *)
Lemma initialBalances_accounts accounts starting id :
  is_Some (initialBalances accounts starting !! id) <-> In id (map acc_id accounts).
Proof.
  unfold initialBalances.
  set (f := fun (m : gmap string Q) acc => <[acc_id acc := _]> m).
  assert (H : forall l (m : gmap string Q),
             is_Some (fold_left f l m !! id)
             <-> In id (map acc_id l) \/ is_Some (m !! id)).
  { induction l as [|acc l IH]; intros m; simpl; [tauto|].
    rewrite IH. unfold f.
    destruct (String.eqb_spec (acc_id acc) id) as [->|Hne].
    - rewrite lookup_insert_eq. split; [tauto|]. intros _. right. eauto.
    - rewrite lookup_insert_ne by exact Hne. tauto. }
  rewrite H, lookup_empty. split; [intros [?|[? ?]]; [assumption|discriminate]|tauto].
Qed.

Lemma applyTransaction_accounts (m : gmap string Q) tx id :
  is_Some (applyTransaction m tx !! id) <-> is_Some (m !! id).
Proof.
  assert (H : forall (m : gmap string Q) k d, is_Some (adjust m k d !! id) <-> is_Some (m !! id)).
  { intros m' k d. unfold adjust. destruct (m' !! k) eqn:E; [|tauto].
    destruct (String.eqb_spec k id) as [->|Hne].
    - rewrite lookup_insert_eq, E. split; eauto.
    - rewrite lookup_insert_ne by exact Hne. tauto. }
  unfold applyTransaction. destruct (is_transfer tx); rewrite ?H; tauto.
Qed.

(** At every point of the loop over the days the balances are those of the
    accounts of the snapshot, whatever transactions were applied. *)
Lemma balances_of_accounts accounts starting txs id :
  is_Some (fold_left applyTransaction txs (initialBalances accounts starting) !! id)
  <-> In id (map acc_id accounts).
Proof.
  rewrite <- (initialBalances_accounts accounts starting id).
  generalize (initialBalances accounts starting). induction txs as [|tx txs IH]; intros m.
  - reflexivity.
  - simpl. rewrite IH. apply applyTransaction_accounts.
Qed.

(** C9, the code at the failing input: a loan account whose
    [included_in_cash_forecast] flag is set passes [normalizeAccounts]
    unchanged and its balance is the [total_cash] of every point of the
    month, -5000 here, where the claim has it left out (a total of 0). *)
Theorem loan_account_counts_in_total_cash :
  Settings.normalizeAccounts [sample_loan] = [sample_loan]
  /\ cashEligible sample_loan = true
  /\ map (fun point => Qred (total_cash point)) (calculateForecast sample_loan_month)
     = repeat (- (5000)) 31.
Proof. vm_compute. repeat split; reflexivity. Qed.

End ForecastFacts.

(** ** Reasoning about computations that read the world *)

Module EffectsFacts.

Import Effects SpecNotions.

Lemma holds_ret {A} (P : A -> Prop) a : P a -> holds P (ret a).
Proof. intros H w. exact H. Qed.

Lemma holds_bind {A B} (P : A -> Prop) (Q : B -> Prop) (m : Gen A) (k : A -> Gen B) :
  holds P m -> (forall a, P a -> holds Q (k a)) -> holds Q (bind m k).
Proof.
  intros Hm Hk w. unfold bind. specialize (Hm w).
  destruct (m w) as [a w']. apply Hk. exact Hm.
Qed.

Lemma holds_weaken {A} (P Q : A -> Prop) (m : Gen A) :
  holds P m -> (forall a, P a -> Q a) -> holds Q m.
Proof. intros Hm H w. apply H, Hm. Qed.

Lemma holds_any {A} (m : Gen A) : holds (fun _ => True) m.
Proof. intros w. exact I. Qed.

Lemma holds_mapM_all {A B} (P : B -> Prop) (f : A -> Gen B) :
  (forall x, holds P (f x)) -> forall l, holds (Forall P) (mapM f l).
Proof.
  intros Hf. induction l as [|x l IH]; simpl.
  - apply holds_ret. constructor.
  - eapply holds_bind; [apply Hf|]. intros y Hy.
    eapply holds_bind; [apply IH|]. intros ys Hys.
    apply holds_ret. constructor; assumption.
Qed.

Lemma holds_flatMapM_all {A B} (P : B -> Prop) (f : A -> Gen (list B)) :
  (forall x, holds (Forall P) (f x)) -> forall l, holds (Forall P) (flatMapM f l).
Proof.
  intros Hf. induction l as [|x l IH]; simpl.
  - apply holds_ret. constructor.
  - eapply holds_bind; [apply Hf|]. intros y Hy.
    eapply holds_bind; [apply IH|]. intros ys Hys.
    apply holds_ret. apply Forall_app. split; assumption.
Qed.

Lemma agree_ret {A B} (R : A -> B -> Prop) a b : R a b -> agree R (ret a) (ret b).
Proof. intros H w1 w2. exact H. Qed.

Lemma agree_bind {A A' B B'} (R : A -> A' -> Prop) (S : B -> B' -> Prop)
      (m : Gen A) (m' : Gen A') (k : A -> Gen B) (k' : A' -> Gen B') :
  agree R m m' -> (forall a a', R a a' -> agree S (k a) (k' a')) ->
  agree S (bind m k) (bind m' k').
Proof.
  intros Hm Hk w1 w2. unfold bind. specialize (Hm w1 w2).
  destruct (m w1) as [a w1'], (m' w2) as [a' w2']. apply Hk. exact Hm.
Qed.

Lemma agree_any {A B} (m : Gen A) (m' : Gen B) : agree (fun _ _ => True) m m'.
Proof. intros w1 w2. exact I. Qed.

Lemma agree_mapM {A A' B B'} (RA : A -> A' -> Prop) (RB : B -> B' -> Prop)
      (f : A -> Gen B) (f' : A' -> Gen B') :
  (forall x x', RA x x' -> agree RB (f x) (f' x')) ->
  forall l l', Forall2 RA l l' -> agree (Forall2 RB) (mapM f l) (mapM f' l').
Proof.
  intros Hf l l' Hl. induction Hl as [|x x' l l' Hx Hl IH]; simpl.
  - apply agree_ret. constructor.
  - eapply agree_bind; [apply Hf; exact Hx|]. intros y y' Hy.
    eapply agree_bind; [apply IH|]. intros ys ys' Hys.
    apply agree_ret. constructor; assumption.
Qed.

Lemma agree_flatMapM {A A' B B'} (RA : A -> A' -> Prop) (RB : B -> B' -> Prop)
      (f : A -> Gen (list B)) (f' : A' -> Gen (list B')) :
  (forall x x', RA x x' -> agree (Forall2 RB) (f x) (f' x')) ->
  forall l l', Forall2 RA l l' -> agree (Forall2 RB) (flatMapM f l) (flatMapM f' l').
Proof.
  intros Hf l l' Hl. induction Hl as [|x x' l l' Hx Hl IH]; simpl.
  - apply agree_ret. constructor.
  - eapply agree_bind; [apply Hf; exact Hx|]. intros y y' Hy.
    eapply agree_bind; [apply IH|]. intros ys ys' Hys.
    apply agree_ret. apply Forall2_app; assumption.
Qed.

Lemma flatMapM_contains {A B} (f : A -> Gen (list B)) l x w :
  In x l -> exists w', incl (fst (f x w')) (fst (flatMapM f l w)).
Proof.
  revert w. induction l as [|y l IH]; intros w Hin; [destruct Hin|].
  simpl. unfold bind. destruct (f y w) as [ys w'] eqn:E.
  specialize (IH w').
  destruct (flatMapM f l w') as [zs w'']. simpl in *.
  destruct Hin as [->|Hin].
  - exists w. rewrite E. simpl. apply incl_appl, incl_refl.
  - destruct (IH Hin) as (w1 & Hw1). exists w1. apply incl_appr. exact Hw1.
Qed.

End EffectsFacts.

(** ** Transaction generator: what a run leaves alone *)

Module GenerationFacts.

Import JS Calendar Types Effects Generation SpecNotions EffectsFacts.
Local Open Scope string_scope.

Lemma splitTransaction_generated entry monthSetup createdAt batch account amount :
  holds is_generated (splitTransaction entry monthSetup createdAt batch account amount).
Proof.
  intros w. simpl. split; [reflexivity|].
  eexists. split; [reflexivity|].
  unfold paycheckKind. destruct (truthy_flag _); discriminate.
Qed.

Lemma buildPaycheckSplitTransactions_generated entry splits monthSetup createdAt batch :
  holds (Forall is_generated)
        (buildPaycheckSplitTransactions entry splits monthSetup createdAt batch).
Proof.
  unfold buildPaycheckSplitTransactions.
  destruct (negb _); [apply holds_ret; constructor|].
  destruct (eligibleSplits splits) as [|s0 rest]; [apply holds_ret; constructor|].
  eapply holds_bind.
  - apply holds_mapM_all. intros split. apply splitTransaction_generated.
  - intros tx Htx. destruct (find _ _) as [remainder|]; [|apply holds_ret; exact Htx].
    destruct (nonzero _); [|apply holds_ret; exact Htx].
    eapply holds_bind; [apply splitTransaction_generated|].
    intros last Hlast. apply holds_ret. apply Forall_app. split; [exact Htx|].
    constructor; [exact Hlast|constructor].
Qed.

Lemma recurringTransactions_generated monthId overrides createdAt batch item :
  holds (Forall is_generated)
        (recurringTransactions monthId overrides createdAt batch item).
Proof.
  unfold recurringTransactions. apply holds_mapM_all.
  intros date w. simpl. split; [reflexivity|].
  eexists. split; [reflexivity|discriminate].
Qed.

Lemma oneOffTransaction_generated createdAt batch adj :
  holds is_generated (oneOffTransaction createdAt batch adj).
Proof.
  intros w. simpl. split; [reflexivity|].
  eexists. split; [reflexivity|discriminate].
Qed.

Lemma generateAll_generated monthId monthSetup recurringItems createdAt batch :
  holds (fun generation => Forall is_generated (snd generation))
        (generateAll monthId monthSetup recurringItems createdAt batch).
Proof.
  unfold generateAll.
  eapply holds_bind; [apply holds_any|]. intros estimates _.
  eapply holds_bind.
  { apply holds_flatMapM_all. intros entry.
    apply buildPaycheckSplitTransactions_generated. }
  intros paycheckTx Hp.
  eapply holds_bind.
  { apply holds_flatMapM_all. intros item. apply recurringTransactions_generated. }
  intros recurringTx Hr.
  eapply holds_bind.
  { apply holds_mapM_all. intros adj. apply oneOffTransaction_generated. }
  intros oneOffTx Ho.
  apply holds_ret. simpl. rewrite !Forall_app. tauto.
Qed.

(** The transactions of a run are those of [mergeByMode] for generated
    transactions that depend on neither the mode nor the existing
    transactions. *)
Lemma generateMonthTransactions_merge monthId monthSetup recurringItems w :
  exists generatedTransactions,
    Forall is_generated generatedTransactions
    /\ forall existing mode,
        result_transactions
          (fst (generateMonthTransactions monthId monthSetup recurringItems existing mode w))
        = mergeByMode mode existing generatedTransactions.
Proof.
  unfold generateMonthTransactions, bind.
  destruct (randomUUID w) as [batch w1].
  destruct (Date_now w1) as [createdAt w2].
  pose proof (generateAll_generated monthId monthSetup recurringItems createdAt batch w2) as H.
  destruct (generateAll _ _ _ _ _ w2) as [generation w3].
  destruct (Date_now w3) as [now w4]. simpl.
  exists (snd generation). split; [exact H|reflexivity].
Qed.

Lemma existingIds_has existing e key :
  In e existing -> tx_source_item_id e = Some key -> key <> "" ->
  key ∈ existingIds existing.
Proof.
  intros Hin He Hne. unfold existingIds.
  apply elem_of_list_to_set. apply list_elem_of_omap.
  exists e. split; [apply list_elem_of_In; exact Hin|].
  rewrite He. destruct key; [congruence|reflexivity].
Qed.

(** C3: in [missing] mode the result is the existing transactions,
    unchanged and in their order, followed by generated transactions whose
    [source_item_id] no existing transaction has; in [regenerate] mode it
    is the existing transactions whose source is not [generated],
    unchanged and in their order, followed by generated transactions.  So
    neither mode removes or alters a manual transaction. *)
Theorem generation_keeps_manual_transactions
        (monthId : string) (monthSetup : MonthSetup) (recurringItems : list RecurringItem)
        (existingTransactions : list Transaction) (w : World) :
  (exists added,
      result_transactions
        (fst (generateMonthTransactions monthId monthSetup recurringItems
                                        existingTransactions missing w))
      = existingTransactions ++ added
      /\ Forall (fun tx => tx_source tx = Some generated
                           /\ forall e, In e existingTransactions ->
                                        tx_source_item_id e <> tx_source_item_id tx)
                added)%list
  /\ (exists fresh,
         result_transactions
           (fst (generateMonthTransactions monthId monthSetup recurringItems
                                           existingTransactions regenerate w))
         = List.filter not_generated existingTransactions ++ fresh
         /\ Forall (fun tx => tx_source tx = Some generated) fresh
         /\ forall tx, In tx existingTransactions -> tx_source tx <> Some generated ->
                       In tx (List.filter not_generated existingTransactions))%list.
Proof.
  split.
  - destruct (generateMonthTransactions_merge monthId monthSetup recurringItems w)
      as (gen & Hgen & ->).
    simpl. eexists. split; [reflexivity|].
    apply List.Forall_forall. intros tx Hin.
    apply List.filter_In in Hin. destruct Hin as [Hin Hnew].
    rewrite List.Forall_forall in Hgen.
    destruct (Hgen tx Hin) as (Hsrc & key & Hkey & Hne).
    split; [exact Hsrc|]. intros e He Heq.
    rewrite Hkey in Heq, Hnew. simpl in Hnew.
    apply negb_true_iff, bool_decide_eq_false in Hnew. apply Hnew.
    eapply existingIds_has; eassumption.
  - destruct (generateMonthTransactions_merge monthId monthSetup recurringItems w)
      as (gen & Hgen & ->).
    simpl. exists gen. split; [reflexivity|]. split.
    + eapply List.Forall_impl; [|exact Hgen]. intros tx [H _]. exact H.
    + intros tx Hin Hsrc. apply List.filter_In. split; [exact Hin|].
      unfold not_generated. destruct (tx_source tx) as [[]|]; congruence.
Qed.

End GenerationFacts.

(** ** Transaction generator: regeneration is repeatable *)

Module RegenerationFacts.

Import JS Calendar Types Effects Generation SpecNotions EffectsFacts GenerationFacts.
Local Open Scope string_scope.

Lemma Forall2_same_refl {A} (R : A -> A -> Prop) (l : list A) :
  (forall x, R x x) -> Forall2 R l l.
Proof. intros H. induction l; constructor; auto. Qed.

Lemma Forall2_filter_agree {A B} (R : A -> B -> Prop) (p : A -> bool) (q : B -> bool) l l' :
  (forall x y, R x y -> p x = q y) ->
  Forall2 R l l' -> Forall2 R (List.filter p l) (List.filter q l').
Proof.
  intros Hpq H. induction H as [|x y l l' Hxy Hl IH]; simpl; [constructor|].
  rewrite (Hpq x y Hxy). destruct (q y); [constructor|]; assumption.
Qed.

Lemma same_tx_views l l' :
  Forall2 same_tx l l' -> map anonymous l = map anonymous l' /\ map tx_view l = map tx_view l'.
Proof.
  induction 1 as [|x y l l' Hxy Hl [IH1 IH2]]; simpl; [split; reflexivity|].
  rewrite IH1, IH2. unfold same_tx in Hxy. rewrite Hxy. split; [reflexivity|].
  f_equal. unfold tx_view.
  change (tx_date x) with (tx_date (anonymous x)).
  change (tx_amount x) with (tx_amount (anonymous x)).
  change (tx_account_id x) with (tx_account_id (anonymous x)).
  change (tx_source_item_id x) with (tx_source_item_id (anonymous x)).
  rewrite Hxy. reflexivity.
Qed.

Lemma same_entry_key e e' : same_entry e e' -> buildKey e = buildKey e'.
Proof. intros (Hd & _ & Hb & _). unfold buildKey. rewrite Hd, Hb. reflexivity. Qed.

Lemma splitTransaction_agree entry entry' monthSetup createdAt createdAt' batch batch'
      account amount :
  same_entry entry entry' ->
  agree same_tx
        (splitTransaction entry monthSetup createdAt batch account amount)
        (splitTransaction entry' monthSetup createdAt' batch' account amount).
Proof.
  intros (Hd & Ha & Hb & Hs) w1 w2. simpl. unfold same_tx, anonymous. simpl.
  unfold paycheckDescription. rewrite Hd, Hb, Hs. reflexivity.
Qed.

Lemma buildPaycheckSplitTransactions_agree entry entry' splits monthSetup
      createdAt createdAt' batch batch' :
  same_entry entry entry' ->
  agree (Forall2 same_tx)
        (buildPaycheckSplitTransactions entry splits monthSetup createdAt batch)
        (buildPaycheckSplitTransactions entry' splits monthSetup createdAt' batch').
Proof.
  intros He. unfold buildPaycheckSplitTransactions.
  destruct (negb _); [apply agree_ret; constructor|].
  destruct (eligibleSplits splits) as [|s0 rest]; [apply agree_ret; constructor|].
  eapply agree_bind.
  - apply (agree_mapM eq same_tx).
    + intros split ? <-. apply splitTransaction_agree. exact He.
    + apply Forall2_same_refl. reflexivity.
  - intros tx tx' Htx.
    destruct He as (Hd & Ha & Hb & Hs). rewrite <- Ha.
    destruct (find _ _) as [remainder|]; [|apply agree_ret; exact Htx].
    destruct (nonzero _); [|apply agree_ret; exact Htx].
    eapply agree_bind.
    + apply splitTransaction_agree. repeat split; assumption.
    + intros last last' Hlast. apply agree_ret.
      apply Forall2_app; [exact Htx|]. constructor; [exact Hlast|constructor].
Qed.

Lemma estimateEntries_agree monthSetup paycheckDates :
  agree (Forall2 same_entry)
        (estimateEntries monthSetup paycheckDates) (estimateEntries monthSetup paycheckDates).
Proof.
  unfold estimateEntries.
  assert (Hfresh :
    agree (Forall2 same_entry)
          (mapM (fun date => bind randomUUID (fun id =>
                   ret {| entry_id := id; entry_date := date;
                          entry_amount := paycheck_default_amount monthSetup;
                          entry_is_bonus := Some false; entry_description := None |}))
                paycheckDates)
          (mapM (fun date => bind randomUUID (fun id =>
                   ret {| entry_id := id; entry_date := date;
                          entry_amount := paycheck_default_amount monthSetup;
                          entry_is_bonus := Some false; entry_description := None |}))
                paycheckDates)).
  { apply (agree_mapM eq same_entry).
    - intros date ? <- w1 w2. simpl. repeat split.
    - apply Forall2_same_refl. reflexivity. }
  destruct (paycheck_estimates monthSetup) as [[|e es]|]; try exact Hfresh.
  apply agree_ret. apply Forall2_same_refl. intros x. repeat split.
Qed.

Lemma resolveEntries_agree monthSetup l l' :
  Forall2 same_entry l l' ->
  Forall2 same_entry (resolveEntries monthSetup l) (resolveEntries monthSetup l').
Proof.
  intros H. unfold resolveEntries. apply Forall2_app.
  - induction H as [|e e' l l' He Hl IH]; simpl; [constructor|].
    constructor; [|exact IH].
    rewrite <- (same_entry_key e e' He).
    destruct (_ !! buildKey e) as [override|]; [|exact He].
    destruct He as (Hd & Ha & Hb & Hs). unfold same_entry, spreadOver. simpl.
    rewrite Hb, Hs. repeat split.
  - assert (Hkeys : forall entry,
               existsb (fun e => String.eqb (buildKey e) (buildKey entry)) l
               = existsb (fun e => String.eqb (buildKey e) (buildKey entry)) l').
    { intros entry. induction H as [|e e' l l' He Hl IH]; simpl; [reflexivity|].
      rewrite IH, (same_entry_key e e' He). reflexivity. }
    erewrite List.filter_ext; [|intros entry; rewrite Hkeys; reflexivity].
    apply Forall2_same_refl. intros x. repeat split.
Qed.

Lemma recurringTransactions_agree monthId overrides createdAt createdAt' batch batch' item :
  agree (Forall2 same_tx)
        (recurringTransactions monthId overrides createdAt batch item)
        (recurringTransactions monthId overrides createdAt' batch' item).
Proof.
  unfold recurringTransactions. apply (agree_mapM eq same_tx).
  - intros date ? <- w1 w2. reflexivity.
  - apply Forall2_same_refl. reflexivity.
Qed.

Lemma generateAll_agree monthId monthSetup recurringItems createdAt createdAt' batch batch' :
  agree (fun generation generation' => Forall2 same_tx (snd generation) (snd generation'))
        (generateAll monthId monthSetup recurringItems createdAt batch)
        (generateAll monthId monthSetup recurringItems createdAt' batch').
Proof.
  unfold generateAll.
  eapply agree_bind; [apply estimateEntries_agree|]. intros estimates estimates' He.
  eapply agree_bind.
  { apply (agree_flatMapM same_entry same_tx).
    - intros entry entry' Hentry. apply buildPaycheckSplitTransactions_agree. exact Hentry.
    - apply Forall2_filter_agree.
      + intros x y (_ & Ha & _). rewrite Ha. reflexivity.
      + apply resolveEntries_agree. exact He. }
  intros paycheckTx paycheckTx' Hp.
  eapply agree_bind.
  { apply (agree_flatMapM eq same_tx).
    - intros item ? <-. apply recurringTransactions_agree.
    - apply Forall2_same_refl. reflexivity. }
  intros recurringTx recurringTx' Hr.
  eapply agree_bind.
  { apply (agree_mapM eq same_tx).
    - intros adj ? <- w1 w2. reflexivity.
    - apply Forall2_same_refl. reflexivity. }
  intros oneOffTx oneOffTx' Ho.
  apply agree_ret. simpl. repeat apply Forall2_app; assumption.
Qed.

Lemma generateMonthTransactions_agree monthId monthSetup recurringItems existing mode :
  agree (fun result result' =>
           Forall2 same_tx (result_transactions result) (result_transactions result'))
        (generateMonthTransactions monthId monthSetup recurringItems existing mode)
        (generateMonthTransactions monthId monthSetup recurringItems existing mode).
Proof.
  unfold generateMonthTransactions.
  eapply agree_bind; [apply agree_any|]. intros batch batch' _.
  eapply agree_bind; [apply agree_any|]. intros createdAt createdAt' _.
  eapply agree_bind; [apply generateAll_agree|]. intros generation generation' Hg.
  eapply agree_bind; [apply agree_any|]. intros now now' _.
  apply agree_ret. simpl.
  destruct mode; simpl.
  - apply Forall2_app; [apply Forall2_same_refl; reflexivity|].
    apply Forall2_filter_agree; [|exact Hg].
    intros x y Hxy. unfold same_tx in Hxy.
    change (tx_source_item_id x) with (tx_source_item_id (anonymous x)).
    rewrite Hxy. reflexivity.
  - apply Forall2_app; [apply Forall2_same_refl; reflexivity|exact Hg].
  - exact Hg.
Qed.

(** C2: two calls of [generateMonthTransactions] in [regenerate] mode with
    the same month, month setup, recurring items and existing transactions,
    whatever identifiers and clock readings each call draws, return
    transaction lists that are equal, position by position, in (date,
    amount, account_id, source_item_id), and in every other field but
    [id], [created_at], [updated_at] and [generated_batch_id]. *)
Theorem regenerate_is_repeatable
        (monthId : string) (monthSetup : MonthSetup) (recurringItems : list RecurringItem)
        (existingTransactions : list Transaction) (w1 w2 : World) :
  let first :=
    result_transactions
      (fst (generateMonthTransactions monthId monthSetup recurringItems
                                      existingTransactions regenerate w1)) in
  let second :=
    result_transactions
      (fst (generateMonthTransactions monthId monthSetup recurringItems
                                      existingTransactions regenerate w2)) in
  map tx_view first = map tx_view second
  /\ map anonymous first = map anonymous second.
Proof.
  intros first second.
  pose proof (generateMonthTransactions_agree monthId monthSetup recurringItems
                existingTransactions regenerate w1 w2) as H.
  apply same_tx_views in H. tauto.
Qed.

Lemma filter_not_generated_none l :
  Forall is_generated l -> List.filter not_generated l = [].
Proof.
  induction 1 as [|tx l [Hsrc _] _ IH]; simpl; [reflexivity|].
  unfold not_generated. rewrite Hsrc. exact IH.
Qed.

Lemma filter_twice {A} (p : A -> bool) l : List.filter p (List.filter p l) = List.filter p l.
Proof.
  induction l as [|x l IH]; simpl; [reflexivity|].
  destruct (p x) eqn:E; simpl; rewrite ?E, IH; reflexivity.
Qed.

(** Regenerating from the result of a regeneration changes nothing but
    identifiers and timestamps. *)
Lemma regenerate_after_regenerate monthId monthSetup recurringItems existing w1 w2 :
  let first :=
    result_transactions
      (fst (generateMonthTransactions monthId monthSetup recurringItems existing
                                      regenerate w1)) in
  let second :=
    result_transactions
      (fst (generateMonthTransactions monthId monthSetup recurringItems first
                                      regenerate w2)) in
  map tx_view second = map tx_view first /\ map anonymous second = map anonymous first.
Proof.
  intros first second.
  destruct (generateMonthTransactions_merge monthId monthSetup recurringItems w1)
    as (g1 & Hg1 & H1).
  destruct (generateMonthTransactions_merge monthId monthSetup recurringItems w2)
    as (g2 & Hg2 & H2).
  pose proof (generateMonthTransactions_agree monthId monthSetup recurringItems [] reset
                w2 w1) as Hagree.
  cbv beta in Hagree. rewrite H1, H2 in Hagree. simpl in Hagree.
  unfold second, first. rewrite H2, H1. simpl.
  rewrite List.filter_app, filter_twice, (filter_not_generated_none g1 Hg1), List.app_nil_r.
  assert (H : Forall2 same_tx (List.filter not_generated existing ++ g2)
                            (List.filter not_generated existing ++ g1)).
  { apply Forall2_app; [|exact Hagree]. apply Forall2_same_refl. reflexivity. }
  apply same_tx_views in H. tauto.
Qed.

End RegenerationFacts.

(** ** Transaction generator: overrides that match no estimate *)

Module OverrideFacts.

Import JS Calendar Types Effects Generation SpecNotions EffectsFacts.
Local Open Scope string_scope.

Lemma unmatched_override_kept monthSetup estimates override :
  In override (paycheck_overrides monthSetup) ->
  (forall e, In e estimates -> buildKey e <> buildKey override) ->
  In override (resolveEntries monthSetup estimates).
Proof.
  intros Hin Hkey. unfold resolveEntries. apply List.in_or_app. right.
  apply List.filter_In. split; [exact Hin|].
  apply negb_true_iff. apply not_true_is_false. intros Hex.
  apply List.existsb_exists in Hex. destruct Hex as (e & He & Heq).
  apply String.eqb_eq in Heq. exact (Hkey e He Heq).
Qed.

(** The two results of [generateAll], in terms of its steps. *)
Lemma generateAll_entries monthId monthSetup recurringItems createdAt batch w :
  let estimates :=
    fst (estimateEntries monthSetup
           (getScheduleDates monthId (paycheck_schedule monthSetup)
                             (paycheck_anchor_date monthSetup)) w) in
  let generation := fst (generateAll monthId monthSetup recurringItems createdAt batch w) in
  fst generation = resolveEntries monthSetup estimates
  /\ forall entry,
      In entry (resolveEntries monthSetup estimates) ->
      nonzero (entry_amount entry) = true ->
      exists w',
        incl (fst (buildPaycheckSplitTransactions
                     entry (paycheck_deposit_splits monthSetup) monthSetup createdAt batch w'))
             (snd generation).
Proof.
  unfold generateAll, bind. simpl.
  destruct (estimateEntries _ _ w) as [estimates w1]. simpl.
  set (build := fun entry =>
         buildPaycheckSplitTransactions entry (paycheck_deposit_splits monthSetup)
                                        monthSetup createdAt batch).
  set (entries := List.filter _ (resolveEntries monthSetup estimates)).
  pose proof (fun entry H => flatMapM_contains build entries entry w1 H) as Hc.
  destruct (flatMapM build entries w1) as [paycheckTx w2].
  destruct (flatMapM _ _ w2) as [recurringTx w3].
  destruct (mapM _ _ w3) as [oneOffTx w4]. simpl in *.
  split; [reflexivity|].
  intros entry Hin Hnz.
  destruct (Hc entry) as (w' & Hw').
  { apply List.filter_In. split; assumption. }
  exists w'. apply incl_appl. exact Hw'.
Qed.

(** C10: an override whose (date, bonus flag) key is the key of no
    estimate entry is one of the resolved paycheck entries, as it is, and
    when its amount is not zero [buildPaycheckSplitTransactions] is applied
    to it as to any other entry: the deposit-split transactions so built
    are among the generated transactions, hence in the result of a [reset]
    or [regenerate] run. *)
Theorem unmatched_override_adds_paycheck
        (monthId : string) (monthSetup : MonthSetup) (recurringItems : list RecurringItem)
        (existingTransactions : list Transaction) (mode : GenerateMode) (w : World)
        (override : PaycheckEntry) :
  let batch := uuids w 0 in
  let createdAt := clock w 0 in
  let w1 := {| uuids := fun n => uuids w (S n); clock := fun n => clock w (S n) |} in
  let estimates :=
    fst (estimateEntries monthSetup
           (getScheduleDates monthId (paycheck_schedule monthSetup)
                             (paycheck_anchor_date monthSetup)) w1) in
  let generation := fst (generateAll monthId monthSetup recurringItems createdAt batch w1) in
  In override (paycheck_overrides monthSetup) ->
  (forall e, In e estimates -> buildKey e <> buildKey override) ->
  In override (fst generation)
  /\ (nonzero (entry_amount override) = true ->
      exists w',
        let built :=
          fst (buildPaycheckSplitTransactions
                 override (paycheck_deposit_splits monthSetup) monthSetup createdAt batch w') in
        incl built (snd generation)
        /\ (mode <> missing ->
            incl built
                 (result_transactions
                    (fst (generateMonthTransactions monthId monthSetup recurringItems
                                                    existingTransactions mode w))))).
Proof.
  intros batch createdAt w1 estimates generation Hin Hkey.
  destruct (generateAll_entries monthId monthSetup recurringItems createdAt batch w1)
    as [Hentries Hbuilt].
  fold estimates generation in Hentries, Hbuilt.
  pose proof (unmatched_override_kept monthSetup estimates override Hin Hkey) as Hkept.
  split; [rewrite Hentries; exact Hkept|].
  intros Hnz. destruct (Hbuilt override Hkept Hnz) as (w' & Hw').
  exists w'. split; [exact Hw'|].
  intros Hmode.
  assert (Hresult :
    result_transactions
      (fst (generateMonthTransactions monthId monthSetup recurringItems
                                      existingTransactions mode w))
    = mergeByMode mode existingTransactions (snd generation)).
  { unfold generateMonthTransactions, bind. simpl.
    fold batch createdAt w1.
    unfold generation.
    destruct (generateAll _ _ _ createdAt batch w1) as [g w2]. simpl.
    reflexivity. }
  rewrite Hresult. destruct mode; simpl; [congruence| |exact Hw'].
  apply incl_appr. exact Hw'.
Qed.

Lemma unmatched_override_adds_paycheck_witness :
  let w := sample_world in
  let monthSetup := sample_setup one_split in
  let batch := uuids w 0 in
  let createdAt := clock w 0 in
  let w1 := {| uuids := fun n => uuids w (S n); clock := fun n => clock w (S n) |} in
  let generation := fst (generateAll "2024-03" monthSetup [] createdAt batch w1) in
  In sample_override (fst generation)
  /\ (nonzero (entry_amount sample_override) = true ->
      exists w',
        let built :=
          fst (buildPaycheckSplitTransactions
                 sample_override (paycheck_deposit_splits monthSetup) monthSetup
                 createdAt batch w') in
        incl built (snd generation)
        /\ (regenerate <> missing ->
            incl built
                 (result_transactions
                    (fst (generateMonthTransactions "2024-03" monthSetup [] []
                                                    regenerate w))))).
Proof.
  apply (unmatched_override_adds_paycheck "2024-03" (sample_setup one_split) [] []
           regenerate sample_world sample_override).
  - simpl. left. reflexivity.
  - simpl. intros e [<-|[]]. vm_compute. discriminate.
Defined.

Example override_of_the_sample :
  map (fun tx => (tx_date tx, Qred (tx_amount tx), tx_source_item_id tx))
      (result_transactions
         (fst (generateMonthTransactions "2024-03" (sample_setup one_split) [] []
                                         regenerate sample_world)))
  = [ ("2024-03-15", 1000%Q, Some "paycheck:2024-03-15:acc1");
      ("2024-03-20", 500%Q, Some "bonus:2024-03-20:acc1") ].
Proof. vm_compute. reflexivity. Qed.

End OverrideFacts.

(** ** Transaction generator: the date of a monthly item *)

Module MonthlyDateFacts.

Import JS Calendar Types Effects Generation SpecNotions JSFacts ScheduleFacts.
Local Open Scope string_scope.
Local Open Scope Z_scope.



Example monthly_dates_in_february :
  getMonthlyDate "2024-02" "31" (Some 1) = "2024-02-29"
  /\ getMonthlyDate "2023-02" "31" (Some 1) = "2023-02-28"
  /\ getMonthlyDate "2023-02" "day:31" (Some 1) = "2023-02-28"
  /\ getMonthlyDate "2023-02" "last" (Some 1) = "2023-02-28"
  /\ getMonthlyDate "2023-02" "0" (Some 1) = "2023-02-01"
  /\ getMonthlyDate "2023-02" "" (Some 17) = "2023-02-17"
  /\ getMonthlyDate "2023-02" "soon" (Some 31) = "2023-02-28".
Proof. vm_compute. repeat split; reflexivity. Qed.

End MonthlyDateFacts.

(** ** Transaction generator: the keys of a run *)

Module KeyFacts.

Import JS Calendar Types Effects Generation SpecNotions EffectsFacts.
Import JSFacts StringFacts ScheduleFacts.
Local Open Scope string_scope.
Local Arguments String.append !_ _ / : simpl nomatch.

(** *** Lists without repetition *)

Lemma NoDup_app_intro {A} (a b : list A) :
  List.NoDup a -> List.NoDup b -> (forall x, In x a -> ~ In x b) -> List.NoDup (a ++ b).
Proof.
  induction a as [|x a IH]; intros Ha Hb Hd; simpl; [exact Hb|].
  inversion Ha as [|? ? Hx Ha']; subst. constructor.
  - intros Hin. apply List.in_app_or in Hin. destruct Hin as [Hin|Hin]; [tauto|].
    apply (Hd x); [left; reflexivity|exact Hin].
  - apply IH; [exact Ha'|exact Hb|]. intros y Hy. apply Hd. right. exact Hy.
Qed.

Lemma NoDup_app_left {A} (a b : list A) : List.NoDup (a ++ b) -> List.NoDup a.
Proof.
  induction a as [|x a IH]; intros H; [constructor|].
  simpl in H. inversion H as [|? ? Hx H']; subst. constructor; [|auto].
  intros Hin. apply Hx. apply List.in_or_app. left. exact Hin.
Qed.

Lemma NoDup_map_inj {A B} (f : A -> B) (l : list A) :
  (forall x y, In x l -> In y l -> f x = f y -> x = y) ->
  List.NoDup l -> List.NoDup (map f l).
Proof.
  induction l as [|x l IH]; intros Hinj Hnd; simpl; [constructor|].
  inversion Hnd as [|? ? Hx Hnd']; subst. constructor.
  - intros Hin. apply List.in_map_iff in Hin. destruct Hin as (y & Hy & Hin).
    apply Hx. rewrite (Hinj x y); [exact Hin|left; reflexivity|right; exact Hin|].
    symmetry. exact Hy.
  - apply IH; [|exact Hnd']. intros a b Ha Hb. apply Hinj; right; assumption.
Qed.

Lemma NoDup_map_filter {A B} (f : A -> B) (p : A -> bool) (l : list A) :
  List.NoDup (map f l) -> List.NoDup (map f (List.filter p l)).
Proof.
  induction l as [|x l IH]; intros Hnd; simpl; [constructor|].
  inversion Hnd as [|? ? Hx Hnd']; subst.
  destruct (p x); simpl; [|auto]. constructor; [|auto].
  intros Hin. apply Hx. apply List.in_map_iff in Hin. destruct Hin as (y & Hy & Hin).
  apply List.filter_In in Hin. apply List.in_map_iff. exists y. tauto.
Qed.

(** The pieces of a [flatMapM] over elements with distinct tags, when a
    key of a piece determines the tag of its element. *)
Lemma holds_flatMapM_distinct {A B K T} (f : A -> Gen (list B)) (key : B -> K)
      (tag : A -> T) (P : A -> K -> Prop) (l : list A) :
  (forall x, In x l ->
             holds (fun ys => List.NoDup (map key ys)
                              /\ forall y, In y ys -> P x (key y)) (f x)) ->
  (forall x x' k, In x l -> In x' l -> P x k -> P x' k -> tag x = tag x') ->
  List.NoDup (map tag l) ->
  holds (fun ys => List.NoDup (map key ys)
                   /\ forall y, In y ys -> exists x, In x l /\ P x (key y))
        (flatMapM f l).
Proof.
  induction l as [|x l IH]; intros Hf Htag Hnd; simpl.
  - apply holds_ret. split; [constructor|intros y []].
  - inversion Hnd as [|? ? Hx Hnd']; subst.
    eapply holds_bind; [apply Hf; left; reflexivity|]. intros ys [Hys Hp].
    eapply holds_bind.
    { apply IH; [|intros a b k Ha Hb; apply Htag; right; assumption|exact Hnd'].
      intros a Ha. apply Hf. right. exact Ha. }
    intros zs [Hzs Hq]. apply holds_ret. split.
    + rewrite List.map_app. apply NoDup_app_intro; [exact Hys|exact Hzs|].
      intros k Hk1 Hk2.
      apply List.in_map_iff in Hk1, Hk2.
      destruct Hk1 as (y & <- & Hy), Hk2 as (z & Hz & Hz').
      destruct (Hq z Hz') as (x' & Hx' & Hpx'). rewrite Hz in Hpx'.
      apply Hx. rewrite (Htag x x' (key y)); [|left; reflexivity|right; exact Hx'| |].
      * apply List.in_map. exact Hx'.
      * apply Hp. exact Hy.
      * exact Hpx'.
    + intros y Hy. apply List.in_app_or in Hy. destruct Hy as [Hy|Hy].
      * exists x. split; [left; reflexivity|apply Hp; exact Hy].
      * destruct (Hq y Hy) as (x' & Hx' & Hpx'). exists x'. split; [right|]; assumption.
Qed.

Lemma holds_mapM_map {A B K} (f : A -> Gen B) (key : B -> K) (g : A -> K) (l : list A) :
  (forall x, holds (fun y => key y = g x) (f x)) ->
  holds (fun ys => map key ys = map g l) (mapM f l).
Proof.
  intros Hf. induction l as [|x l IH]; simpl.
  - apply holds_ret. reflexivity.
  - eapply holds_bind; [apply Hf|]. intros y Hy.
    eapply holds_bind; [apply IH|]. intros ys Hys.
    apply holds_ret. simpl. rewrite Hy, Hys. reflexivity.
Qed.

(** *** The keys of the paycheck transactions *)

Lemma paycheck_key_inj entry a a' : paycheck_key entry a = paycheck_key entry a' -> a = a'.
Proof.
  unfold paycheck_key. intros H. injection H as H.
  apply app_inv_head in H. simpl in H. injection H as H.
  apply app_inv_head in H. simpl in H. injection H as H. exact H.
Qed.

(** The key of a paycheck transaction tells the date and the kind of its
    entry, when dates have no colon. *)
Lemma paycheck_key_entry e e' a a' :
  colon_free (entry_date e) = true -> colon_free (entry_date e') = true ->
  paycheck_key e a = paycheck_key e' a' -> buildKey e = buildKey e'.
Proof.
  unfold paycheck_key, buildKey, paycheckKind. intros Hc Hc' [= H].
  destruct (truthy_flag (entry_is_bonus e)), (truthy_flag (entry_is_bonus e'));
    try discriminate H.
  - apply (app_inv_head "bonus:") in H.
    apply cut_at_first_colon in H; [|assumption..]. destruct H as [-> _]. reflexivity.
  - apply (app_inv_head "paycheck:") in H.
    apply cut_at_first_colon in H; [|assumption..]. destruct H as [-> _]. reflexivity.
Qed.

Lemma splitTransaction_key entry monthSetup createdAt batch account amount :
  holds (fun tx => tx_source_item_id tx = paycheck_key entry account)
        (splitTransaction entry monthSetup createdAt batch account amount).
Proof. intros w. reflexivity. Qed.

Lemma buildPaycheckSplitTransactions_keys entry splits monthSetup createdAt batch :
  List.NoDup (emittingAccounts splits) ->
  holds (fun txs => List.NoDup (keys_of txs)
                    /\ forall tx, In tx txs ->
                                  exists a, tx_source_item_id tx = paycheck_key entry a)
        (buildPaycheckSplitTransactions entry splits monthSetup createdAt batch).
Proof.
  intros Hnd.
  assert (Hshape : forall accounts txs,
             keys_of txs = map (paycheck_key entry) accounts ->
             List.NoDup accounts ->
             List.NoDup (keys_of txs)
             /\ forall tx, In tx txs ->
                           exists a, tx_source_item_id tx = paycheck_key entry a).
  { intros accounts txs Hk Ha. split.
    - rewrite Hk. apply NoDup_map_inj; [|exact Ha].
      intros x y _ _. apply paycheck_key_inj.
    - intros tx Hin. apply (List.in_map tx_source_item_id) in Hin.
      fold (keys_of txs) in Hin. rewrite Hk in Hin.
      apply List.in_map_iff in Hin. destruct Hin as (a & Ha' & _). exists a. congruence. }
  unfold buildPaycheckSplitTransactions.
  destruct (negb _); [apply holds_ret; split; [constructor|intros tx []]|].
  unfold emittingAccounts in Hnd.
  destruct (eligibleSplits splits) as [|s0 rest] eqn:E;
    [apply holds_ret; split; [constructor|intros tx []]|].
  eapply holds_bind.
  { apply (holds_mapM_map _ tx_source_item_id
             (fun split => paycheck_key entry (split_account_id split))).
    intros split. apply splitTransaction_key. }
  intros tx Htx.
  assert (Hfixed : keys_of tx
                   = map (paycheck_key entry) (map split_account_id (fixedSplits splits))).
  { unfold keys_of. rewrite Htx, List.map_map. reflexivity. }
  destruct (find _ _) as [remainder|].
  - destruct (nonzero _).
    + eapply holds_bind; [apply splitTransaction_key|]. intros last Hlast.
      apply holds_ret.
      apply (Hshape (map split_account_id (fixedSplits splits)
                         ++ [split_account_id remainder])%list); [|exact Hnd].
      unfold keys_of in *. rewrite !List.map_app, Hfixed. simpl. rewrite Hlast. reflexivity.
    + apply holds_ret.
      apply (Hshape (map split_account_id (fixedSplits splits))); [exact Hfixed|].
      apply NoDup_app_left in Hnd. exact Hnd.
  - apply holds_ret.
    apply (Hshape (map split_account_id (fixedSplits splits))); [exact Hfixed|].
    rewrite List.app_nil_r in Hnd. exact Hnd.
Qed.

(** *** The dates of a schedule *)

Lemma getMonthlyDate_colon_free monthId dayRule fallbackDay :
  colon_free monthId = true ->
  colon_free (getMonthlyDate monthId dayRule fallbackDay) = true.
Proof.
  intros H. unfold getMonthlyDate.
  destruct (String.eqb dayRule "last"); apply dateInMonth_colon_free; exact H.
Qed.

Lemma semimonthly_colon_free monthId :
  colon_free monthId = true ->
  Forall (fun date => colon_free date = true)
         [ monthId ++ "-15"; dateInMonth monthId (daysInMonth (getMonthInfo monthId)) ].
Proof.
  intros H. repeat constructor.
  - rewrite colon_free_app, H. reflexivity.
  - apply dateInMonth_colon_free. exact H.
Qed.

Lemma getScheduleDates_distinct monthId schedule anchorDate :
  List.NoDup (getScheduleDates monthId schedule anchorDate).
Proof.
  unfold getScheduleDates, getDatesByInterval. destruct schedule.
  - apply datesByInterval_distinct. lia.
  - apply datesByInterval_distinct. lia.
  - apply semimonthly_distinct.
  - repeat constructor. intros [].
Qed.

Lemma getScheduleDates_colon_free monthId schedule anchorDate :
  colon_free monthId = true ->
  Forall (fun date => colon_free date = true)
         (getScheduleDates monthId schedule anchorDate).
Proof.
  intros H. unfold getScheduleDates, getDatesByInterval. destruct schedule.
  - apply datesByInterval_colon_free.
  - apply datesByInterval_colon_free.
  - apply semimonthly_colon_free. exact H.
  - repeat constructor. apply getMonthlyDate_colon_free. exact H.
Qed.

Lemma recurringDates_distinct monthId item : List.NoDup (recurringDates monthId item).
Proof.
  unfold recurringDates, getDatesByInterval. destruct (cadence item).
  - repeat constructor. intros [].
  - apply datesByInterval_distinct. lia.
  - apply datesByInterval_distinct. lia.
  - apply semimonthly_distinct.
Qed.

Lemma recurringDates_colon_free monthId item :
  colon_free monthId = true ->
  Forall (fun date => colon_free date = true) (recurringDates monthId item).
Proof.
  intros H. unfold recurringDates, getDatesByInterval. destruct (cadence item).
  - repeat constructor. apply getMonthlyDate_colon_free. exact H.
  - apply datesByInterval_colon_free.
  - apply datesByInterval_colon_free.
  - apply semimonthly_colon_free. exact H.
Qed.

(** *** The resolved paycheck entries *)

Lemma Map_of_lookup {V} (pairs : list (string * V)) k v :
  Map_of pairs !! k = Some v -> In (k, v) pairs.
Proof.
  unfold Map_of.
  assert (H : forall (m : gmap string V),
             fold_left (fun m kv => <[fst kv := snd kv]> m) pairs m !! k = Some v ->
             In (k, v) pairs \/ m !! k = Some v).
  { induction pairs as [|[k' v'] pairs IH]; intros m Hm; simpl in *; [tauto|].
    destruct (IH _ Hm) as [Hin|Hl]; [tauto|].
    destruct (String.eqb_spec k' k) as [->|Hne].
    - rewrite lookup_insert_eq in Hl. left. left. congruence.
    - rewrite lookup_insert_ne in Hl by exact Hne. tauto. }
  intros Hm. destruct (H _ Hm) as [Hin|Hl]; [exact Hin|].
  rewrite lookup_empty in Hl. discriminate.
Qed.

Lemma override_found overrides key override :
  Map_of (map (fun entry => (buildKey entry, entry)) overrides) !! key = Some override ->
  In override overrides /\ buildKey override = key.
Proof.
  intros H. apply Map_of_lookup in H. apply List.in_map_iff in H.
  destruct H as (o & [= <- <-] & Hin). split; [exact Hin|reflexivity].
Qed.

Lemma buildKey_flag e e' :
  buildKey e = buildKey e' ->
  entry_date e = entry_date e'
  /\ truthy_flag (entry_is_bonus e) = truthy_flag (entry_is_bonus e').
Proof.
  unfold buildKey. intros H.
  destruct (truthy_flag (entry_is_bonus e)), (truthy_flag (entry_is_bonus e')).
  - apply app_inj_tail in H; [tauto|reflexivity].
  - apply cut_at_last_colon in H; [|reflexivity..]. destruct H as [_ H]. discriminate.
  - apply cut_at_last_colon in H; [|reflexivity..]. destruct H as [_ H]. discriminate.
  - apply app_inj_tail in H; [tauto|reflexivity].
Qed.

(** An override applied to the estimate of its key keeps the key. *)
Lemma spreadOver_key entry override :
  buildKey override = buildKey entry -> buildKey (spreadOver entry override) = buildKey entry.
Proof.
  intros H. rewrite <- H. destruct (buildKey_flag _ _ H) as [Hd Hf].
  unfold buildKey, spreadOver. cbn [entry_date entry_is_bonus].
  destruct (entry_is_bonus override) as [b|] eqn:E; [reflexivity|].
  rewrite <- Hf. reflexivity.
Qed.

Lemma resolveEntries_shape monthSetup estimates :
  exists base extra,
    resolveEntries monthSetup estimates = (base ++ extra)%list
    /\ map buildKey base = map buildKey estimates
    /\ (forall e, In e base ->
                  In e estimates \/ exists e0 o, In o (paycheck_overrides monthSetup)
                                                 /\ e = spreadOver e0 o)
    /\ extra = List.filter
                 (fun entry =>
                    negb (existsb (fun e => String.eqb (buildKey e) (buildKey entry))
                                  estimates))
                 (paycheck_overrides monthSetup).
Proof.
  unfold resolveEntries. eexists. eexists. split; [reflexivity|].
  split; [|split; [|reflexivity]].
  - induction estimates as [|e l IH]; simpl; [reflexivity|]. rewrite IH. f_equal.
    destruct (_ !! buildKey e) as [o|] eqn:E; [|reflexivity].
    apply override_found in E. apply spreadOver_key. tauto.
  - intros e Hin. apply List.in_map_iff in Hin. destruct Hin as (e0 & He & Hin).
    destruct (_ !! buildKey e0) as [o|] eqn:E.
    + right. exists e0, o. apply override_found in E. split; [tauto|congruence].
    + left. congruence.
Qed.

Lemma resolveEntries_distinct monthSetup estimates :
  List.NoDup (map buildKey estimates) ->
  List.NoDup (map buildKey (paycheck_overrides monthSetup)) ->
  List.NoDup (map buildKey (resolveEntries monthSetup estimates)).
Proof.
  intros He Ho.
  destruct (resolveEntries_shape monthSetup estimates) as (base & extra & -> & Hb & _ & ->).
  rewrite List.map_app, Hb. apply NoDup_app_intro; [exact He| |].
  - apply NoDup_map_filter. exact Ho.
  - intros k Hk Hk'. apply List.in_map_iff in Hk, Hk'.
    destruct Hk as (e & <- & Hin), Hk' as (o & Hko & Hino).
    apply List.filter_In in Hino. destruct Hino as [_ Hno].
    apply negb_true_iff in Hno.
    assert (Hex : existsb (fun e0 => String.eqb (buildKey e0) (buildKey o)) estimates = true).
    { apply List.existsb_exists. exists e. split; [exact Hin|].
      apply String.eqb_eq. congruence. }
    congruence.
Qed.

Lemma resolveEntries_colon_free monthSetup estimates :
  Forall (fun e => colon_free (entry_date e) = true) estimates ->
  Forall (fun e => colon_free (entry_date e) = true) (paycheck_overrides monthSetup) ->
  Forall (fun e => colon_free (entry_date e) = true) (resolveEntries monthSetup estimates).
Proof.
  intros He Ho.
  destruct (resolveEntries_shape monthSetup estimates) as (base & extra & -> & _ & Hb & ->).
  rewrite List.Forall_forall in He, Ho.
  apply Forall_app. split; apply List.Forall_forall.
  - intros e Hin. destruct (Hb e Hin) as [H|(e0 & o & Hino & ->)]; [auto|].
    simpl. auto.
  - intros o Hin. apply List.filter_In in Hin. apply Ho. tauto.
Qed.

Lemma estimateEntries_distinct monthId monthSetup :
  colon_free monthId = true ->
  Forall (fun e => colon_free (entry_date e) = true) (cachedEstimates monthSetup) ->
  List.NoDup (map buildKey (cachedEstimates monthSetup)) ->
  holds (fun estimates =>
           List.NoDup (map buildKey estimates)
           /\ Forall (fun e => colon_free (entry_date e) = true) estimates)
        (estimateEntries monthSetup
           (getScheduleDates monthId (paycheck_schedule monthSetup)
                             (paycheck_anchor_date monthSetup))).
Proof.
  intros Hm Hc Hk. unfold estimateEntries, cachedEstimates in *.
  set (dates := getScheduleDates _ _ _).
  assert (Hfresh :
    holds (fun estimates =>
             List.NoDup (map buildKey estimates)
             /\ Forall (fun e => colon_free (entry_date e) = true) estimates)
          (mapM (fun date => bind randomUUID (fun id =>
                   ret {| entry_id := id; entry_date := date;
                          entry_amount := paycheck_default_amount monthSetup;
                          entry_is_bonus := Some false; entry_description := None |}))
                dates)).
  { eapply holds_weaken.
    { apply (holds_mapM_map _ (fun e => (entry_date e, entry_is_bonus e))
               (fun date => (date, Some false))).
      intros date w. reflexivity. }
    intros estimates H.
    assert (Hd : map entry_date estimates = dates).
    { apply (f_equal (map fst)) in H. rewrite !List.map_map in H. simpl in H.
      rewrite List.map_id in H. exact H. }
    assert (Hb : map buildKey estimates = map (fun date => date ++ ":regular") dates).
    { apply (f_equal (map (fun p : string * option bool =>
                             fst p ++ ":" ++ (if truthy_flag (snd p) then "bonus"
                                              else "regular")))) in H.
      rewrite !List.map_map in H. exact H. }
    split.
    - rewrite Hb. apply NoDup_map_inj; [|apply getScheduleDates_distinct].
      intros x y _ _ Hxy. apply app_inj_tail in Hxy; [tauto|reflexivity].
    - pose proof (getScheduleDates_colon_free monthId (paycheck_schedule monthSetup)
                    (paycheck_anchor_date monthSetup) Hm) as Hcf.
      fold dates in Hcf. rewrite <- Hd in Hcf.
      rewrite List.Forall_map in Hcf. exact Hcf. }
  destruct (paycheck_estimates monthSetup) as [[|e es]|]; try exact Hfresh.
  apply holds_ret. simpl in *. split; assumption.
Qed.

(** *** The keys of the recurring and one-off transactions *)

Lemma recurring_key_item item item' d d' :
  colon_free d = true -> colon_free d' = true ->
  recurring_key item d = recurring_key item' d' -> item_id item = item_id item' /\ d = d'.
Proof.
  unfold recurring_key. intros Hd Hd' H. injection H as H.
  exact (cut_at_last_colon (item_id item) (item_id item') d d' Hd Hd' H).
Qed.

Lemma recurringTransactions_keys monthId overrides createdAt batch item :
  colon_free monthId = true ->
  holds (fun txs => List.NoDup (keys_of txs)
                    /\ forall tx, In tx txs ->
                                  exists d, colon_free d = true
                                            /\ tx_source_item_id tx = recurring_key item d)
        (recurringTransactions monthId overrides createdAt batch item).
Proof.
  intros Hm. unfold recurringTransactions.
  set (dates := List.filter _ (recurringDates monthId item)).
  assert (Hcf : forall d, In d dates -> colon_free d = true).
  { intros d Hd. apply List.filter_In in Hd. destruct Hd as [Hd _].
    pose proof (recurringDates_colon_free monthId item Hm) as H.
    rewrite List.Forall_forall in H. auto. }
  eapply holds_weaken.
  { apply (holds_mapM_map _ tx_source_item_id (recurring_key item)).
    intros date w. reflexivity. }
  intros txs H. unfold keys_of. split.
  - rewrite H. apply NoDup_map_inj.
    + intros x y Hx Hy Hxy. apply recurring_key_item in Hxy; [tauto|auto..].
    + apply List.NoDup_filter. apply recurringDates_distinct.
  - intros tx Hin. apply (List.in_map tx_source_item_id) in Hin.
    rewrite H in Hin.
    apply List.in_map_iff in Hin. destruct Hin as (d & Hd & Hin).
    exists d. split; [auto|congruence].
Qed.

Lemma oneOff_keys monthSetup createdAt batch :
  holds (fun txs => keys_of txs = map oneoff_key (emittingOneOffs monthSetup))
        (mapM (oneOffTransaction createdAt batch) (emittingOneOffs monthSetup)).
Proof.
  unfold keys_of.
  apply (holds_mapM_map _ tx_source_item_id oneoff_key). intros adj w. reflexivity.
Qed.

Lemma oneoff_key_inj adj adj' : oneoff_key adj = oneoff_key adj' -> adj_id adj = adj_id adj'.
Proof.
  unfold oneoff_key. intros H. injection H as H. exact H.
Qed.

Lemma NoDup_oneoff_keys l :
  List.NoDup (map adj_id l) -> List.NoDup (map oneoff_key l).
Proof.
  induction l as [|adj l IH]; intros H; simpl; [constructor|].
  inversion H as [|? ? Hx H']; subst. constructor; [|auto].
  intros Hin. apply Hx. apply List.in_map_iff in Hin. destruct Hin as (adj' & Hk & Hin).
  apply oneoff_key_inj in Hk. rewrite <- Hk. apply List.in_map. exact Hin.
Qed.

(** *** All the keys of a run *)

Lemma generateAll_keys monthId monthSetup recurringItems createdAt batch :
  colon_free monthId = true ->
  Forall (fun e => colon_free (entry_date e) = true)
         (cachedEstimates monthSetup ++ paycheck_overrides monthSetup) ->
  List.NoDup (map buildKey (cachedEstimates monthSetup)) ->
  List.NoDup (map buildKey (paycheck_overrides monthSetup)) ->
  List.NoDup (emittingAccounts (paycheck_deposit_splits monthSetup)) ->
  List.NoDup (map item_id (List.filter item_enabled recurringItems)) ->
  List.NoDup (map adj_id (emittingOneOffs monthSetup)) ->
  holds (fun generation => List.NoDup (keys_of (snd generation)))
        (generateAll monthId monthSetup recurringItems createdAt batch).
Proof.
  intros Hm Hcf Hest Hov Hsp Hit Hone.
  apply Forall_app in Hcf. destruct Hcf as [Hcf1 Hcf2].
  unfold generateAll.
  eapply holds_bind; [apply (estimateEntries_distinct monthId); assumption|].
  intros estimates [Hek Hec].
  set (entries := List.filter _ (resolveEntries monthSetup estimates)).
  assert (Hentries : List.NoDup (map buildKey entries)).
  { apply NoDup_map_filter. apply resolveEntries_distinct; assumption. }
  assert (Hdates : forall e, In e entries -> colon_free (entry_date e) = true).
  { intros e He. apply List.filter_In in He. destruct He as [He _].
    pose proof (resolveEntries_colon_free monthSetup estimates Hec Hcf2) as H.
    rewrite List.Forall_forall in H. auto. }
  eapply holds_bind.
  { apply (holds_flatMapM_distinct _ tx_source_item_id buildKey
             (fun e k => exists a, k = paycheck_key e a)).
    - intros e He. apply buildPaycheckSplitTransactions_keys. exact Hsp.
    - intros e e' k He He' [a ->] [a' H]. eapply paycheck_key_entry; eauto.
    - exact Hentries. }
  intros paycheckTx [Hp1 Hp2].
  eapply holds_bind.
  { apply (holds_flatMapM_distinct _ tx_source_item_id item_id
             (fun item k => exists d, colon_free d = true /\ k = recurring_key item d)).
    - intros item Hi. apply recurringTransactions_keys. exact Hm.
    - intros i i' k Hi Hi' (d & Hd & ->) (d' & Hd' & H).
      apply recurring_key_item in H; tauto.
    - exact Hit. }
  intros recurringTx [Hr1 Hr2].
  eapply holds_bind; [apply oneOff_keys|]. intros oneOffTx Ho.
  apply holds_ret. cbn [snd]. unfold keys_of in *. rewrite !List.map_app.
  assert (Hpi : forall k, In k (map tx_source_item_id paycheckTx) ->
                          key_initial k = Some "b"%char \/ key_initial k = Some "p"%char).
  { intros k Hk. apply List.in_map_iff in Hk. destruct Hk as (tx & <- & Hin).
    destruct (Hp2 tx Hin) as (e & _ & a & ->).
    unfold paycheck_key, paycheckKind. destruct (truthy_flag _); simpl; tauto. }
  assert (Hri : forall k, In k (map tx_source_item_id recurringTx) ->
                          key_initial k = Some "r"%char).
  { intros k Hk. apply List.in_map_iff in Hk. destruct Hk as (tx & <- & Hin).
    destruct (Hr2 tx Hin) as (i & _ & d & _ & ->). reflexivity. }
  assert (Hoi : forall k, In k (map tx_source_item_id oneOffTx) ->
                          key_initial k = Some "o"%char).
  { intros k Hk. rewrite Ho in Hk. apply List.in_map_iff in Hk.
    destruct Hk as (adj & <- & _). reflexivity. }
  apply NoDup_app_intro; [exact Hp1| |].
  - apply NoDup_app_intro; [exact Hr1| |].
    + rewrite Ho. apply NoDup_oneoff_keys. exact Hone.
    + intros k Hk Hk'. apply Hri in Hk. apply Hoi in Hk'. congruence.
  - intros k Hk Hk'. apply Hpi in Hk. apply List.in_app_or in Hk'.
    destruct Hk' as [Hk'|Hk']; [apply Hri in Hk'|apply Hoi in Hk'];
      destruct Hk; congruence.
Qed.

(** C8, as stated, refuted: with two fixed deposit splits into the same
    account, the two transactions of a paycheck into that account have the
    same key, "paycheck:2024-03-15:acc1". *)
Lemma same_account_splits_share_a_key :
  ~ List.NoDup
      (keys_of
         (result_transactions
            (fst (generateMonthTransactions "2024-03" (sample_setup same_account_splits)
                                            [] [] reset sample_world)))).
Proof.
  intros H. vm_compute in H.
  inversion H as [|? ? Hnotin _]. apply Hnotin. left. reflexivity.
Qed.

(** C8, amended: the [source_item_id] keys of the transactions generated
    in one run are pairwise distinct, one key per (paycheck kind, date,
    destination account), per (recurring item, date) and per one-off
    adjustment, provided that no two deposit splits that emit a transaction
    target the same account, that the paycheck estimates and the paycheck
    overrides each have pairwise distinct (date, bonus flag) keys, that the
    enabled recurring items and the emitted one-off adjustments have
    pairwise distinct ids, and that the month id and the dates of the
    estimates and overrides contain no colon.  The generated transactions
    of a run are its result in [reset] mode; in every mode they are what is
    merged with the existing transactions. *)
Theorem generated_keys_distinct
        (monthId : string) (monthSetup : MonthSetup) (recurringItems : list RecurringItem)
        (existingTransactions : list Transaction) (w : World) :
  colon_free monthId = true ->
  Forall (fun e => colon_free (entry_date e) = true)
         (cachedEstimates monthSetup ++ paycheck_overrides monthSetup) ->
  List.NoDup (map buildKey (cachedEstimates monthSetup)) ->
  List.NoDup (map buildKey (paycheck_overrides monthSetup)) ->
  List.NoDup (emittingAccounts (paycheck_deposit_splits monthSetup)) ->
  List.NoDup (map item_id (List.filter item_enabled recurringItems)) ->
  List.NoDup (map adj_id (emittingOneOffs monthSetup)) ->
  let generatedTransactions :=
    result_transactions
      (fst (generateMonthTransactions monthId monthSetup recurringItems
                                      existingTransactions reset w)) in
  List.NoDup (keys_of generatedTransactions)
  /\ forall existing mode,
      result_transactions
        (fst (generateMonthTransactions monthId monthSetup recurringItems existing mode w))
      = mergeByMode mode existing generatedTransactions.
Proof.
  intros Hm Hcf Hest Hov Hsp Hit Hone.
  unfold generateMonthTransactions, bind.
  destruct (randomUUID w) as [batch w1].
  destruct (Date_now w1) as [createdAt w2].
  pose proof (generateAll_keys monthId monthSetup recurringItems createdAt batch
                Hm Hcf Hest Hov Hsp Hit Hone w2) as H.
  destruct (generateAll _ _ _ _ _ w2) as [generation w3].
  destruct (Date_now w3) as [now w4]. simpl.
  split; [exact H|reflexivity].
Qed.

(** The theorem at work: the sample month with its paycheck into one
    account and the rent as recurring item. *)
Lemma generated_keys_distinct_witness :
  let generatedTransactions :=
    result_transactions
      (fst (generateMonthTransactions "2024-03" (sample_setup one_split) [sample_rent] []
                                      reset sample_world)) in
  List.NoDup (keys_of generatedTransactions)
  /\ forall existing mode,
      result_transactions
        (fst (generateMonthTransactions "2024-03" (sample_setup one_split) [sample_rent]
                                        existing mode sample_world))
      = mergeByMode mode existing generatedTransactions.
Proof.
  apply (generated_keys_distinct "2024-03" (sample_setup one_split) [sample_rent] []
           sample_world).
  - reflexivity.
  - simpl. repeat constructor.
  - simpl. repeat constructor. simpl. tauto.
  - simpl. repeat constructor. simpl. tauto.
  - vm_compute. repeat constructor. simpl. tauto.
  - simpl. repeat constructor. simpl. tauto.
  - simpl. constructor.
Defined.

Example keys_of_the_sample :
  keys_of
    (result_transactions
       (fst (generateMonthTransactions "2024-03" (sample_setup one_split) [sample_rent] []
                                       reset sample_world)))
  = [ Some "paycheck:2024-03-15:acc1"; Some "bonus:2024-03-20:acc1";
      Some "recurring:r1:2024-03-01" ].
Proof. vm_compute. reflexivity. Qed.

End KeyFacts.

(** ** Payroll engine: year-to-date totals, Social Security and Medicare *)

Module PayrollTotals.

Import JS Calendar PayrollTypes Withholding Payroll SpecNotions Totals PayrollFacts.
Local Open Scope Q_scope.

Lemma total_of_cons {A} (f : A -> Q) (x : A) (l : list A) :
  total_of f (x :: l) = f x + total_of f l.
Proof. reflexivity. Qed.

Lemma total_of_app {A} (f : A -> Q) (l1 l2 : list A) :
  total_of f (l1 ++ l2) == total_of f l1 + total_of f l2.
Proof.
  induction l1 as [|x l1 IH]; simpl.
  - ring.
  - rewrite IH. ring.
Qed.

Lemma total_of_nonneg {A} (f : A -> Q) (l : list A) :
  Forall (fun x => 0 <= f x) l -> 0 <= total_of f l.
Proof.
  induction 1 as [|x l Hx Hl IH]; simpl.
  - lra.
  - lra.
Qed.

Lemma total_of_filter {A} (f : A -> Q) (p : A -> bool) (l : list A) :
  Forall (fun x => 0 <= f x) l -> total_of f (List.filter p l) <= total_of f l.
Proof.
  induction 1 as [|x l Hx Hl IH]; simpl.
  - lra.
  - destruct (p x); simpl; lra.
Qed.

(** A stable sort moves elements and neither adds nor drops any. *)
Lemma In_insert_sorted {A} (cmp : A -> A -> comparison) x y l :
  In y (insert_sorted cmp x l) <-> y = x \/ In y l.
Proof.
  induction l as [|z l IH]; simpl.
  - intuition.
  - destruct (cmp x z); simpl; rewrite ?IH; intuition.
Qed.

Lemma In_sort {A} (cmp : A -> A -> comparison) y l : In y (sort cmp l) <-> In y l.
Proof.
  induction l as [|x l IH]; simpl.
  - tauto.
  - rewrite In_insert_sorted, IH. intuition.
Qed.

(** What an event uses of the wage base and what is left after it do not
    exceed what was left before it. *)
Lemma wage_base_step (g base w : Q) :
  0 <= g ->
  Qmin g (Qmax 0 (base - w)) + Qmax 0 (base - (w + g)) <= Qmax 0 (base - w).
Proof.
  intros Hg.
  destruct (Q.max_spec 0 (base - w)) as [[H1 E1]|[H1 E1]];
    destruct (Q.max_spec 0 (base - (w + g))) as [[H2 E2]|[H2 E2]];
    destruct (Q.min_spec g (Qmax 0 (base - w))) as [[H3 E3]|[H3 E3]];
    revert E1 E2 E3 H3;
    generalize (Qmin g (Qmax 0 (base - w))); generalize (Qmax 0 (base - w));
    generalize (Qmax 0 (base - (w + g))); intros; lra.
Qed.

Section Engine.

Variables (payPeriodsPerYear grossPerPaycheck : Q).
Variables (payrollSettings : PayrollSettings) (taxTables : TaxTableSet).
Variable stateWithholding : option StateTaxPlugin.

Local Abbreviation step :=
  (processEvent payPeriodsPerYear grossPerPaycheck payrollSettings taxTables
                stateWithholding).
Local Abbreviation run :=
  (processEvents payPeriodsPerYear grossPerPaycheck payrollSettings taxTables
                 stateWithholding).

(** The gross pay of an event. *)
Lemma gross_of_event acc event :
  gross (snd (step acc event))
  = if ev_is_bonus event then or_zero (ev_gross_override event) else grossPerPaycheck.
Proof.
  unfold processEvent.
  destruct (ev_is_bonus event), (ev_bonus_method event) as [[]|], (include_fica _);
    reflexivity.
Qed.

(** Every total after an event is the total before it plus the figure of
    the event's paycheck, and the paycheck reports the totals after it. *)
Lemma totals_after acc event :
  let acc' := fst (step acc event) in
  let result := snd (step acc event) in
  ytd result = acc'
  /\ ytd_gross acc' = ytd_gross acc + gross result
  /\ ytd_taxable_wages acc' = ytd_taxable_wages acc + taxable_wages result
  /\ ytd_k401_contribution acc' = ytd_k401_contribution acc + k401_contribution result
  /\ ytd_ss_wages acc' = ytd_ss_wages acc + gross result
  /\ ytd_medicare_wages acc' = ytd_medicare_wages acc + gross result
  /\ ytd_federal_withholding acc' = ytd_federal_withholding acc + federal_withholding result
  /\ ytd_fica_withholding acc' = ytd_fica_withholding acc + fica_withholding result
  /\ ytd_net acc' = ytd_net acc + net result.
Proof.
  unfold processEvent.
  destruct (ev_is_bonus event), (ev_bonus_method event) as [[]|], (include_fica _);
    cbv zeta; cbn [fst snd ytd ytd_gross ytd_taxable_wages ytd_k401_contribution
                   ytd_ss_wages ytd_medicare_wages ytd_federal_withholding
                   ytd_fica_withholding ytd_net gross taxable_wages k401_contribution
                   federal_withholding fica_withholding net];
    repeat split; reflexivity.
Qed.



(** Social Security: what an event is charged and what is left of the
    wage base after it. *)
Lemma ss_of_event acc event :
  ss_withholding (snd (step acc event))
  = if include_fica (fica_settings payrollSettings)
    then Qmin (gross (snd (step acc event)))
              (Qmax 0 (wageBaseInForce payrollSettings taxTables - ytd_ss_wages acc))
         * ss_rate (fica taxTables)
    else 0.
Proof.
  unfold processEvent, wageBaseInForce.
  destruct (ev_is_bonus event), (ev_bonus_method event) as [[]|],
    (include_fica (fica_settings payrollSettings)),
    (ss_wage_base_override (fica_settings payrollSettings)); reflexivity.
Qed.

Lemma ss_bounded events : forall acc,
  0 <= grossPerPaycheck ->
  Forall (fun event => 0 <= or_zero (ev_gross_override event)) events ->
  0 <= ss_rate (fica taxTables) ->
  Forall (fun result => 0 <= ss_withholding result) (fst (run acc events))
  /\ total_of ss_withholding (fst (run acc events))
     <= ss_rate (fica taxTables)
        * Qmax 0 (wageBaseInForce payrollSettings taxTables - ytd_ss_wages acc).
Proof.
  induction events as [|e events IH]; intros acc Hg He Hr.
  - simpl. split; [constructor|].
    apply Qmult_le_0_compat; [exact Hr | apply Q.le_max_l].
  - rewrite (processEvents_cons _ _ _ _ _ acc e events). cbn [fst snd total_of fold_right].
    fold (total_of ss_withholding (fst (run (fst (step acc e)) events))).
    inversion He as [|? ? He1 He2]; subst.
    destruct (IH (fst (step acc e)) Hg He2 Hr) as [IH1 IH2].
    destruct (totals_after acc e) as (_ & _ & _ & _ & Hw & _).
    cbv zeta in Hw. rewrite Hw in IH2.
    assert (Hge : 0 <= gross (snd (step acc e))).
    { rewrite gross_of_event. destruct (ev_is_bonus e); assumption. }
    pose proof (ss_of_event acc e) as Hss.
    set (g := gross (snd (step acc e))) in *.
    set (base := wageBaseInForce payrollSettings taxTables) in *.
    set (w := ytd_ss_wages acc) in *.
    set (rate := ss_rate (fica taxTables)) in *.
    assert (Hstep : Qmin g (Qmax 0 (base - w)) + Qmax 0 (base - (w + g))
                    <= Qmax 0 (base - w)).
    { apply wage_base_step. exact Hge. }
    assert (Hpos : 0 <= Qmin g (Qmax 0 (base - w))).
    { apply Q.min_glb; [exact Hge | apply Q.le_max_l]. }
    destruct (include_fica _); rewrite Hss.
    + split.
      * constructor; [|exact IH1]. rewrite Hss. apply Qmult_le_0_compat; assumption.
      * apply Qle_trans with
          (rate * (Qmin g (Qmax 0 (base - w)) + Qmax 0 (base - (w + g)))).
        -- rewrite Qmult_plus_distr_r. rewrite (Qmult_comm rate (Qmin _ _)).
           apply Qplus_le_r. exact IH2.
        -- rewrite !(Qmult_comm rate). apply Qmult_le_compat_r; assumption.
    + split.
      * constructor; [rewrite Hss; lra | exact IH1].
      * apply Qle_trans with (rate * Qmax 0 (base - (w + g))); [lra|].
        rewrite !(Qmult_comm rate). apply Qmult_le_compat_r; [|exact Hr].
        pose proof Hstep. lra.
Qed.


Lemma Qmax_eq (a b b' : Q) : b == b' -> Qmax a b == Qmax a b'.
Proof. intros H. rewrite H. reflexivity. Qed.


End Engine.

(** The events of the year to date have a gross pay that is not negative
    when no bonus is negative. *)
Lemma events_gross_nonneg monthId schedule anchorDate bonusEvents :
  Forall (fun bonus => 0 <= gross_amount bonus) bonusEvents ->
  Forall (fun event => 0 <= or_zero (ev_gross_override event))
         (buildPayrollEvents monthId schedule anchorDate bonusEvents).
Proof.
  intros Hb. apply List.Forall_forall. intros event Hin.
  unfold buildPayrollEvents in Hin. apply In_sort in Hin.
  apply in_app_or in Hin. destruct Hin as [Hin|Hin].
  - apply in_map_iff in Hin. destruct Hin as (d & <- & _). simpl. lra.
  - apply in_map_iff in Hin. destruct Hin as (b & <- & Hin).
    apply filter_In in Hin. destruct Hin as [Hin _].
    rewrite List.Forall_forall in Hb. simpl. apply Hb. exact Hin.
Qed.

Lemma periods_positive schedule : 0 < getPayPeriodsPerYear schedule.
Proof. destruct schedule; reflexivity. Qed.



(** X2: Social Security is withheld on the gross pay of the year up to the
    wage base and not beyond: when the salary, the bonuses and the rate
    are not negative, the Social Security withheld over the paychecks of
    the year to date, and over the paychecks of the month, is at most the
    rate times the wage base in force. *)
Theorem social_security_capped
        (monthId : string) (schedule : PayCycle) (anchorDate : string)
        (payrollSettings : PayrollSettings) (taxTables : TaxTableSet)
        (stateWithholding : option StateTaxPlugin) :
  0 <= salary_annual payrollSettings ->
  Forall (fun bonus => 0 <= gross_amount bonus) (bonus_events payrollSettings) ->
  0 <= ss_rate (fica taxTables) ->
  let limit := ss_rate (fica taxTables) * Qmax 0 (wageBaseInForce payrollSettings taxTables) in
  total_of ss_withholding
    (paychecksToDate monthId schedule anchorDate payrollSettings taxTables stateWithholding)
  <= limit
  /\ total_of ss_withholding
       (calculatePayrollForMonth monthId schedule anchorDate payrollSettings taxTables
                                 stateWithholding)
     <= limit.
Proof.
  intros Hs Hb Hr limit.
  assert (Hg : 0 <= salary_annual payrollSettings / getPayPeriodsPerYear schedule).
  { apply Qle_shift_div_l; [apply periods_positive | lra]. }
  destruct (ss_bounded (getPayPeriodsPerYear schedule)
              (salary_annual payrollSettings / getPayPeriodsPerYear schedule)
              payrollSettings taxTables stateWithholding
              (buildPayrollEvents monthId schedule anchorDate (bonus_events payrollSettings))
              ytd_start Hg (events_gross_nonneg _ _ _ _ Hb) Hr) as [Hpos Hle].
  assert (Hlimit : total_of ss_withholding
                     (paychecksToDate monthId schedule anchorDate payrollSettings taxTables
                                      stateWithholding) <= limit).
  { unfold paychecksToDate, limit. eapply Qle_trans; [exact Hle|].
    cbn [ytd_start ytd_ss_wages].
    rewrite (Qmax_eq 0 (wageBaseInForce payrollSettings taxTables - 0)
                       (wageBaseInForce payrollSettings taxTables)) by ring.
    apply Qle_refl. }
  split; [exact Hlimit|].
  unfold calculatePayrollForMonth. eapply Qle_trans; [|exact Hlimit].
  apply total_of_filter. exact Hpos.
Qed.

Lemma social_security_capped_witness :
  total_of ss_withholding
    (paychecksToDate "2024-04" monthly "2024-01-15" (sample_settings []) sample_tables None)
  <= (62 # 1000) * Qmax 0 (wageBaseInForce (sample_settings []) sample_tables)
  /\ total_of ss_withholding
       (calculatePayrollForMonth "2024-04" monthly "2024-01-15" (sample_settings [])
                                 sample_tables None)
     <= (62 # 1000) * Qmax 0 (wageBaseInForce (sample_settings []) sample_tables).
Proof.
  apply (social_security_capped "2024-04" monthly "2024-01-15" (sample_settings [])
           sample_tables None).
  - vm_compute. discriminate.
  - constructor.
  - vm_compute. discriminate.
Defined.



End PayrollTotals.

(** ** Federal withholding: monotonicity, the zero bracket, annualisation *)

Module WithholdingMore.

Import PayrollTypes Withholding SpecNotions WithholdingFacts.
Local Open Scope Q_scope.

Lemma min_with_upper_monotone a b upper :
  a <= b -> min_with_upper a upper <= min_with_upper b upper.
Proof.
  intros Hab. destruct upper as [u|]; simpl; [|exact Hab].
  apply Q.min_glb.
  - eapply Qle_trans; [apply Q.le_min_l | exact Hab].
  - apply Q.le_min_r.
Qed.

Lemma portion_monotone a b bracket :
  a <= b -> portion_in_bracket a bracket <= portion_in_bracket b bracket.
Proof.
  intros Hab. unfold portion_in_bracket.
  pose proof (min_with_upper_monotone a b (upperBound bracket) Hab) as Hm.
  apply Q.max_lub.
  - apply Q.le_max_l.
  - eapply Qle_trans; [|apply Q.le_max_r]. lra.
Qed.

Lemma portion_nonneg income bracket : 0 <= portion_in_bracket income bracket.
Proof. apply Q.le_max_l. Qed.

Lemma marginal_tax_nonneg income bs :
  Forall (fun bracket => 0 <= rate bracket) bs -> 0 <= marginal_tax income bs.
Proof.
  induction 1 as [|bracket bs Hr _ IH]; simpl; [lra|].
  pose proof (Qmult_le_0_compat _ _ (portion_nonneg income bracket) Hr). lra.
Qed.

Lemma marginal_tax_monotone a b bs :
  Forall (fun bracket => 0 <= rate bracket) bs -> a <= b ->
  marginal_tax a bs <= marginal_tax b bs.
Proof.
  intros Hbs Hab. induction Hbs as [|bracket bs Hr _ IH]; simpl; [lra|].
  pose proof (Qmult_le_compat_r _ _ (rate bracket) (portion_monotone a b bracket Hab) Hr).
  lra.
Qed.

(** Above zero the tax is the sum over the brackets. *)
Lemma tax_of_positive income bs :
  0 < income -> calculateAnnualTax income bs == marginal_tax income bs.
Proof.
  intros Hpos. unfold calculateAnnualTax.
  destruct (Qle_bool income 0) eqn:E.
  - apply Qle_bool_iff in E. lra.
  - rewrite reduce_adds. ring.
Qed.

Lemma tax_of_nonpositive income bs : income <= 0 -> calculateAnnualTax income bs = 0.
Proof.
  intros Hle. unfold calculateAnnualTax.
  apply Qle_bool_iff in Hle. rewrite Hle. reflexivity.
Qed.

Lemma tax_nonneg income bs :
  Forall (fun bracket => 0 <= rate bracket) bs -> 0 <= calculateAnnualTax income bs.
Proof.
  intros Hbs. destruct (Qlt_le_dec 0 income) as [Hpos|Hle].
  - rewrite tax_of_positive by exact Hpos. apply marginal_tax_nonneg. exact Hbs.
  - rewrite tax_of_nonpositive by exact Hle. lra.
Qed.

(** X4: with rates that are not negative, the annual tax is never
    negative and never falls when the taxable income rises, whatever the
    bounds of the brackets (overlapping, unordered or with gaps). *)
Theorem calculateAnnualTax_monotone (a b : Q) (bs : list TaxBracket) :
  Forall (fun bracket => 0 <= rate bracket) bs ->
  a <= b ->
  0 <= calculateAnnualTax a bs /\ calculateAnnualTax a bs <= calculateAnnualTax b bs.
Proof.
  intros Hbs Hab. split; [apply tax_nonneg; exact Hbs|].
  destruct (Qlt_le_dec 0 a) as [Ha|Ha].
  - rewrite !tax_of_positive by lra. apply marginal_tax_monotone; assumption.
  - rewrite (tax_of_nonpositive a) by exact Ha. apply tax_nonneg. exact Hbs.
Qed.

Lemma calculateAnnualTax_monotone_witness :
  0 <= calculateAnnualTax 9000 example_brackets
  /\ calculateAnnualTax 9000 example_brackets <= calculateAnnualTax 15000 example_brackets.
Proof.
  apply (calculateAnnualTax_monotone 9000 15000 example_brackets).
  - repeat constructor; vm_compute; discriminate.
  - vm_compute. discriminate.
Defined.

Lemma Qmax_zero_left (x : Q) : 0 <= x -> Qmax 0 x == x.
Proof. intros H. apply Q.max_r. exact H. Qed.

Lemma credit_of_input (i : WithholdingInput) :
  match dependentCreditOverride i with
  | Some c => c
  | None => dependentsCount i * dependentCredit i
  end
  = default (dependentsCount i * dependentCredit i) (dependentCreditOverride i).
Proof. destruct (dependentCreditOverride i); reflexivity. Qed.

(** X5: when the annualised wages and the other income do not exceed
    the standard deduction and the other deductions, and the dependent
    credit is not negative, nothing but the extra withholding is withheld
    from the paycheck (and nothing at all when the extra withholding is
    negative). *)
Theorem no_withholding_below_deductions (i : WithholdingInput) :
  0 < payPeriodsPerYear i ->
  taxableWagesPerPaycheck i * payPeriodsPerYear i + otherIncomeAnnual i
  <= standardDeduction i + deductionsAnnual i ->
  0 <= default (dependentsCount i * dependentCredit i) (dependentCreditOverride i) ->
  calculateFederalWithholding i == Qmax 0 (extraWithholdingPerPaycheck i).
Proof.
  intros Hp Hi Hc. unfold calculateFederalWithholding. cbv zeta.
  rewrite credit_of_input.
  set (credit := default _ (dependentCreditOverride i)) in *.
  set (income := _ - (standardDeduction i + deductionsAnnual i)).
  assert (Hz : Qmax 0 income <= 0) by (apply Q.max_lub; unfold income; lra).
  rewrite (tax_of_nonpositive _ (brackets i) Hz).
  assert (E : Qmax 0 (0 - credit) == 0) by (apply Q.max_l; lra).
  apply Q.max_compat; [reflexivity|]. rewrite E. field. lra.
Qed.

Lemma no_withholding_below_deductions_witness :
  calculateFederalWithholding
    {| taxableWagesPerPaycheck := 1000; payPeriodsPerYear := 12;
       filingStatus := single; standardDeduction := 14600; deductionsAnnual := 0;
       otherIncomeAnnual := 500; brackets := example_brackets;
       dependentCredit := 2000; dependentsCount := 1;
       dependentCreditOverride := None; extraWithholdingPerPaycheck := 25 |}
  == Qmax 0 25.
Proof.
  apply (no_withholding_below_deductions
           {| taxableWagesPerPaycheck := 1000; payPeriodsPerYear := 12;
              filingStatus := single; standardDeduction := 14600; deductionsAnnual := 0;
              otherIncomeAnnual := 500; brackets := example_brackets;
              dependentCredit := 2000; dependentsCount := 1;
              dependentCreditOverride := None; extraWithholdingPerPaycheck := 25 |}).
  - reflexivity.
  - vm_compute. discriminate.
  - vm_compute. discriminate.
Defined.

(** X6: with no dependent credit, no extra withholding and no
    negative rate, the withholding of one paycheck times the number of pay
    periods of the year is the annual tax on the annualised wages plus the
    other income, after the standard deduction and the other deductions. *)
Theorem federal_withholding_annualised (i : WithholdingInput) :
  0 < payPeriodsPerYear i ->
  default (dependentsCount i * dependentCredit i) (dependentCreditOverride i) == 0 ->
  extraWithholdingPerPaycheck i == 0 ->
  Forall (fun bracket => 0 <= rate bracket) (brackets i) ->
  calculateFederalWithholding i * payPeriodsPerYear i
  == calculateAnnualTax
       (Qmax 0 (taxableWagesPerPaycheck i * payPeriodsPerYear i + otherIncomeAnnual i
                - (standardDeduction i + deductionsAnnual i)))
       (brackets i).
Proof.
  intros Hp Hc He Hbs. unfold calculateFederalWithholding. cbv zeta.
  rewrite credit_of_input.
  set (credit := default _ (dependentCreditOverride i)) in *.
  set (income := _ - (standardDeduction i + deductionsAnnual i)).
  pose proof (tax_nonneg (Qmax 0 income) (brackets i) Hbs) as Ht.
  set (tax := calculateAnnualTax (Qmax 0 income) (brackets i)) in *.
  assert (E1 : Qmax 0 (tax - credit) == tax)
    by (rewrite Hc; rewrite Q.max_r by lra; ring).
  assert (E2 : Qmax 0 (Qmax 0 (tax - credit) / payPeriodsPerYear i
                       + extraWithholdingPerPaycheck i)
               == tax / payPeriodsPerYear i).
  { rewrite E1, He. rewrite Q.max_r.
    - ring.
    - assert (0 <= tax / payPeriodsPerYear i) by (apply Qle_shift_div_l; lra). lra. }
  rewrite E2. field. lra.
Qed.

Lemma federal_withholding_annualised_witness :
  calculateFederalWithholding
    {| taxableWagesPerPaycheck := 1250; payPeriodsPerYear := 12;
       filingStatus := single; standardDeduction := 0; deductionsAnnual := 0;
       otherIncomeAnnual := 0; brackets := example_brackets;
       dependentCredit := 0; dependentsCount := 0;
       dependentCreditOverride := None; extraWithholdingPerPaycheck := 0 |} * 12
  == calculateAnnualTax (Qmax 0 (1250 * 12 + 0 - (0 + 0))) example_brackets.
Proof.
  apply (federal_withholding_annualised
           {| taxableWagesPerPaycheck := 1250; payPeriodsPerYear := 12;
              filingStatus := single; standardDeduction := 0; deductionsAnnual := 0;
              otherIncomeAnnual := 0; brackets := example_brackets;
              dependentCredit := 0; dependentsCount := 0;
              dependentCreditOverride := None; extraWithholdingPerPaycheck := 0 |}).
  - reflexivity.
  - reflexivity.
  - reflexivity.
  - repeat constructor; vm_compute; discriminate.
Defined.

End WithholdingMore.

(** ** Calendar: reading a date back, and the dates of an interval schedule *)

Module CalendarMore.

Import JS Calendar SpecNotions Days JSFacts CalendarFacts StringFacts ScheduleFacts.
Local Open Scope string_scope.
Local Open Scope Z_scope.
Local Arguments String.append !_ _ / : simpl nomatch.

(** The days of the years from 100 on are the days from 0100-01-01 on. *)
Lemma from_year_100 y m d :
  1 <= m <= 12 -> 1 <= d <= 31 ->
  (100 <= y <-> days_from_civil 100 1 1 <= days_from_civil y m d).
Proof.
  intros Hm Hd. unfold days_from_civil. cbv zeta.
  change (1 <=? 2)%Z with true. cbv iota.
  destruct (m <=? 2)%Z eqn:E; [apply Z.leb_le in E | apply Z.leb_gt in E];
    split; intros H; Z.div_mod_to_equations; lia.
Qed.

Lemma year_of_day z :
  100 <= fst (fst (civil_from_days z)) <-> days_from_civil 100 1 1 <= z.
Proof.
  pose proof (civil_from_days_spec z) as H.
  destruct (civil_from_days z) as [[y m] d]. destruct H as (Hm & Hd & Hz).
  cbn [fst]. rewrite <- Hz. apply from_year_100; assumption.
Qed.

(** Cutting at the hyphens the text of a date. *)
Lemma split_date a b c :
  all_digits a = true -> all_digits b = true -> all_digits c = true ->
  split "-" (a ++ "-" ++ b ++ "-" ++ c) = [a; b; c].
Proof.
  intros Ha Hb Hc. unfold split. rewrite split_go_digits by exact Ha.
  simpl. unfold String.rev. rewrite rev_app_twice. simpl. rewrite append_empty. f_equal.
  apply (split_month_id b c Hb Hc).
Qed.

(** [new Date(y, m - 1, d)] for a year from 100 on and a month from 1 to
    12. *)
Lemma newDate_civil y m d :
  100 <= y -> 1 <= m <= 12 ->
  newDate (Some y) (sub (Some m) (Some 1)) (Some d) = Some (days_from_civil y m d).
Proof.
  intros Hy Hm. unfold newDate, sub, lift2.
  replace ((0 <=? y) && (y <=? 99))%Z with false
    by (symmetry; apply andb_false_iff; right; apply Z.leb_gt; lia).
  destruct (month_index 0 m Hm) as [Hq Hr].
  rewrite Z.mul_0_l, Z.add_0_l in Hq, Hr. rewrite Hq, Hr, Z.add_0_r.
  rewrite (days_from_civil_day y m d). reflexivity.
Qed.

(** X7: a date of the year 100 or later is read back from its
    text: [parseDate (formatDate date)] is the date.  (The text of an
    earlier date is read as another date, since a year from 0 to 99 is
    taken for 1900 to 1999 and a negative year starts with a hyphen.) *)
Theorem parseDate_formatDate (date : Date) (y : Z) :
  getFullYear date = Some y -> 100 <= y -> parseDate (formatDate date) = date.
Proof.
  intros Hyear Hy. destruct date as [z|]; [|discriminate].
  rewrite formatDate_parts. unfold getFullYear, option_map in Hyear.
  pose proof (civil_from_days_spec z) as H.
  destruct (civil_from_days z) as [[y' m] d]. cbn [fst] in Hyear.
  injection Hyear as ->. destruct H as (Hm & Hd & Hz).
  destruct (Number_toString y ltac:(lia)) as [Dy Ny].
  destruct (two_digits_number m ltac:(lia)) as [Dm Nm].
  destruct (two_digits_number d ltac:(lia)) as [Dd Nd].
  unfold parseDate. rewrite split_date by assumption.
  unfold nth_Number. cbn [nth_error]. rewrite Ny, Nm, Nd.
  rewrite newDate_civil by assumption. rewrite Hz. reflexivity.
Qed.

Lemma parseDate_formatDate_witness :
  parseDate (formatDate (Some 19797)) = Some 19797.
Proof.
  apply (parseDate_formatDate (Some 19797) 2024).
  - reflexivity.
  - lia.
Defined.

Example text_of_day_19797 : formatDate (Some 19797) = "2024-03-15".
Proof. reflexivity. Qed.

(** A date read back wrongly: the first day of the year 50 is written
    "50-01-01", which is read as the first day of 1950. *)
Example year_50_is_read_as_1950 :
  formatDate (Some (days_from_civil 50 1 1)) = "50-01-01"
  /\ parseDate "50-01-01" = Some (days_from_civil 1950 1 1).
Proof. split; reflexivity. Qed.

(** From the year 100 on, [new Date(y, m, d + n)] from the parts of a day
    is the day [n] days later. *)
Lemma stepDate_exact z n :
  days_from_civil 100 1 1 <= z -> stepDate (Some z) n = Some (z + n).
Proof.
  intros Hz. apply year_of_day in Hz.
  unfold stepDate, getFullYear, getMonth, getDate, add, lift2, option_map.
  pose proof (civil_from_days_spec z) as H.
  destruct (civil_from_days z) as [[y m] d]. cbn [fst snd] in *.
  destruct H as (Hm & Hd & Hday).
  change (Some (m - 1)) with (sub (Some m) (Some 1)).
  rewrite newDate_civil by assumption.
  rewrite days_from_civil_day. rewrite days_from_civil_day in Hday. f_equal. lia.
Qed.

Lemma on_schedule_hit anchor interval k :
  1 <= interval -> 0 <= k -> on_schedule anchor interval (anchor + k * interval) = true.
Proof.
  intros Hn Hk. unfold on_schedule. apply andb_true_iff. split.
  - apply Z.leb_le. nia.
  - apply Z.eqb_eq. replace (anchor + k * interval - anchor) with (k * interval) by ring.
    apply Z_mod_mult.
Qed.

Lemma on_schedule_miss anchor interval k day :
  1 <= interval -> 0 <= k ->
  (k = 0 \/ anchor + k * interval - interval < day) -> day < anchor + k * interval ->
  on_schedule anchor interval day = false.
Proof.
  intros Hn Hk Hlow Hhigh. unfold on_schedule.
  destruct (anchor <=? day) eqn:E; [|reflexivity]. apply Z.leb_le in E.
  destruct Hlow as [->|Hlow]; [lia|].
  simpl. apply Z.eqb_neq.
  replace (day - anchor)
    with (day - (anchor + k * interval - interval) + (k - 1) * interval) by ring.
  rewrite Z_mod_plus_full, Z.mod_small; lia.
Qed.

Lemma days_from_next first len :
  days_from first (S len) = first :: days_from (first + 1) len.
Proof.
  unfold days_from. cbn [seq map]. f_equal; [lia|].
  rewrite <- seq_shift, map_map. apply map_ext. intros k. lia.
Qed.

(** The first loop stops at the first day of the schedule that is not
    before the start. *)
Lemma advance_loop_reaches anchor interval start :
  1 <= interval -> days_from_civil 100 1 1 <= anchor ->
  forall fuel k,
    0 <= k -> (k = 0 \/ anchor + k * interval - interval < start) ->
    (days_until (Some (anchor + k * interval)%Z) (Some start) <= fuel)%nat ->
    exists k',
      advance_loop fuel (Some start) (Some (anchor + k * interval)) interval
      = Some (anchor + k' * interval)
      /\ 0 <= k' /\ start <= anchor + k' * interval
      /\ (k' = 0 \/ anchor + k' * interval - interval < start).
Proof.
  intros Hn Ha. induction fuel as [|fuel IH]; intros k Hk Hinv Hfuel.
  - exists k. simpl in *. repeat split; try assumption. lia.
  - cbn [advance_loop date_lt].
    destruct (anchor + k * interval <? start) eqn:E.
    + apply Z.ltb_lt in E. rewrite stepDate_exact by nia.
      replace (anchor + k * interval + interval) with (anchor + (k + 1) * interval) by ring.
      apply IH; [lia | right; lia |].
      simpl in *. lia.
    + apply Z.ltb_ge in E. exists k. repeat split; assumption.
Qed.

(** The second loop gives the days of the schedule up to the end. *)
Lemma collect_loop_schedule anchor interval start end_ :
  1 <= interval -> days_from_civil 100 1 1 <= anchor ->
  forall len first fuel k,
    end_ = first + Z.of_nat len - 1 ->
    start <= first -> first <= anchor + k * interval -> 0 <= k ->
    (k = 0 \/ anchor + k * interval - interval < first) ->
    (Z.to_nat (end_ + 1 - (anchor + k * interval))%Z <= fuel)%nat ->
    collect_loop fuel (Some start) (Some end_) (Some (anchor + k * interval)) interval
    = map (fun day => formatDate (Some day))
          (List.filter (on_schedule anchor interval) (days_from first len)).
Proof.
  intros Hn Ha. induction len as [|len IH]; intros first fuel k He Hs Hf Hk Hinv Hfuel.
  - destruct fuel as [|fuel]; [reflexivity|].
    cbn [collect_loop date_le].
    replace (anchor + k * interval <=? end_) with false
      by (symmetry; apply Z.leb_gt; lia).
    reflexivity.
  - rewrite days_from_next. cbn [List.filter].
    destruct (Z.eq_dec first (anchor + k * interval)) as [Heq|Hne].
    + rewrite Heq at 1. rewrite on_schedule_hit by assumption. cbn [map].
      destruct fuel as [|fuel]; [lia|].
      cbn [collect_loop date_le date_ge].
      replace (anchor + k * interval <=? end_) with true
        by (symmetry; apply Z.leb_le; lia).
      replace (start <=? anchor + k * interval) with true
        by (symmetry; apply Z.leb_le; lia).
      cbn [app]. f_equal; [rewrite Heq; reflexivity|].
      rewrite stepDate_exact by nia.
      replace (anchor + k * interval + interval) with (anchor + (k + 1) * interval) by ring.
      apply IH; [lia | lia | lia | lia | right; lia | lia].
    + rewrite (on_schedule_miss anchor interval k first) by (try assumption; lia).
      apply IH; [lia | lia | lia | lia | destruct Hinv; [left; assumption | right; lia] | lia].
Qed.

(** X8: the dates of an interval schedule (weekly, every two weeks),
    for an anchor date of the year 100 or later: the days from the start to
    the end that are the anchor day or a whole number of intervals after
    it, in order, each written as a date.  No date comes before the anchor,
    and there is none when the anchor is after the end or the end before
    the start. *)
Theorem datesByInterval_schedule (start end_ anchor interval : Z) :
  1 <= interval -> days_from_civil 100 1 1 <= anchor ->
  datesByInterval (Some start) (Some end_) (Some anchor) interval
  = map (fun day => formatDate (Some day))
        (List.filter (on_schedule anchor interval) (days_from_to start end_)).
Proof.
  intros Hn Ha. unfold datesByInterval.
  destruct (advance_loop_reaches anchor interval start Hn Ha
              (days_until (Some anchor) (Some start)) 0 ltac:(lia) ltac:(left; reflexivity))
    as (k & Hk & Hk0 & Hs & Hinv).
  { replace (anchor + 0 * interval) with anchor by ring. apply Nat.le_refl. }
  replace (anchor + 0 * interval) with anchor in Hk by ring.
  rewrite Hk. unfold days_from_to.
  destruct (Z_le_gt_dec start (end_ + 1)) as [Hle|Hgt].
  - apply collect_loop_schedule; try assumption; try lia.
    simpl. lia.
  - replace (Z.to_nat (end_ - start + 1)) with O by lia.
    cbn [days_from seq map List.filter].
    cbn [collect_loop date_le].
    replace (anchor + k * interval <=? end_) with false
      by (symmetry; apply Z.leb_gt; lia).
    reflexivity.
Qed.

Lemma datesByInterval_schedule_witness :
  datesByInterval (Some 19783) (Some 19813) (Some 19727) 14
  = map (fun day => formatDate (Some day))
        (List.filter (on_schedule 19727 14) (days_from_to 19783 19813)).
Proof.
  apply (datesByInterval_schedule 19783 19813 19727 14).
  - lia.
  - vm_compute. discriminate.
Defined.

(** March 2024 with an anchor on 2024-01-05 and an interval of 14 days. *)
Example biweekly_dates_of_march_2024 :
  parseDate "2024-03-01" = Some 19783 /\ parseDate "2024-03-31" = Some 19813
  /\ parseDate "2024-01-05" = Some 19727
  /\ datesByInterval (Some 19783) (Some 19813) (Some 19727) 14
     = ["2024-03-01"; "2024-03-15"; "2024-03-29"].
Proof. repeat split; reflexivity. Qed.

(** X9: the payroll engine and the transaction generator each compute
    the pay dates of a month, with code of their own.  For a month of the
    years 100 to 275759 and an anchor date made of digits and hyphens that
    lies within the days of a [Date], they give the same dates on every
    schedule, with one exception: on a monthly schedule with an anchor date
    that has no day to read (the empty text, or a year and a month only),
    the engine gives the text of the month followed by "-NaN" and the
    generator gives the first day of the month. *)
Theorem pay_dates_of_engine_and_generator
        (y m : Z) (schedule : Types.PaycheckSchedule) (anchorDate : string) :
  100 <= y <= last_full_year -> 1 <= m <= 12 ->
  plain_date_text anchorDate = true ->
  let monthId := monthIdOf y m in
  match schedule, getDate (parseDate anchorDate) with
  | Types.sch_monthly, None =>
      Payroll.getPayDatesForMonth monthId (asPayCycle schedule) anchorDate
      = [ monthId ++ "-NaN" ]
      /\ Generation.getScheduleDates monthId schedule anchorDate = [ monthId ++ "-01" ]
  | _, _ =>
      Payroll.getPayDatesForMonth monthId (asPayCycle schedule) anchorDate
      = Generation.getScheduleDates monthId schedule anchorDate
  end.
Proof.
  intros Hy Hm _ monthId. destruct schedule.
  - destruct (getDate (parseDate anchorDate)); reflexivity.
  - destruct (getDate (parseDate anchorDate)); reflexivity.
  - destruct (getDate (parseDate anchorDate)); reflexivity.
  - unfold Payroll.getPayDatesForMonth, Generation.getScheduleDates, asPayCycle.
    destruct (getDate (parseDate anchorDate)) as [day|] eqn:Eday.
    + unfold Payroll.getMonthlyDate, Generation.getMonthlyDate.
      assert (Hfit : fits_double day = true).
      { unfold getDate, option_map in Eday.
        destruct (parseDate anchorDate) as [z|]; [|discriminate].
        pose proof (civil_from_days_spec z) as Hs.
        destruct (civil_from_days z) as [[? ?] d]. cbn [snd] in Eday.
        injection Eday as <-. apply fits_double_small. lia. }
      assert (Hlast : String.eqb (toString (Some day)) "last" = false).
      { apply String.eqb_neq. intros H.
        pose proof (read_int_toString day) as P. rewrite H in P. discriminate P. }
      assert (Hday : startsWith (toString (Some day)) "day:" = false).
      { unfold startsWith. destruct (String.prefix "day:" (toString (Some day))) eqn:E; [|reflexivity].
        apply String.prefix_correct in E.
        pose proof (toString_colon_free (Some day)) as C.
        destruct (toString (Some day)) as [|c1 [|c2 [|c3 [|c4 r]]]]; try discriminate E.
        simpl in E. injection E as -> -> -> ->. discriminate C. }
      rewrite Hlast, Hday, parseInt_toString by exact Hfit. reflexivity.
    + split; [reflexivity|].
      destruct (month_id_readable y m ltac:(lia) Hm) as (D & HD). fold monthId in HD.
      pose proof (daysInMonth_range monthId D HD) as HR.
      assert (P : parseInt (toString None) = None) by reflexivity.
      unfold Generation.getMonthlyDate. rewrite HD.
      change (String.eqb (toString None) "last") with false.
      change (startsWith (toString None) "day:") with false.
      cbv iota zeta. rewrite P. cbn [isFinite Math_max Math_min lift2].
      replace (Z.min (Z.max 1 1) D) with 1 by lia. reflexivity.
Qed.

(** The theorem at work: March 2024 on a monthly schedule, with an anchor
    date that was not entered. *)
Lemma pay_dates_of_engine_and_generator_witness :
  Payroll.getPayDatesForMonth (monthIdOf 2024 3) (asPayCycle Types.sch_monthly) ""
  = [ monthIdOf 2024 3 ++ "-NaN" ]
  /\ Generation.getScheduleDates (monthIdOf 2024 3) Types.sch_monthly ""
     = [ monthIdOf 2024 3 ++ "-01" ].
Proof.
  apply (pay_dates_of_engine_and_generator 2024 3 Types.sch_monthly "").
  - unfold last_full_year. lia.
  - lia.
  - reflexivity.
Defined.

(** Pay dates of March 2024 on a monthly schedule: an anchor on the 31st of
    January, and an anchor of a year and a month only. *)
Example monthly_pay_dates :
  Payroll.getPayDatesForMonth "2024-03" PayrollTypes.monthly "2024-01-31" = ["2024-03-31"]
  /\ Generation.getScheduleDates "2024-03" Types.sch_monthly "2024-01-31" = ["2024-03-31"]
  /\ Payroll.getPayDatesForMonth "2024-03" PayrollTypes.monthly "2024-01" = ["2024-03-NaN"]
  /\ Generation.getScheduleDates "2024-03" Types.sch_monthly "2024-01" = ["2024-03-01"].
Proof. vm_compute. repeat split; reflexivity. Qed.

End CalendarMore.

(** ** Calendar: the months *)

Module MonthFacts.

Import JS Calendar SpecNotions Days JSFacts CalendarFacts StringFacts ScheduleFacts CalendarMore.
Local Open Scope string_scope.
Local Open Scope Z_scope.

(** The months of 400 years, checked one by one. *)
Lemma months_checked : snd (check_range month_ok 0 4800) = true.
Proof. vm_cast_no_check (eq_refl true). Qed.

(** 4800 months later is 146097 days later. *)
Lemma month_start_cycle i k : month_start (i + 4800 * k) = month_start i + 146097 * k.
Proof.
  unfold month_start, year_of_month, month_of_month.
  replace (i + 4800 * k) with (i + (400 * k) * 12) by ring.
  rewrite Z.div_add, Z_mod_plus_full by lia.
  apply days_from_civil_cycle.
Qed.

Lemma month_facts i :
  civil_from_days (month_start i) = (year_of_month i, month_of_month i, 1)
  /\ civil_from_days (month_start (i + 1) - 1)
     = (year_of_month i, month_of_month i, month_length i)
  /\ 28 <= month_length i <= 31.
Proof.
  set (k := i / 4800). set (i0 := i mod 4800).
  assert (Hi : i = i0 + 4800 * k) by (unfold i0, k; pose proof (Z.div_mod i 4800); lia).
  pose proof (Z.mod_pos_bound i 4800 ltac:(lia)) as Hb. fold i0 in Hb.
  pose proof (check_range_sound _ _ _ months_checked i0 ltac:(lia)) as H.
  unfold month_ok in H. cbv zeta in H.
  rewrite !andb_true_iff, !Z.eqb_eq, !Z.leb_le in H.
  destruct H as [[[[[[[H1 H2] H3] H4] H5] H6] H7] H8].
  assert (Hy : year_of_month i = year_of_month i0 + 400 * k).
  { unfold year_of_month. rewrite Hi.
    replace (i0 + 4800 * k) with (i0 + (400 * k) * 12) by ring.
    rewrite Z.div_add by lia. reflexivity. }
  assert (Hm : month_of_month i = month_of_month i0).
  { unfold month_of_month. rewrite Hi.
    replace (i0 + 4800 * k) with (i0 + (400 * k) * 12) by ring.
    rewrite Z_mod_plus_full. reflexivity. }
  assert (Hl : month_length i = month_length i0).
  { unfold month_length. rewrite Hi.
    replace (i0 + 4800 * k + 1) with (i0 + 1 + 4800 * k) by ring.
    rewrite !month_start_cycle. ring. }
  rewrite Hy, Hm, Hl. repeat split; try lia.
  - rewrite Hi, month_start_cycle, civil_from_days_cycle.
    destruct (civil_from_days (month_start i0)) as [[y m] d]. cbn [fst snd] in *.
    rewrite H1, H2, H3. reflexivity.
  - rewrite Hi. replace (i0 + 4800 * k + 1) with (i0 + 1 + 4800 * k) by ring.
    rewrite month_start_cycle.
    replace (month_start (i0 + 1) + 146097 * k - 1)
      with (month_start (i0 + 1) - 1 + 146097 * k) by ring.
    rewrite civil_from_days_cycle.
    destruct (civil_from_days (month_start (i0 + 1) - 1)) as [[y m] d]. cbn [fst snd] in *.
    rewrite H4, H5, H6. reflexivity.
Qed.

(** The number of a month from its year and its month from 1 to 12. *)
Lemma month_number y m :
  1 <= m <= 12 ->
  year_of_month (12 * y + (m - 1)) = y /\ month_of_month (12 * y + (m - 1)) = m.
Proof.
  intros Hm. unfold year_of_month, month_of_month.
  split; Z.div_mod_to_equations; lia.
Qed.


(** The months come one after the other. *)
Lemma month_start_increasing i j : i < j -> month_start i < month_start j.
Proof.
  intros Hij.
  assert (H : forall n : nat, month_start i < month_start (i + 1 + Z.of_nat n)).
  { induction n as [|n IH].
    - replace (i + 1 + Z.of_nat 0) with (i + 1) by lia.
      pose proof (month_facts i) as (_ & _ & Hl). unfold month_length in Hl. lia.
    - replace (i + 1 + Z.of_nat (S n)) with (i + 1 + Z.of_nat n + 1) by lia.
      pose proof (month_facts (i + 1 + Z.of_nat n)) as (_ & _ & Hl).
      unfold month_length in Hl. lia. }
  specialize (H (Z.to_nat (j - i - 1))).
  replace (i + 1 + Z.of_nat (Z.to_nat (j - i - 1))) with j in H by lia. exact H.
Qed.

(** The lengths of the months of 400 years, checked one by one against
    the calendar. *)
Lemma month_days_checked : snd (check_range month_days_ok 0 4800) = true.
Proof. vm_cast_no_check (eq_refl true). Qed.

Lemma is_leap_cycle y k : is_leap (y + 400 * k) = is_leap y.
Proof.
  unfold is_leap.
  replace (y + 400 * k) with (y + (100 * k) * 4) at 1 by ring.
  replace (y + 400 * k) with (y + (4 * k) * 100) at 1 by ring.
  replace (y + 400 * k) with (y + k * 400) by ring.
  rewrite !Z_mod_plus_full. reflexivity.
Qed.

(** The length of a month is that of the calendar. *)
Lemma month_length_calendar i :
  month_length i = calendar_days (year_of_month i) (month_of_month i).
Proof.
  set (k := i / 4800). set (i0 := i mod 4800).
  assert (Hi : i = i0 + 4800 * k) by (unfold i0, k; pose proof (Z.div_mod i 4800); lia).
  pose proof (Z.mod_pos_bound i 4800 ltac:(lia)) as Hb. fold i0 in Hb.
  pose proof (check_range_sound _ _ _ month_days_checked i0 ltac:(lia)) as H.
  unfold month_days_ok in H. apply Z.eqb_eq in H.
  assert (Hy : year_of_month i = year_of_month i0 + 400 * k).
  { unfold year_of_month. rewrite Hi.
    replace (i0 + 4800 * k) with (i0 + (400 * k) * 12) by ring.
    rewrite Z.div_add by lia. reflexivity. }
  assert (Hm : month_of_month i = month_of_month i0).
  { unfold month_of_month. rewrite Hi.
    replace (i0 + 4800 * k) with (i0 + (400 * k) * 12) by ring.
    rewrite Z_mod_plus_full. reflexivity. }
  assert (Hl : month_length i = month_length i0).
  { unfold month_length. rewrite Hi.
    replace (i0 + 4800 * k + 1) with (i0 + 1 + 4800 * k) by ring.
    rewrite !month_start_cycle. ring. }
  rewrite Hy, Hm, Hl, H. unfold calendar_days. rewrite is_leap_cycle. reflexivity.
Qed.




End MonthFacts.

(** ** Forecast: the balance of every account on every day *)

Module ForecastBalances.

Import JS Calendar Types Forecasting SpecNotions Totals Days ForecastNotions.
Import JSFacts CalendarFacts StringFacts ScheduleFacts ForecastFacts KeyFacts PayrollTotals
       MonthFacts.
Local Open Scope string_scope.
Local Open Scope Q_scope.
Local Arguments String.append !_ _ / : simpl nomatch.









Lemma flat_map_dates {A} (g : Z -> string) (f : string -> list A) days :
  flat_map (fun day => f (g day)) days = flat_map f (map g days).
Proof. induction days as [|d days IH]; simpl; [reflexivity|]. rewrite IH. reflexivity. Qed.

(** The points of the loop over the days, cut at a point: the days are cut
    at the same place, and the point holds the balances after the
    transactions of the days up to its own. *)
Lemma forecastDays_cut yearMonth accounts sortedTx before :
  forall days m point after,
    forecastDays yearMonth accounts sortedTx m days = (before ++ point :: after)%list ->
    exists days1 day days2,
      days = (days1 ++ day :: days2)%list
      /\ map point_date (before ++ [point])%list
         = map (fun day => dateInMonth yearMonth (Some day)) (days1 ++ [day])%list
      /\ balances point
         = fold_left applyTransaction
             (flat_map (fun date => List.filter (fun tx => String.eqb (tx_date tx) date)
                                                sortedTx)
                       (map (fun day => dateInMonth yearMonth (Some day))
                            (days1 ++ [day])%list))
             m
      /\ total_cash point = cashAccountsTotal accounts (balances point).
Proof.
  induction before as [|p before IH]; intros days m point after H.
  - destruct days as [|day days]; [discriminate|].
    cbn [forecastDays forecastDay] in H. simpl in H. injection H as Hp Hrest.
    exists [], day, days. subst point. cbn [app map flat_map balances total_cash point_date].
    rewrite app_nil_r. repeat split; reflexivity.
  - destruct days as [|day0 days]; [discriminate|].
    cbn [forecastDays forecastDay] in H. simpl in H. injection H as Hp Hrest.
    destruct (IH _ _ _ _ Hrest) as (days1 & day & days2 & Hd & Hdates & Hb & Ht).
    exists (day0 :: days1), day, days2. subst days p.
    cbn [app map flat_map point_date]. rewrite fold_left_app.
    repeat split; try assumption.
    f_equal. exact Hdates.
Qed.






(** The checking account of the sample on the 4th, the 5th, the 10th and
    the 31st of March. *)
Example checking_of_the_sample :
  map (fun day => Qred <$> (balances <$> nth_error (calculateForecast sample_month) day)
                           ≫= (fun m => m !! "acc1"))
      [3%nat; 4%nat; 9%nat; 30%nat]
  = [Some 1000; Some 2500; Some 2300; Some 2300].
Proof. vm_compute. reflexivity. Qed.

(** The number of days that the forecast reads from a month identifier. *)
Lemma days_of_month_id y m :
  (100 <= y <= last_full_year)%Z -> (1 <= m <= 12)%Z ->
  let parts := split "-" (monthIdOf y m) in
  getDate (newDate (parseInt_any (nth 0 parts "")) (parseInt_any (nth 1 parts ""))
                   (Some 0%Z))
  = Some (calendar_days y m).
Proof.
  intros Hy Hm. cbv zeta. unfold monthIdOf.
  destruct (Number_toString y ltac:(lia)) as [Dy _].
  destruct (two_digits_number m ltac:(lia)) as [Dm _].
  destruct (two_digits m ltac:(lia)) as [_ Pm].
  rewrite (split_month_id _ _ Dy Dm). cbn [nth].
  rewrite !parseInt_any_digits by assumption.
  rewrite parseInt_toString, Pm
    by (apply fits_double_small; unfold last_full_year in Hy; lia).
  unfold newDate.
  replace ((0 <=? y) && (y <=? 99))%Z with false
    by (symmetry; apply andb_false_iff; right; apply Z.leb_gt; lia).
  set (i := (12 * y + (m - 1))%Z).
  destruct (month_number y m Hm) as [Hyear Hmonth]. fold i in Hyear, Hmonth.
  replace (days_from_civil (y + m / 12) (m mod 12 + 1) 1 + (0 - 1))%Z
    with (month_start (i + 1) - 1)%Z.
  - unfold getDate, option_map. destruct (month_facts i) as (_ & -> & _). cbn [snd].
    rewrite month_length_calendar, Hyear, Hmonth. reflexivity.
  - unfold month_start, year_of_month, month_of_month, i.
    replace (12 * y + (m - 1) + 1)%Z with (m + y * 12)%Z by ring.
    rewrite Z.div_add, Z_mod_plus_full by lia.
    replace (m / 12 + y)%Z with (y + m / 12)%Z by ring. ring.
Qed.

(** The dates of the points are those of the days. *)
Lemma forecastDays_dates yearMonth accounts sortedTx days : forall m,
  map point_date (forecastDays yearMonth accounts sortedTx m days)
  = map (fun day => dateInMonth yearMonth (Some day)) days.
Proof.
  induction days as [|day days IH]; intros m; [reflexivity|].
  cbn [forecastDays forecastDay map]. simpl. f_equal. apply IH.
Qed.

Lemma daysOfMonth_days n : daysOfMonth (Some n) = days_from 1 (Z.to_nat n).
Proof.
  unfold daysOfMonth, days_from. rewrite <- seq_shift, map_map.
  apply map_ext. intros k. lia.
Qed.

(** X11: the forecast of a month of the years 100 to 275759, for a
    snapshot in which no account and no transaction names a property that a
    plain object inherits, has one point for every day that the month has
    by the calendar, in the order of the days, each dated with the month
    identifier and the day in two digits.  Every point lists a balance for
    exactly the accounts of the snapshot, and its total cash is the sum of
    the balances it lists for the accounts that are included in the cash
    forecast and are not investment accounts. *)
Theorem forecast_points (snapshot : MonthSnapshot) (y m : Z) :
  (100 <= y <= last_full_year)%Z -> (1 <= m <= 12)%Z ->
  snapshot_id snapshot = monthIdOf y m ->
  keyed_plainly snapshot = true ->
  let points := calculateForecast snapshot in
  map point_date points
  = map (fun day => dateInMonth (snapshot_id snapshot) (Some day))
        (days_from 1 (Z.to_nat (calendar_days y m)))
  /\ Forall (fun point =>
               (forall id, is_Some (balances point !! id)
                           <-> In id (map acc_id (accounts snapshot)))
               /\ total_cash point
                  == sum_balances (balances point)
                                  (List.filter cashEligible (accounts snapshot)))
            points.
Proof.
  intros Hy Hm Hid _ points. split.
  - unfold points, calculateForecast. cbv zeta. rewrite Hid.
    pose proof (days_of_month_id y m Hy Hm) as Hdays. cbv zeta in Hdays.
    rewrite Hdays, daysOfMonth_days. apply forecastDays_dates.
  - apply List.Forall_forall. intros point Hin.
    apply in_split in Hin. destruct Hin as (before & after & Hcut).
    unfold points, calculateForecast in Hcut.
    destruct (forecastDays_cut _ _ _ _ _ _ _ _ Hcut)
      as (days1 & day & days2 & _ & _ & Hb & Ht).
    split.
    + intros id. rewrite Hb. apply balances_of_accounts.
    + rewrite Ht. apply cashAccountsTotal_sum.
Qed.

Lemma forecast_points_witness :
  let points := calculateForecast sample_month in
  map point_date points
  = map (fun day => dateInMonth "2024-03" (Some day))
        (days_from 1 (Z.to_nat (calendar_days 2024 3)))
  /\ Forall (fun point =>
               (forall id, is_Some (balances point !! id)
                           <-> In id (map acc_id (accounts sample_month)))
               /\ total_cash point
                  == sum_balances (balances point)
                                  (List.filter cashEligible (accounts sample_month)))
            points.
Proof.
  apply (forecast_points sample_month 2024 3).
  - unfold last_full_year. lia.
  - lia.
  - reflexivity.
  - reflexivity.
Defined.

(** X12: a transaction that is not a transfer adds its amount to the
    balance of its account and changes no other balance; the total cash
    moves by that amount when the account counts as cash and does not move
    otherwise. *)
Theorem income_or_expense_moves_cash
        (accounts : list Account) (currentBalances : gmap string Q) (tx : Transaction)
        (acc : Account) (v : Q) :
  is_transfer tx = false ->
  tx_account_id tx = acc_id acc ->
  In acc accounts ->
  List.NoDup (map acc_id accounts) ->
  currentBalances !! acc_id acc = Some v ->
  let after := applyTransaction currentBalances tx in
  after !! acc_id acc = Some (v + tx_amount tx)
  /\ (forall id, id <> acc_id acc -> after !! id = currentBalances !! id)
  /\ cashAccountsTotal accounts after
     == cashAccountsTotal accounts currentBalances
        + (if cashEligible acc then tx_amount tx else 0).
Proof.
  intros Ht Hid Hin Hnd Hv after. unfold after, applyTransaction. rewrite Ht, Hid.
  split; [apply adjust_lookup_same; exact Hv|].
  split; [intros id Hne; apply adjust_lookup_other; congruence|].
  rewrite !cashAccountsTotal_sum.
  destruct (cashEligible acc) eqn:E.
  - apply sum_balances_adjusted with (v := v); [exact Hv | |].
    + apply NoDup_ids_filter. exact Hnd.
    + apply eligible_in_filter; assumption.
  - rewrite sum_balances_untouched; [ring|].
    intros Hin'. apply in_map_iff in Hin'. destruct Hin' as (acc' & Hid' & Hin').
    apply filter_In in Hin'. destruct Hin' as [Hin' E'].
    assert (acc' = acc); [|congruence].
    clear - Hnd Hin Hin' Hid'.
    induction accounts as [|a accounts IH]; [contradiction|].
    simpl in Hnd. inversion Hnd as [|? ? Hx Hnd']; subst.
    destruct Hin as [->|Hin], Hin' as [->|Hin']; auto.
    + exfalso. apply Hx. rewrite <- Hid'. apply in_map. exact Hin'.
    + exfalso. apply Hx. rewrite Hid'. apply in_map. exact Hin.
Qed.

Lemma income_or_expense_moves_cash_witness :
  let tx := nth 2 (transactions sample_month) sample_transfer in
  let after := applyTransaction sample_balances tx in
  after !! "acc1" = Some (1000 + 1500)
  /\ (forall id, id <> "acc1" -> after !! id = sample_balances !! id)
  /\ cashAccountsTotal [sample_checking; sample_savings] after
     == cashAccountsTotal [sample_checking; sample_savings] sample_balances
        + (if cashEligible sample_checking then 1500 else 0).
Proof.
  apply (income_or_expense_moves_cash [sample_checking; sample_savings] sample_balances
           (nth 2 (transactions sample_month) sample_transfer) sample_checking 1000).
  - reflexivity.
  - reflexivity.
  - left. reflexivity.
  - repeat constructor; simpl; intuition discriminate.
  - reflexivity.
Defined.

End ForecastBalances.

(** ** Transaction generator: the date of a monthly item, by the calendar *)

Module MonthlyDates.

Import JS Calendar Types Effects Generation SpecNotions Days.
Import JSFacts StringFacts ScheduleFacts CalendarMore MonthFacts MonthlyDateFacts.
Local Open Scope string_scope.
Local Open Scope Z_scope.



(** The dates of monthly items in February 2024 and 2023: rules that
    exceed the month, rules written in other ways, a rule that is not a
    number with an anchor date, and with an anchor date without a day. *)
Example monthly_dates_by_rule :
  let item rule anchor :=
    mkRecurringItem "r1" "Rent" "cat2" "acc1" None None cad_monthly 1200 rule expense true
                    anchor in
  recurringDates "2024-02" (item "31" None) = ["2024-02-29"]
  /\ recurringDates "2023-02" (item "31" None) = ["2023-02-28"]
  /\ recurringDates "2023-02" (item "day:30" None) = ["2023-02-28"]
  /\ recurringDates "2023-02" (item "last" None) = ["2023-02-28"]
  /\ recurringDates "2023-02" (item "05" None) = ["2023-02-05"]
  /\ recurringDates "2023-02" (item "15th" None) = ["2023-02-15"]
  /\ recurringDates "2023-02" (item " 7" None) = ["2023-02-07"]
  /\ recurringDates "2023-02" (item "-3" None) = ["2023-02-01"]
  /\ recurringDates "2023-02" (item "0" None) = ["2023-02-01"]
  /\ recurringDates "2023-02" (item "" None) = ["2023-02-01"]
  /\ recurringDates "2023-02" (item "soon" (Some "2023-01-31")) = ["2023-02-28"]
  /\ recurringDates "2023-02" (item "soon" (Some "2023-01")) = ["2023-02-NaN"].
Proof. vm_compute. repeat split; reflexivity. Qed.

End MonthlyDates.

(** ** Transaction generator: running it again, deposit splits, signs *)

Module GenerationMore.

Import JS Calendar Types Effects Generation SpecNotions Totals GenerationNotions.
Import EffectsFacts GenerationFacts RegenerationFacts PayrollTotals.
Local Open Scope string_scope.

Lemma generateAll_touched monthId monthSetup now version recurringItems createdAt batch :
  generateAll monthId (touched monthSetup now version) recurringItems createdAt batch
  = generateAll monthId monthSetup recurringItems createdAt batch.
Proof. reflexivity. Qed.

(** A run: the batch identifier, the creation time and the generated
    transactions do not depend on the mode or on the existing
    transactions. *)
Lemma run_shape monthId monthSetup recurringItems w :
  exists batch createdAt now w',
    forall existing mode,
      fst (generateMonthTransactions monthId monthSetup recurringItems existing mode w)
      = {| result_transactions :=
             mergeByMode mode existing
               (snd (fst (generateAll monthId monthSetup recurringItems createdAt batch w')));
           result_month_setup :=
             touched monthSetup now (generation_version monthSetup + 1) |}.
Proof.
  unfold generateMonthTransactions, bind.
  destruct (randomUUID w) as [batch w1] eqn:E1.
  destruct (Date_now w1) as [createdAt w2] eqn:E2.
  destruct (generateAll monthId monthSetup recurringItems createdAt batch w2)
    as [generation w3] eqn:E3.
  destruct (Date_now w3) as [now w4] eqn:E4.
  exists batch, createdAt, now, w2. intros existing mode.
  rewrite E3. reflexivity.
Qed.

Lemma existingIds_inv existing key :
  key ∈ existingIds existing ->
  exists e, In e existing /\ tx_source_item_id e = Some key /\ key <> "".
Proof.
  unfold existingIds. intros H.
  apply elem_of_list_to_set in H. apply list_elem_of_omap in H.
  destruct H as (e & Hin & He). exists e.
  apply list_elem_of_In in Hin. split; [exact Hin|].
  destruct (tx_source_item_id e) as [k|]; [|discriminate].
  destruct k as [|c k]; [discriminate|]. injection He as <-. split; [reflexivity|discriminate].
Qed.

(** After a run in any mode, every generated key is among the keys of the
    transactions. *)
Lemma generated_keys_present mode existing generated tx :
  Forall is_generated generated -> In tx generated ->
  has_id (existingIds (mergeByMode mode existing generated)) (tx_source_item_id tx) = true.
Proof.
  intros Hg Hin. rewrite List.Forall_forall in Hg.
  destruct (Hg tx Hin) as (_ & key & Hk & Hne). rewrite Hk. unfold has_id.
  apply bool_decide_eq_true.
  destruct mode; unfold mergeByMode.
  - destruct (has_id (existingIds existing) (tx_source_item_id tx)) eqn:E.
    + rewrite Hk in E. unfold has_id in E. apply bool_decide_eq_true in E.
      apply existingIds_inv in E. destruct E as (e & He & Hek & _).
      apply (existingIds_has _ e); [apply in_or_app; left; exact He | exact Hek | exact Hne].
    + apply (existingIds_has _ tx); [|exact Hk|exact Hne].
      apply in_or_app. right. apply filter_In. split; [exact Hin|]. rewrite E. reflexivity.
  - apply (existingIds_has _ tx); [|exact Hk|exact Hne]. apply in_or_app. right. exact Hin.
  - apply (existingIds_has _ tx); [exact Hin|exact Hk|exact Hne].
Qed.

Lemma same_tx_key a b : same_tx a b -> tx_source_item_id a = tx_source_item_id b.
Proof.
  unfold same_tx. intros H.
  change (tx_source_item_id (anonymous a) = tx_source_item_id (anonymous b)).
  rewrite H. reflexivity.
Qed.

(** X13: running the generator in [missing] mode on the outcome of a
    run, with the same recurring items, changes no transaction: whatever
    the mode of the first run, the second run returns the transactions of
    the first, the same list in the same order, and adds nothing.  Only
    the count of the runs goes up. *)
Theorem missing_mode_adds_nothing_twice
        (monthId : string) (monthSetup : MonthSetup) (recurringItems : list RecurringItem)
        (existingTransactions : list Transaction) (mode : GenerateMode) (w1 w2 : World) :
  let first :=
    fst (generateMonthTransactions monthId monthSetup recurringItems
                                   existingTransactions mode w1) in
  let second :=
    fst (generateMonthTransactions monthId (result_month_setup first) recurringItems
                                   (result_transactions first) missing w2) in
  result_transactions second = result_transactions first
  /\ generation_version (result_month_setup second)
     = (generation_version monthSetup + 2)%Z.
Proof.
  intros first second. unfold second, first.
  destruct (run_shape monthId monthSetup recurringItems w1)
    as (batch1 & createdAt1 & now1 & w1' & H1).
  rewrite (H1 existingTransactions mode). cbn [result_month_setup result_transactions].
  destruct (run_shape monthId (touched monthSetup now1 (generation_version monthSetup + 1))
                      recurringItems w2)
    as (batch2 & createdAt2 & now2 & w2' & H2).
  rewrite H2. cbn [result_month_setup result_transactions touched generation_version].
  split; [|lia].
  rewrite generateAll_touched.
  pose proof (generateAll_generated monthId monthSetup recurringItems createdAt1 batch1 w1')
    as Hg. cbv beta in Hg.
  pose proof (generateAll_agree monthId monthSetup recurringItems createdAt1 createdAt2
                                batch1 batch2 w1' w2') as Ha. cbv beta in Ha.
  set (g1 := snd (fst (generateAll monthId monthSetup recurringItems createdAt1 batch1 w1')))
    in *.
  set (g2 := snd (fst (generateAll monthId monthSetup recurringItems createdAt2 batch2 w2')))
    in *.
  unfold mergeByMode at 1.
  set (present := existingIds (mergeByMode mode existingTransactions g1)).
  assert (Hnone : List.filter (fun tx => negb (has_id present (tx_source_item_id tx))) g2
                  = []).
  { assert (Hall : Forall (fun tx => has_id present (tx_source_item_id tx) = true) g2).
    { clear - Hg Ha. unfold present.
      assert (Hsub : forall tx, In tx g1 ->
                 has_id (existingIds (mergeByMode mode existingTransactions g1))
                        (tx_source_item_id tx) = true).
      { intros tx Hin. apply generated_keys_present; assumption. }
      revert Hsub. generalize (existingIds (mergeByMode mode existingTransactions g1)).
      intros ids Hsub. clear Hg.
      induction Ha as [|a b l l' Hab _ IH]; constructor.
      - rewrite <- (same_tx_key a b Hab). apply Hsub. left. reflexivity.
      - apply IH. intros tx Hin. apply Hsub. right. exact Hin. }
    clear - Hall. induction Hall as [|tx l Htx _ IH]; [reflexivity|].
    cbn [List.filter]. rewrite Htx. exact IH. }
  rewrite Hnone. apply app_nil_r.
Qed.

Local Open Scope Q_scope.

(** Rounding to cents. *)
Lemma floor_of_half (c : Z) : Qfloor (inject_Z c + (1 # 2)) = c.
Proof.
  pose proof (Qfloor_le (inject_Z c + (1 # 2))) as Hle.
  pose proof (Qlt_floor (inject_Z c + (1 # 2))) as Hlt.
  set (c' := Qfloor (inject_Z c + (1 # 2))) in *.
  destruct (Z_lt_le_dec c c') as [H|H].
  - assert (H' : (c + 1 <= c')%Z) by lia.
    rewrite Zle_Qle, inject_Z_plus in H'. change (inject_Z 1) with 1 in H'. lra.
  - destruct (Z_lt_le_dec c' c) as [H0|H0]; [|lia].
    assert (H' : (c' + 1 <= c)%Z) by lia.
    rewrite Zle_Qle, inject_Z_plus in H'. change (inject_Z 1) with 1 in H'.
    rewrite inject_Z_plus in Hlt. change (inject_Z 1) with 1 in Hlt. lra.
Qed.

Lemma roundToCents_compat x y : x == y -> roundToCents x == roundToCents y.
Proof.
  intros H. unfold roundToCents, Math_round.
  assert (E : Qfloor (x * 100 + (1 # 2)) = Qfloor (y * 100 + (1 # 2))).
  { apply Qfloor_comp. rewrite H. reflexivity. }
  rewrite E. reflexivity.
Qed.

Lemma roundToCents_cents x (cents : Z) : x == inject_Z cents / 100 -> roundToCents x == x.
Proof.
  intros H. rewrite (roundToCents_compat _ _ H). rewrite H.
  unfold roundToCents, Math_round.
  assert (E : Qfloor (inject_Z cents / 100 * 100 + (1 # 2)) = cents).
  { rewrite <- (floor_of_half cents) at 2. apply Qfloor_comp. field. }
  rewrite E. reflexivity.
Qed.

Lemma roundToCents_nonneg x : 0 <= x -> 0 <= roundToCents x.
Proof.
  intros H. unfold roundToCents, Math_round.
  apply Qle_shift_div_l; [reflexivity|]. rewrite Qmult_0_l.
  change 0 with (inject_Z 0). rewrite <- Zle_Qle.
  assert (H' : (Qfloor 0 <= Qfloor (x * 100 + (1 # 2)))%Z).
  { apply Qfloor_resp_le. lra. }
  exact H'.
Qed.

(** A zero amount counts for nothing in the fixed part. *)
Lemma zero_amount (x : Q) : nonzero x = false -> Qabs x == 0.
Proof.
  unfold nonzero. intros H. apply negb_false_iff in H. apply Qeq_bool_iff in H.
  rewrite H. reflexivity.
Qed.

Lemma fold_left_total {A} (f : A -> Q) (l : list A) : forall sum,
  fold_left (fun sum x => sum + f x) l sum == sum + total_of f l.
Proof.
  induction l as [|x l IH]; intros sum; simpl.
  - ring.
  - rewrite IH. fold (total_of f l). ring.
Qed.

Lemma fixedTotal_of_fixedSplits splits :
  fold_left (fun sum split => sum + split_amount split) (fixedSplits splits) 0
  == fixedTotal splits.
Proof.
  rewrite fold_left_total. unfold fixedSplits, fixedTotal.
  generalize (eligibleSplits splits). intros l.
  induction l as [|split l IH]; [simpl; ring|].
  cbn [List.filter].
  destruct (negb (truthy_flag (is_remainder split))); cbn [andb].
  - destruct (nonzero (split_amount split)) eqn:E.
    + cbn [map]. rewrite !total_of_cons. cbn [split_amount].
      rewrite Qplus_0_l in IH. rewrite <- IH. ring.
    + rewrite total_of_cons, (zero_amount _ E). rewrite Qplus_0_l in IH |- *.
      rewrite <- IH. ring.
  - exact IH.
Qed.

Lemma total_of_map {A B} (f : A -> Q) (g : B -> Q) l l' :
  map f l = map g l' -> total_of f l = total_of g l'.
Proof.
  revert l'. induction l as [|x l IH]; intros [|y l'] H; try discriminate; [reflexivity|].
  simpl in H. injection H as Hx Hl. rewrite !total_of_cons, Hx, (IH _ Hl). reflexivity.
Qed.

Lemma find_remainder (l : list PaycheckDepositSplit) :
  match List.find (fun split => truthy_flag (is_remainder split)) l with
  | Some _ => existsb (fun split => truthy_flag (is_remainder split)) l = true
  | None => existsb (fun split => truthy_flag (is_remainder split)) l = false
  end.
Proof.
  induction l as [|split l IH]; [reflexivity|]. simpl.
  destruct (truthy_flag (is_remainder split)); [reflexivity|exact IH].
Qed.

(** The deposits of the fixed splits: one of each amount, dated as the
    entry. *)
Lemma fixed_deposits entry monthSetup createdAt batch l :
  holds (fun txs => map tx_amount txs = map split_amount l
                    /\ Forall (fun tx => tx_date tx = entry_date entry) txs)
        (mapM (fun split =>
                 splitTransaction entry monthSetup createdAt batch
                                  (split_account_id split) (split_amount split)) l).
Proof.
  induction l as [|split l IH].
  - apply holds_ret. split; [reflexivity|constructor].
  - cbn [mapM].
    eapply (holds_bind (fun tx => tx_amount tx = split_amount split
                                  /\ tx_date tx = entry_date entry)).
    { intros w. simpl. split; reflexivity. }
    intros tx [Ha Hd]. eapply holds_bind; [exact IH|].
    intros txs [Has Hds]. apply holds_ret. cbn [map]. split.
    + rewrite Ha, Has. reflexivity.
    + constructor; assumption.
Qed.

Lemma fixedSplits_nonneg splits :
  Forall (fun split => 0 <= split_amount split) (fixedSplits splits).
Proof.
  unfold fixedSplits. apply List.Forall_forall. intros split Hin.
  apply in_map_iff in Hin. destruct Hin as (s & <- & _). simpl. apply Qabs_nonneg.
Qed.

(** The deposits of a paycheck entry. *)
Lemma deposits_of_entry entry splits monthSetup createdAt batch :
  truthy (paycheck_category_id monthSetup) = true ->
  holds (fun deposits =>
           Forall (fun tx => 0 <= tx_amount tx /\ tx_date tx = entry_date entry) deposits
           /\ total_of tx_amount deposits
              == fixedTotal splits
                 + (if has_remainder splits
                    then roundToCents (Qmax (Qabs (entry_amount entry) - fixedTotal splits) 0)
                    else 0))
        (buildPaycheckSplitTransactions entry splits monthSetup createdAt batch).
Proof.
  intros Hcat. set (rest := Qmax (Qabs (entry_amount entry) - fixedTotal splits) 0).
  unfold buildPaycheckSplitTransactions. rewrite Hcat. cbn [negb].
  unfold has_remainder. fold (fixedTotal splits).
  pose proof (find_remainder (eligibleSplits splits)) as Hfind.
  destruct (eligibleSplits splits) as [|s0 l0] eqn:El.
  - apply holds_ret. unfold fixedTotal. rewrite El.
    cbn [List.filter existsb total_of fold_right]. split; [constructor|ring].
  - rewrite <- El in *. clear s0 l0 El.
    eapply holds_bind; [apply fixed_deposits|].
    intros tx [Hamounts Hdates].
    assert (Htotal : total_of tx_amount tx == fixedTotal splits).
    { rewrite (total_of_map _ _ _ _ Hamounts), <- fixedTotal_of_fixedSplits,
        fold_left_total. ring. }
    assert (Hpos : Forall (fun t => 0 <= tx_amount t /\ tx_date t = entry_date entry) tx).
    { pose proof (fixedSplits_nonneg splits) as Hn.
      revert Hamounts Hdates Hn. generalize (fixedSplits splits).
      clear. induction tx as [|t tx IH]; intros [|s l] Ha Hd Hn; try discriminate;
        constructor.
      - simpl in Ha. injection Ha as Ht _. inversion Hn; subst. inversion Hd; subst.
        split; [rewrite Ht; assumption | assumption].
      - simpl in Ha. injection Ha as _ Hl. inversion Hn; subst. inversion Hd; subst.
        eapply IH; eassumption. }
    destruct (List.find _ (eligibleSplits splits)) as [remainderSplit|];
      rewrite Hfind.
    + set (remainderAmount :=
             roundToCents (Qmax (Qabs (entry_amount entry) - fold_left _ _ 0) 0)).
      assert (Er : remainderAmount == roundToCents rest).
      { unfold remainderAmount, rest. apply roundToCents_compat.
        apply Q.max_compat; [|reflexivity]. rewrite fixedTotal_of_fixedSplits.
        reflexivity. }
      assert (Hr : 0 <= remainderAmount).
      { apply roundToCents_nonneg. apply Q.le_max_r. }
      destruct (nonzero remainderAmount) eqn:En.
      * eapply (holds_bind (fun last => tx_amount last = remainderAmount
                                        /\ tx_date last = entry_date entry)).
        { intros w0. simpl. split; reflexivity. }
        intros last [Hla Hld]. apply holds_ret. split.
        -- apply Forall_app. split; [exact Hpos|].
           constructor; [|constructor]. split; [rewrite Hla; exact Hr|exact Hld].
        -- rewrite total_of_app, Htotal, total_of_cons, Hla.
           cbn [total_of fold_right]. rewrite Er. ring.
      * apply holds_ret. split; [exact Hpos|].
        rewrite Htotal, <- Er.
        unfold nonzero in En. apply negb_false_iff in En. apply Qeq_bool_iff in En.
        rewrite En. ring.
    + apply holds_ret. split; [exact Hpos|]. rewrite Htotal. ring.
Qed.

(** An amount rounded to cents is within half a cent of the amount. *)
Lemma roundToCents_near x :
  x - (1 # 200) <= roundToCents x /\ roundToCents x <= x + (1 # 200).
Proof.
  unfold roundToCents, Math_round.
  pose proof (Qfloor_le (x * 100 + (1 # 2))) as Hle.
  pose proof (Qlt_floor (x * 100 + (1 # 2))) as Hlt.
  rewrite inject_Z_plus in Hlt. change (inject_Z 1) with 1 in Hlt.
  set (r := inject_Z (Qfloor (x * 100 + (1 # 2)))) in *.
  split.
  - apply Qle_shift_div_l; [reflexivity|]. lra.
  - apply Qle_shift_div_r; [reflexivity|]. lra.
Qed.

(** X14: the deposits of a paycheck entry, when the month setup has a
    paycheck category.  Every deposit is dated as the entry and is not
    negative.  Without a split that takes the remainder the deposits add up
    to the fixed part of the splits.  With one they add up, to within half
    a cent, to the fixed part plus what is left of the absolute amount of
    the entry after the fixed part, or plus nothing when the fixed part is
    larger; the remainder is rounded to cents, so that the sum is exact
    when what is left is a whole number of cents.  So with a remainder
    split, a fixed part that does not exceed the paycheck and a difference
    in whole cents, the deposits add up to the paycheck. *)
Theorem paycheck_deposits_add_up
        (entry : PaycheckEntry) (splits : list PaycheckDepositSplit)
        (monthSetup : MonthSetup) (createdAt : Z) (batch : string) (w : World) :
  truthy (paycheck_category_id monthSetup) = true ->
  let deposits :=
    fst (buildPaycheckSplitTransactions entry splits monthSetup createdAt batch w) in
  let rest := Qmax (Qabs (entry_amount entry) - fixedTotal splits) 0 in
  Forall (fun tx => 0 <= tx_amount tx /\ tx_date tx = entry_date entry) deposits
  /\ (if has_remainder splits
      then fixedTotal splits + rest - (1 # 200) <= total_of tx_amount deposits
           /\ total_of tx_amount deposits <= fixedTotal splits + rest + (1 # 200)
      else total_of tx_amount deposits == fixedTotal splits)
  /\ (has_remainder splits = true ->
      (exists cents : Z, rest == inject_Z cents / 100) ->
      total_of tx_amount deposits == fixedTotal splits + rest)
  /\ (has_remainder splits = true ->
      fixedTotal splits <= Qabs (entry_amount entry) ->
      (exists cents : Z,
          Qabs (entry_amount entry) - fixedTotal splits == inject_Z cents / 100) ->
      total_of tx_amount deposits == Qabs (entry_amount entry)).
Proof.
  intros Hcat deposits rest.
  pose proof (deposits_of_entry entry splits monthSetup createdAt batch Hcat w) as Hmain.
  cbv beta in Hmain. fold deposits in Hmain. fold rest in Hmain.
  destruct Hmain as [H1 H2]. split; [exact H1|].
  split; [|split].
  - destruct (has_remainder splits).
    + destruct (roundToCents_near rest) as [Hlow Hhigh]. rewrite H2. split; lra.
    + rewrite H2. ring.
  - intros Hrem (cents & Hc). rewrite H2, Hrem.
    rewrite (roundToCents_cents _ cents Hc). reflexivity.
  - intros Hrem Hle (cents & Hc). rewrite H2, Hrem.
    assert (Erest : rest == Qabs (entry_amount entry) - fixedTotal splits).
    { unfold rest. apply Q.max_l. lra. }
    rewrite (roundToCents_compat _ _ Erest), (roundToCents_cents _ cents Hc). ring.
Qed.

Lemma paycheck_deposits_add_up_witness :
  let entry := {| entry_id := "e1"; entry_date := "2024-03-15"; entry_amount := 1000;
                  entry_is_bonus := Some false; entry_description := None |} in
  let deposits :=
    fst (buildPaycheckSplitTransactions entry same_account_splits
           (sample_setup same_account_splits) 0 "batch" sample_world) in
  let rest := Qmax (Qabs 1000 - fixedTotal same_account_splits) 0 in
  Forall (fun tx => 0 <= tx_amount tx /\ tx_date tx = "2024-03-15") deposits
  /\ (if has_remainder same_account_splits
      then fixedTotal same_account_splits + rest - (1 # 200) <= total_of tx_amount deposits
           /\ total_of tx_amount deposits
              <= fixedTotal same_account_splits + rest + (1 # 200)
      else total_of tx_amount deposits == fixedTotal same_account_splits)
  /\ (has_remainder same_account_splits = true ->
      (exists cents : Z, rest == inject_Z cents / 100) ->
      total_of tx_amount deposits == fixedTotal same_account_splits + rest)
  /\ (has_remainder same_account_splits = true ->
      fixedTotal same_account_splits <= Qabs 1000 ->
      (exists cents : Z, Qabs 1000 - fixedTotal same_account_splits == inject_Z cents / 100) ->
      total_of tx_amount deposits == Qabs 1000).
Proof.
  intros entry.
  apply (paycheck_deposits_add_up entry same_account_splits
           (sample_setup same_account_splits) 0 "batch" sample_world).
  reflexivity.
Defined.

(** The deposits of the sample: 100 and 50 into the first account, the
    remaining 850 into the second. *)
Example deposits_of_the_sample :
  map (fun tx => (tx_account_id tx, Qred (tx_amount tx)))
      (fst (buildPaycheckSplitTransactions
              {| entry_id := "e1"; entry_date := "2024-03-15"; entry_amount := 1000;
                 entry_is_bonus := Some false; entry_description := None |}
              same_account_splits (sample_setup same_account_splits) 0 "batch" sample_world))
  = [ ("acc1", 100); ("acc1", 50); ("acc2", 850) ].
Proof. vm_compute. reflexivity. Qed.

(** The sign that the generator gives an amount. *)
Lemma resolveAmount_sign type amount :
  match type with
  | income => 0 <= resolveAmount type amount
  | _ => resolveAmount type amount <= 0
  end.
Proof.
  pose proof (Qabs_nonneg amount) as H.
  destruct type; unfold resolveAmount; lra.
Qed.

Lemma deposits_signed entry splits monthSetup createdAt batch :
  holds (Forall signed_by_type)
        (buildPaycheckSplitTransactions entry splits monthSetup createdAt batch).
Proof.
  assert (Hsplit : forall account amount,
             0 <= amount ->
             holds signed_by_type
                   (splitTransaction entry monthSetup createdAt batch account amount)).
  { intros account amount Ha w. exact Ha. }
  unfold buildPaycheckSplitTransactions.
  destruct (negb _); [apply holds_ret; constructor|].
  destruct (eligibleSplits splits) as [|s0 l0] eqn:El; [apply holds_ret; constructor|].
  rewrite <- El. clear s0 l0 El.
  eapply (holds_bind (Forall signed_by_type)).
  - pose proof (fixedSplits_nonneg splits) as Hn.
    induction Hn as [|split l Hs _ IH]; [apply holds_ret; constructor|].
    cbn [mapM]. eapply holds_bind; [apply Hsplit; exact Hs|].
    intros tx Htx. eapply holds_bind; [exact IH|].
    intros txs Htxs. apply holds_ret. constructor; assumption.
  - intros tx Htx. destruct (List.find _ _); [|apply holds_ret; exact Htx].
    destruct (nonzero _); [|apply holds_ret; exact Htx].
    eapply holds_bind.
    + apply Hsplit. apply roundToCents_nonneg. apply Q.le_max_r.
    + intros last Hlast. apply holds_ret. apply Forall_app.
      split; [exact Htx|]. constructor; [exact Hlast|constructor].
Qed.

Lemma recurring_signed monthId overrides createdAt batch item :
  holds (Forall signed_by_type)
        (recurringTransactions monthId overrides createdAt batch item).
Proof.
  unfold recurringTransactions. apply holds_mapM_all. intros date w.
  unfold signed_by_type. simpl.
  pose proof (resolveAmount_sign (item_type item)
                (match overrides !! item_id item with
                 | Some a => a
                 | None => default_amount item
                 end)) as H.
  destruct (item_type item); exact H.
Qed.

Lemma oneOff_signed createdAt batch adj :
  holds signed_by_type (oneOffTransaction createdAt batch adj).
Proof.
  intros w. unfold signed_by_type. simpl.
  pose proof (resolveAmount_sign (adj_type adj) (adj_amount adj)) as H.
  destruct (adj_type adj); exact H.
Qed.

(** X15: the generator decides the sign of every amount.  In [reset]
    mode, where the result is the generated transactions, the deposit of a
    paycheck (it has no transaction type) and a transaction of type income
    have an amount that is not negative, and a transaction of type expense
    or transfer has an amount that is not positive, whatever the signs of
    the amounts of the paycheck entries, the deposit splits, the recurring
    items, the variable overrides and the one-off adjustments. *)
Theorem generated_amounts_are_signed
        (monthId : string) (monthSetup : MonthSetup) (recurringItems : list RecurringItem)
        (existingTransactions : list Transaction) (w : World) :
  Forall signed_by_type
         (result_transactions
            (fst (generateMonthTransactions monthId monthSetup recurringItems
                                            existingTransactions reset w))).
Proof.
  destruct (run_shape monthId monthSetup recurringItems w)
    as (batch & createdAt & now & w' & H).
  rewrite H. cbn [result_transactions mergeByMode].
  assert (Hall : holds (fun generation => Forall signed_by_type (snd generation))
                       (generateAll monthId monthSetup recurringItems createdAt batch)).
  { unfold generateAll.
    eapply holds_bind; [apply holds_any|]. intros estimates _.
    eapply holds_bind.
    { apply holds_flatMapM_all. intros entry. apply deposits_signed. }
    intros paycheckTx Hp.
    eapply holds_bind.
    { apply holds_flatMapM_all. intros item. apply recurring_signed. }
    intros recurringTx Hr.
    eapply holds_bind.
    { apply holds_mapM_all. intros adj. apply oneOff_signed. }
    intros oneOffTx Ho.
    apply holds_ret. simpl. rewrite !Forall_app. tauto. }
  apply Hall.
Qed.

(** X16: without a paycheck category in the month setup, or
    without a deposit split that has an account, the generator makes no
    deposit for any paycheck entry: every generated transaction comes from
    a recurring item or a one-off adjustment (its key starts with "r" or
    "o"). *)
Theorem no_deposit_without_category_or_account
        (monthId : string) (monthSetup : MonthSetup) (recurringItems : list RecurringItem)
        (existingTransactions : list Transaction) (w : World) :
  truthy (paycheck_category_id monthSetup) = false
  \/ eligibleSplits (paycheck_deposit_splits monthSetup) = [] ->
  Forall (fun tx => key_initial (tx_source_item_id tx) = Some "r"%char
                    \/ key_initial (tx_source_item_id tx) = Some "o"%char)
         (result_transactions
            (fst (generateMonthTransactions monthId monthSetup recurringItems
                                            existingTransactions reset w))).
Proof.
  intros Hno.
  destruct (run_shape monthId monthSetup recurringItems w)
    as (batch & createdAt & now & w' & H).
  rewrite H. cbn [result_transactions mergeByMode].
  set (P := fun tx => key_initial (tx_source_item_id tx) = Some "r"%char
                      \/ key_initial (tx_source_item_id tx) = Some "o"%char).
  assert (Hall : holds (fun generation => Forall P (snd generation))
                       (generateAll monthId monthSetup recurringItems createdAt batch)).
  { unfold generateAll.
    eapply holds_bind; [apply holds_any|]. intros estimates _.
    eapply (holds_bind (Forall P)).
    { apply holds_flatMapM_all. intros entry.
      unfold buildPaycheckSplitTransactions.
      destruct Hno as [Hc|He].
      - rewrite Hc. apply holds_ret. constructor.
      - rewrite He. destruct (negb _); apply holds_ret; constructor. }
    intros paycheckTx Hp.
    eapply (holds_bind (Forall P)).
    { apply holds_flatMapM_all. intros item.
      unfold recurringTransactions. apply holds_mapM_all. intros date w0.
      unfold P. cbv beta. left. reflexivity. }
    intros recurringTx Hr.
    eapply (holds_bind (Forall P)).
    { apply holds_mapM_all. intros adj w0. unfold P. cbv beta. right. reflexivity. }
    intros oneOffTx Ho.
    apply holds_ret. simpl. rewrite !Forall_app. tauto. }
  apply Hall.
Qed.

Lemma no_deposit_without_category_or_account_witness :
  Forall (fun tx => key_initial (tx_source_item_id tx) = Some "r"%char
                    \/ key_initial (tx_source_item_id tx) = Some "o"%char)
         (result_transactions
            (fst (generateMonthTransactions "2024-03" (sample_setup []) [sample_rent] []
                                            reset sample_world))).
Proof.
  apply (no_deposit_without_category_or_account "2024-03" (sample_setup []) [sample_rent] []
           sample_world).
  right. reflexivity.
Defined.

(** The sample without deposit splits: the rent only. *)
Example transactions_without_splits :
  map (fun tx => (tx_date tx, Qred (tx_amount tx), tx_source_item_id tx))
      (result_transactions
         (fst (generateMonthTransactions "2024-03" (sample_setup []) [sample_rent] []
                                         reset sample_world)))
  = [ ("2024-03-01", - (1200), Some "recurring:r1:2024-03-01") ].
Proof. vm_compute. reflexivity. Qed.

End GenerationMore.

(** ** Forecast: a transfer between two accounts *)

Module ForecastTransfer.

Import JS Calendar Types Forecasting SpecNotions Totals Days ForecastNotions.
Import ForecastFacts PayrollTotals ForecastBalances.
Local Open Scope string_scope.
Local Open Scope Q_scope.















(** The checking account, the savings account and the total cash of the
    sample on the 9th and the 10th of March, without the transfer and with
    it. *)
Example transfer_of_march :
  let without := with_transactions sample_month (skipn 1 (transactions sample_month)) in
  let view snapshot day :=
    match nth_error (calculateForecast snapshot) day with
    | Some point =>
        (Qred <$> balances point !! "acc1", Qred <$> balances point !! "acc2",
         Qred (total_cash point))
    | None => (None, None, 0)
    end in
  view without 8%nat = (Some 2500, Some 500, 3000)
  /\ view sample_month 8%nat = (Some 2500, Some 500, 3000)
  /\ view without 9%nat = (Some 2500, Some 500, 3000)
  /\ view sample_month 9%nat = (Some 2300, Some 700, 3000).
Proof. vm_compute. repeat split; reflexivity. Qed.

End ForecastTransfer.

(** ** The summary of a forecast, the totals of a month, starting balances *)

Module SummaryFacts.

Import JS Types Forecasting Summary SpecNotions Totals ForecastNotions.
Import ForecastFacts PayrollTotals ForecastBalances KeyFacts.
Local Open Scope string_scope.
Local Open Scope Q_scope.

Lemma Qlt_bool_iff a b : Qlt_bool a b = true <-> a < b.
Proof.
  unfold Qlt_bool. rewrite negb_true_iff. split.
  - intros H. apply Qnot_le_lt. intros Hle. apply Qle_bool_iff in Hle. congruence.
  - intros H. destruct (Qle_bool b a) eqn:E; [|reflexivity].
    apply Qle_bool_iff in E. lra.
Qed.

(** The search for the lowest point, from a lowest point so far. *)
Lemma lowest_fold rest : forall before low mid,
  Forall (fun p => total_cash low < total_cash p) before ->
  Forall (fun p => total_cash low <= total_cash p) mid ->
  exists before' low' after',
    (before ++ low :: mid ++ rest = before' ++ low' :: after')%list
    /\ fold_left lowest_step rest (Some (total_cash low), point_date low)
       = (Some (total_cash low'), point_date low')
    /\ Forall (fun p => total_cash low' < total_cash p) before'
    /\ Forall (fun p => total_cash low' <= total_cash p) after'.
Proof.
  induction rest as [|p rest IH]; intros before low mid Hb Hm.
  - exists before, low, mid. rewrite app_nil_r. auto.
  - cbn [fold_left]. unfold lowest_step at 2. cbn [fst].
    destruct (Qlt_bool (total_cash p) (total_cash low)) eqn:E.
    + apply Qlt_bool_iff in E.
      destruct (IH (before ++ low :: mid)%list p []) as (b' & l' & a' & H1 & H2 & H3 & H4).
      * apply Forall_app. split.
        -- eapply List.Forall_impl; [|exact Hb]. intros q Hq. simpl in Hq. lra.
        -- constructor; [exact E|].
           eapply List.Forall_impl; [|exact Hm]. intros q Hq. simpl in Hq. lra.
      * constructor.
      * exists b', l', a'. split; [|auto].
        rewrite <- H1. rewrite <- !app_assoc. reflexivity.
    + assert (Hle : total_cash low <= total_cash p).
      { destruct (Qlt_le_dec (total_cash p) (total_cash low)) as [H|H]; [|exact H].
        apply Qlt_bool_iff in H. congruence. }
      destruct (IH before low (mid ++ [p])%list Hb) as (b' & l' & a' & H1 & H2 & H3 & H4).
      * apply Forall_app. split; [exact Hm|]. constructor; [exact Hle|constructor].
      * exists b', l', a'. split; [|auto].
        rewrite <- H1. rewrite <- !app_assoc. reflexivity.
Qed.

(** X17: the summary of a forecast.  Without a point it is all zero,
    with an empty date.  Otherwise the projected end balance is the total
    cash of the last point, and the lowest projected balance is the total
    cash of a point that no point undercuts: every earlier point has more
    and every later point has as much or more, so the date is that of the
    first day on which the total cash is lowest. *)
Theorem summary_of_a_forecast (first : ForecastPoint) (rest : list ForecastPoint) :
  getForecastSummary [] = mkSummary 0 0 ""
  /\ let points := first :: rest in
     let summary := getForecastSummary points in
     projected_end_balance summary = total_cash (List.last points first)
     /\ exists before lowest after,
         points = (before ++ lowest :: after)%list
         /\ lowest_projected_balance summary = total_cash lowest
         /\ lowest_balance_date summary = point_date lowest
         /\ Forall (fun p => total_cash lowest < total_cash p) before
         /\ Forall (fun p => total_cash lowest <= total_cash p) after.
Proof.
  split; [reflexivity|]. intros points summary.
  unfold summary, points, getForecastSummary.
  destruct (lowest_fold rest [] first [] (List.Forall_nil _) (List.Forall_nil _))
    as (b & l & a & H1 & H2 & H3 & H4).
  cbn [fold_left].
  change (lowest_step (None, "") first) with (Some (total_cash first), point_date first).
  rewrite H2.
  cbn [projected_end_balance lowest_projected_balance lowest_balance_date].
  split; [reflexivity|]. exists b, l, a. simpl in H1.
  split; [exact H1|]. split; [reflexivity|]. split; [reflexivity|]. split; assumption.
Qed.

(** The lowest day of the sample month is the first: the 1st of March,
    with 1500; the month ends with 3000. *)
Example summary_of_the_sample :
  let summary := getForecastSummary (calculateForecast sample_month) in
  (Qred (projected_end_balance summary), Qred (lowest_projected_balance summary),
   lowest_balance_date summary)
  = (3000, 1500, "2024-03-01").
Proof. vm_compute. reflexivity. Qed.

(** The totals of the dashboard, from totals so far. *)
Lemma totals_fold txs : forall income expenses,
  let '(income', expenses') := fold_left DashboardPage.totals_step txs (income, expenses) in
  0 <= income -> 0 <= expenses ->
  0 <= income' /\ 0 <= expenses'
  /\ income' - expenses'
     == income - expenses + total_of tx_amount (List.filter counted_in_totals txs).
Proof.
  induction txs as [|tx txs IH]; intros income expenses.
  - simpl. intros Hi He. repeat split; try assumption. ring.
  - cbn [fold_left List.filter]. unfold DashboardPage.totals_step at 2, counted_in_totals at 1.
    destruct (match tx_transaction_type tx with Some transfer => true | _ => false end
              || truthy_opt (tx_transfer_account_id tx)); cbn [negb].
    + exact (IH income expenses).
    + destruct (Qle_bool 0 (tx_amount tx)) eqn:E.
      * apply Qle_bool_iff in E.
        specialize (IH (income + tx_amount tx) expenses).
        destruct (fold_left _ txs _) as [i' e'].
        intros Hi He. destruct (IH ltac:(lra) He) as (H1 & H2 & H3).
        repeat split; try assumption. rewrite H3, total_of_cons. ring.
      * assert (Hneg : tx_amount tx < 0).
        { apply Qnot_le_lt. intros H. apply Qle_bool_iff in H. congruence. }
        specialize (IH income (expenses + Qabs (tx_amount tx))).
        destruct (fold_left _ txs _) as [i' e'].
        intros Hi He. pose proof (Qabs_nonneg (tx_amount tx)) as Ha.
        destruct (IH Hi ltac:(lra)) as (H1 & H2 & H3).
        repeat split; try assumption. rewrite H3, total_of_cons.
        rewrite (Qabs_neg (tx_amount tx)) by lra. ring.
Qed.

(** X18: the totals of the month on the dashboard.  Income and
    expenses are not negative, and the net, income minus expenses, is the
    sum of the amounts of the transactions that are counted: those that are
    not of type transfer and have no transfer account.  Without a snapshot
    the totals are zero. *)
Theorem totals_of_the_month (snapshot : MonthSnapshot) :
  DashboardPage.totals None = DashboardPage.mkTotals 0 0 0
  /\ let totals := DashboardPage.totals (Some snapshot) in
     0 <= DashboardPage.totals_income totals
     /\ 0 <= DashboardPage.totals_expenses totals
     /\ DashboardPage.totals_net totals
        = DashboardPage.totals_income totals - DashboardPage.totals_expenses totals
     /\ DashboardPage.totals_net totals
        == total_of tx_amount (List.filter counted_in_totals (transactions snapshot)).
Proof.
  split; [reflexivity|]. intros totals. unfold totals, DashboardPage.totals.
  pose proof (totals_fold (transactions snapshot) 0 0) as H.
  destruct (fold_left _ _ _) as [i e].
  destruct (H ltac:(lra) ltac:(lra)) as (H1 & H2 & H3).
  cbn [DashboardPage.totals_income DashboardPage.totals_expenses DashboardPage.totals_net].
  repeat split; try assumption. rewrite H3. ring.
Qed.

(** A [Map] built from pairs: the value of a key is that of the last pair
    with the key. *)
Lemma Map_of_last {V} (pairs : list (string * V)) k :
  Generation.Map_of pairs !! k
  = snd <$> List.find (fun kv => String.eqb (fst kv) k) (rev pairs).
Proof.
  unfold Generation.Map_of. rewrite <- fold_left_rev_right.
  induction (rev pairs) as [|[k' v] l IH]; [reflexivity|].
  cbn [fold_right List.find fst snd].
  destruct (String.eqb_spec k' k) as [->|Hne].
  - rewrite lookup_insert_eq. reflexivity.
  - rewrite lookup_insert_ne by exact Hne. exact IH.
Qed.

Lemma find_map_balances (balances : list StartingBalance) k :
  snd <$> List.find (fun kv => String.eqb (fst kv) k)
                    (map (fun b => (sb_account_id b, sb_amount b)) balances)
  = sb_amount <$> List.find (fun sb => String.eqb (sb_account_id sb) k) balances.
Proof.
  induction balances as [|b balances IH]; [reflexivity|].
  cbn [map List.find fst]. destruct (String.eqb (sb_account_id b) k); [reflexivity|exact IH].
Qed.



End SummaryFacts.

(** ** Month identifiers: the month before, the months of a range *)

Module MonthIds.

Import JS Calendar Types SpecNotions Days.
Import JSFacts CalendarFacts StringFacts ScheduleFacts CalendarMore MonthFacts.
Local Open Scope string_scope.
Local Open Scope Z_scope.
Local Arguments String.append !_ _ / : simpl nomatch.

(** The year and the month read from a month identifier. *)
Lemma month_id_parts y m :
  0 <= y -> 1 <= m <= 12 ->
  nth_Number 0 (split "-" (monthIdOf y m)) = Some y
  /\ nth_Number 1 (split "-" (monthIdOf y m)) = Some m.
Proof.
  intros Hy Hm. unfold monthIdOf.
  destruct (Number_toString y Hy) as [Dy Ny].
  destruct (two_digits_number m ltac:(lia)) as [Dm Nm].
  rewrite (split_month_id _ _ Dy Dm). unfold nth_Number. cbn [nth_error].
  split; assumption.
Qed.

Lemma month_of_sum y k :
  year_of_month (12 * y + k) = y + k / 12 /\ month_of_month (12 * y + k) = k mod 12 + 1.
Proof.
  unfold year_of_month, month_of_month.
  replace (12 * y + k) with (k + y * 12) by ring.
  rewrite Z.div_add, Z_mod_plus_full by lia. split; ring.
Qed.

Lemma month_id_of y k :
  month_id (12 * y + k) = monthIdOf (y + k / 12) (k mod 12 + 1).
Proof. unfold month_id. destruct (month_of_sum y k) as [-> ->]. reflexivity. Qed.

(** [new Date(y, k, 1)] is the first day of a month. *)
Lemma newDate_month y k :
  newDate (Some y) (Some k) (Some 1) = Some (month_start (12 * year_read y + k)).
Proof.
  unfold newDate, month_start, year_read.
  destruct (month_of_sum (if (0 <=? y) && (y <=? 99) then 1900 + y else y) k) as [-> ->].
  f_equal. ring.
Qed.

(** The identifier written for the first day of a month. *)
Lemma formatMonthId_start i :
  GainLossPage.formatMonthId (Some (month_start i)) = month_id i.
Proof.
  unfold GainLossPage.formatMonthId, getFullYear, getMonth, add, lift2, option_map.
  destruct (month_facts i) as (-> & _ & _). cbn [fst snd].
  replace (month_of_month i - 1 + 1) with (month_of_month i) by ring. reflexivity.
Qed.

(** [setMonth] on the first day of a month. *)
Lemma setMonth_start i k :
  GainLossPage.setMonth (Some (month_start i)) (Some k)
  = Some (month_start (12 * year_of_month i + k)).
Proof.
  unfold GainLossPage.setMonth. destruct (month_facts i) as (-> & _ & _).
  unfold month_start. destruct (month_of_sum (year_of_month i) k) as [-> ->].
  f_equal. ring.
Qed.

Lemma month_split i : i = 12 * year_of_month i + (month_of_month i - 1).
Proof.
  unfold year_of_month, month_of_month. pose proof (Z.div_mod i 12). lia.
Qed.

Lemma getMonth_start i : getMonth (Some (month_start i)) = Some (month_of_month i - 1).
Proof.
  unfold getMonth, option_map. destruct (month_facts i) as (-> & _ & _). reflexivity.
Qed.

(** X20: the month before a month, for a year from 0 to 275759, the
    last year that a [Date] holds in full.  The arithmetic of the
    application shell and of the monthly setup page gives the identifier of
    the month before, December of the year before for a January.  The date
    arithmetic of the gain and loss page gives the same identifier from the
    year 100 on; it reads a year from 0 to 99 as 1900 to 1999 and gives the
    month before in that year. *)
Theorem previous_month_ids (y m : Z) :
  0 <= y <= last_full_year -> 1 <= m <= 12 ->
  App.getPreviousMonthId (monthIdOf y m) = month_id (month_count y m - 1)
  /\ GainLossPage.getPreviousMonthId (monthIdOf y m)
     = month_id (month_count (year_read y) m - 1).
Proof.
  intros [Hy _] Hm. destruct (month_id_parts y m Hy Hm) as [Py Pm]. split.
  - unfold App.getPreviousMonthId. rewrite Py, Pm. unfold sub, lift2.
    destruct (Z.eq_dec m 1) as [->|Hne].
    + replace (month_count y 1 - 1) with (12 * (y - 1) + 11)
        by (unfold month_count; ring).
      rewrite month_id_of. change (11 / 12) with 0. change (11 mod 12 + 1) with 12.
      rewrite Z.add_0_r. reflexivity.
    + replace (month_count y m - 1) with (12 * y + (m - 2))
        by (unfold month_count; ring).
      rewrite month_id_of, Z.div_small, Z.mod_small by lia.
      replace (y + 0) with y by ring. replace (m - 2 + 1) with (m - 1) by ring.
      destruct (m - 1) eqn:E; try lia; reflexivity.
  - unfold GainLossPage.getPreviousMonthId. rewrite Py, Pm. cbv zeta.
    unfold sub, lift2. rewrite newDate_month, getMonth_start.
    rewrite setMonth_start, formatMonthId_start. f_equal.
    unfold month_count.
    rewrite (month_split (12 * year_read y + (m - 1))) at 3. ring.
Qed.

Lemma previous_month_ids_witness :
  App.getPreviousMonthId (monthIdOf 2024 1) = month_id (month_count 2024 1 - 1)
  /\ GainLossPage.getPreviousMonthId (monthIdOf 2024 1)
     = month_id (month_count (year_read 2024) 1 - 1).
Proof. apply (previous_month_ids 2024 1); unfold last_full_year; lia. Defined.

(** The month before January 2024, and what the two functions make of an
    identifier that is not one and of a year of two digits. *)
Example previous_months :
  App.getPreviousMonthId "2024-01" = "2023-12"
  /\ GainLossPage.getPreviousMonthId "2024-01" = "2023-12"
  /\ App.getPreviousMonthId "next" = "NaN-NaN"
  /\ GainLossPage.getPreviousMonthId "next" = "NaN-NaN"
  /\ App.getPreviousMonthId "50-03" = "50-02"
  /\ GainLossPage.getPreviousMonthId "50-03" = "1950-02".
Proof. repeat split; reflexivity. Qed.

Lemma month_id_truthy y m : truthy (monthIdOf y m) = true.
Proof.
  unfold monthIdOf. destruct (toString (Some y)) as [|c rest]; reflexivity.
Qed.

Lemma setMonth_next i :
  GainLossPage.setMonth (Some (month_start i)) (add (getMonth (Some (month_start i))) (Some 1))
  = Some (month_start (i + 1)).
Proof.
  rewrite getMonth_start. unfold add, lift2. rewrite setMonth_start. do 2 f_equal.
  rewrite (month_split i) at 3. ring.
Qed.

(** The loop lists the months from the cursor to the end. *)
Lemma month_loop_lists j fuel :
  forall i, (Z.to_nat (j + 1 - i) <= fuel)%nat ->
  GainLossPage.month_loop fuel (Some (month_start j)) (Some (month_start i))
  = map month_id (days_from_to i j).
Proof.
  induction fuel as [|fuel IH]; intros i Hfuel.
  - unfold days_from_to. replace (Z.to_nat (j - i + 1)) with O by lia. reflexivity.
  - cbn [GainLossPage.month_loop]. unfold date_le.
    destruct (Z.leb_spec (month_start i) (month_start j)) as [Hle|Hgt].
    + assert (Hij : i <= j).
      { destruct (Z_le_gt_dec i j) as [H|H]; [exact H|].
        pose proof (month_start_increasing j i ltac:(lia)). lia. }
      rewrite setMonth_next, formatMonthId_start, IH by lia.
      unfold days_from_to. replace (Z.to_nat (j - i + 1)) with (S (Z.to_nat (j - (i + 1) + 1))) by lia.
      rewrite days_from_next. reflexivity.
    + assert (Hij : j < i).
      { destruct (Z_lt_le_dec j i) as [H|H]; [exact H|].
        destruct (Z.eq_dec i j) as [->|Hne]; [lia|].
        pose proof (month_start_increasing i j ltac:(lia)). lia. }
      unfold days_from_to. replace (Z.to_nat (j - i + 1)) with O by lia. reflexivity.
Qed.

(** A month has a day at least. *)
Lemma month_start_gap i (n : nat) :
  month_start i + Z.of_nat n <= month_start (i + Z.of_nat n).
Proof.
  induction n as [|n IH].
  - replace (i + Z.of_nat 0) with i by lia. lia.
  - pose proof (month_start_increasing (i + Z.of_nat n) (i + Z.of_nat (S n)) ltac:(lia)). lia.
Qed.

(** X21: a month and a whole number of months after or before it.
    For a month of a year from 0 to 275759, and a month to reach that lies
    in the years that a [Date] holds in full (-271820 to 275759),
    [addMonths] gives the identifier of the month that many months later,
    or earlier for a negative number, across the ends of the years; a year
    from 0 to 99 is read as 1900 to 1999. *)
Theorem addMonths_counts_months (y m delta : Z) :
  0 <= y <= last_full_year -> 1 <= m <= 12 ->
  first_full_year <= year_of_month (month_count (year_read y) m + delta) <= last_full_year ->
  GainLossPage.addMonths (monthIdOf y m) delta
  = month_id (month_count (year_read y) m + delta).
Proof.
  intros [Hy _] Hm _. destruct (month_id_parts y m Hy Hm) as [Py Pm].
  unfold GainLossPage.addMonths. rewrite Py, Pm. cbv zeta. unfold sub, add, lift2.
  rewrite newDate_month, formatMonthId_start. f_equal. unfold month_count. ring.
Qed.

Lemma addMonths_counts_months_witness :
  GainLossPage.addMonths (monthIdOf 2024 1) (-11)
  = month_id (month_count (year_read 2024) 1 + -11).
Proof.
  apply (addMonths_counts_months 2024 1 (-11)).
  - unfold last_full_year. lia.
  - lia.
  - vm_compute. split; discriminate.
Defined.

(** X22: the months of a range.  For two months of years from 0 to
    275759, [buildMonthRange] lists the identifiers of the months from the
    first to the last, both included, in order and each once; the list is
    empty when the last month is before the first.  Years from 0 to 99 are
    read as 1900 to 1999. *)
Theorem buildMonthRange_lists_months (y1 m1 y2 m2 : Z) :
  0 <= y1 <= last_full_year -> 1 <= m1 <= 12 ->
  0 <= y2 <= last_full_year -> 1 <= m2 <= 12 ->
  GainLossPage.buildMonthRange (monthIdOf y1 m1) (monthIdOf y2 m2)
  = map month_id
      (days_from_to (month_count (year_read y1) m1) (month_count (year_read y2) m2)).
Proof.
  intros [Hy1 _] Hm1 [Hy2 _] Hm2.
  destruct (month_id_parts y1 m1 Hy1 Hm1) as [Py1 Pm1].
  destruct (month_id_parts y2 m2 Hy2 Hm2) as [Py2 Pm2].
  unfold GainLossPage.buildMonthRange. rewrite !month_id_truthy. cbn [negb orb]. cbv zeta.
  rewrite Py1, Pm1, Py2, Pm2. unfold sub, lift2. rewrite !newDate_month.
  fold (month_count (year_read y1) m1). fold (month_count (year_read y2) m2).
  set (i := month_count (year_read y1) m1). set (j := month_count (year_read y2) m2).
  unfold date_lt. destruct (Z.ltb_spec (month_start j) (month_start i)) as [Hlt|Hle].
  - assert (Hji : j < i).
    { destruct (Z_lt_le_dec j i) as [H|H]; [exact H|].
      destruct (Z.eq_dec i j) as [E|Hne]; [rewrite E in Hlt; lia|].
      pose proof (month_start_increasing i j ltac:(lia)). lia. }
    unfold days_from_to. replace (Z.to_nat (j - i + 1)) with O by lia. reflexivity.
  - apply month_loop_lists. unfold days_until.
    destruct (Z_le_gt_dec i j) as [Hij|Hij]; [|lia].
    pose proof (month_start_gap i (Z.to_nat (j - i))) as Hgap.
    replace (i + Z.of_nat (Z.to_nat (j - i))) with j in Hgap by lia. lia.
Qed.

Lemma buildMonthRange_lists_months_witness :
  GainLossPage.buildMonthRange (monthIdOf 2023 11) (monthIdOf 2024 2)
  = map month_id
      (days_from_to (month_count (year_read 2023) 11) (month_count (year_read 2024) 2)).
Proof. apply (buildMonthRange_lists_months 2023 11 2024 2); unfold last_full_year; lia. Defined.

(** The months from November 2023 to February 2024, and eleven months
    before January 2024. *)
Example months_of_a_range :
  GainLossPage.buildMonthRange "2023-11" "2024-02" = ["2023-11"; "2023-12"; "2024-01"; "2024-02"]
  /\ GainLossPage.buildMonthRange "2024-02" "2023-11" = []
  /\ GainLossPage.addMonths "2024-01" (-11) = "2023-02".
Proof. repeat split; reflexivity. Qed.

End MonthIds.

(** ** The deposit splits of a month setup, normalised *)

Module SplitsNormal.

Import JS Types Effects SpecNotions AppNotions EffectsFacts.
Local Open Scope string_scope.
Local Open Scope Q_scope.

(** An account identifier that is not empty and names an account. *)
Local Abbreviation named accounts :=
  (fun split : PaycheckDepositSplit =>
     truthy (split_account_id split) = true
     /\ In (split_account_id split) (map acc_id accounts)).

Lemma firstId_named (l : list Account) :
  truthy (App.or_else (App.firstId l) "") = true ->
  In (App.or_else (App.firstId l) "") (map acc_id l).
Proof.
  unfold App.or_else, App.firstId. destruct l as [|a l]; cbn; [discriminate|].
  destruct (truthy (acc_id a)); [left; reflexivity|discriminate].
Qed.

(** The fallback account names an account when it is not empty. *)
Lemma fallback_named accounts :
  truthy (fallbackAccount accounts) = true ->
  In (fallbackAccount accounts) (map acc_id accounts).
Proof.
  unfold fallbackAccount.
  set (cash := List.filter _ accounts).
  assert (Hsub : forall id, In id (map acc_id cash) -> In id (map acc_id accounts)).
  { intros id Hin. apply in_map_iff in Hin as (a & <- & Ha).
    apply filter_In in Ha as [Ha _]. apply in_map. exact Ha. }
  pose proof (firstId_named accounts) as Hfirst.
  set (other := App.or_else (App.firstId accounts) "") in *.
  unfold App.or_else.
  destruct (truthy_opt (App.firstId cash)) eqn:Hcash.
  - intros _. apply Hsub. unfold App.firstId in *.
    destruct cash as [|a l]; cbn in *; [discriminate|]. left. reflexivity.
  - exact Hfirst.
Qed.

(** What the second loop leaves: the accounts as they were, no remainder
    when one was given before, one at most otherwise, and no amount on a
    remainder. *)
Lemma assignRemainder_spec (P : string -> Prop) :
  forall splits assigned,
    Forall (fun split => P (split_account_id split)) splits ->
    Forall (fun split => P (split_account_id split)) (App.assignRemainder assigned splits)
    /\ (length (List.filter takes_remainder (App.assignRemainder assigned splits))
        <= if assigned then 0 else 1)%nat
    /\ Forall (fun split => takes_remainder split = true -> split_amount split = 0)
              (App.assignRemainder assigned splits)
    /\ length (App.assignRemainder assigned splits) = length splits.
Proof.
  induction splits as [|split rest IH]; intros assigned Hall.
  - cbn. repeat split; try constructor. destruct assigned; lia.
  - inversion Hall as [|? ? Hsplit Hrest]; subst. cbn [App.assignRemainder].
    destruct (truthy_flag (is_remainder split)) eqn:Hrem; cbn [negb].
    + destruct assigned.
      * destruct (IH true Hrest) as (H1 & H2 & H3 & H4).
        repeat split.
        -- constructor; assumption.
        -- cbn [List.filter]. unfold takes_remainder at 1. cbn. exact H2.
        -- constructor; [|exact H3]. unfold takes_remainder. cbn. discriminate.
        -- cbn [length]. rewrite H4. reflexivity.
      * destruct (IH true Hrest) as (H1 & H2 & H3 & H4).
        repeat split.
        -- constructor; assumption.
        -- cbn [List.filter]. unfold takes_remainder at 1. cbn [is_remainder].
           rewrite Hrem. cbn [length]. lia.
        -- constructor; [|exact H3]. intros _. reflexivity.
        -- cbn [length]. rewrite H4. reflexivity.
    + destruct (IH assigned Hrest) as (H1 & H2 & H3 & H4).
      repeat split.
      * constructor; assumption.
      * cbn [List.filter]. unfold takes_remainder at 1. rewrite Hrem. exact H2.
      * constructor; [|exact H3]. unfold takes_remainder. rewrite Hrem. discriminate.
      * cbn [length]. rewrite H4. reflexivity.
Qed.

(** The split written for a whole paycheck. *)
Lemma wholePaycheckSplit_spec account_id :
  holds (fun split => split_account_id split = account_id
                      /\ takes_remainder split = true /\ split_amount split = 0)
        (App.wholePaycheckSplit account_id).
Proof.
  unfold App.wholePaycheckSplit. eapply holds_bind; [apply holds_any|].
  intros id _. apply holds_ret. repeat split; reflexivity.
Qed.

(** The account of a cleaned split. *)
Lemma cleanSplit_account (validIds : gset string) fallback split :
  holds (fun cleaned => split_account_id cleaned ∈ validIds
                        \/ split_account_id cleaned = fallback)
        (App.cleanSplit validIds fallback split).
Proof.
  unfold App.cleanSplit. eapply holds_bind; [apply holds_any|].
  intros id _. apply holds_ret. cbn [split_account_id].
  destruct (bool_decide (split_account_id split ∈ validIds)) eqn:Hin.
  - left. apply bool_decide_eq_true in Hin. exact Hin.
  - right. reflexivity.
Qed.

(** The last step: a split that is alone and fixed takes the remainder. *)
Lemma lone_split_spec accounts (splits : list PaycheckDepositSplit) :
  Forall (named accounts) splits ->
  (length (List.filter takes_remainder splits) <= 1)%nat ->
  Forall (fun split => takes_remainder split = true -> split_amount split = 0) splits ->
  normalized accounts
    (if negb (existsb (fun split => truthy_flag (is_remainder split)) splits)
        && Nat.eqb (length splits) 1
     then map (fun split =>
                 {| split_id := split_id split; split_account_id := split_account_id split;
                    split_amount := 0; is_remainder := Some true |})
              splits
     else splits).
Proof.
  intros Hnamed Hcount Hzero.
  destruct (existsb _ splits) eqn:Hex; cbn [negb andb].
  - repeat split; try assumption. intros Hlen.
    destruct splits as [|split [|? ?]]; try discriminate.
    cbn in Hex. rewrite orb_false_r in Hex. constructor; [exact Hex|constructor].
  - destruct (Nat.eqb_spec (length splits) 1) as [Hlen|Hlen].
    + destruct splits as [|split [|? ?]]; try discriminate.
      inversion Hnamed; subst. cbn [map]. repeat split.
      * constructor; [assumption|constructor].
      * cbn. lia.
      * constructor; [reflexivity|constructor].
      * intros _. constructor; [reflexivity|constructor].
    + repeat split; try assumption. intros Hlen'. contradiction.
Qed.

(** X23: the deposit splits that [normalizePaycheckSplits]
    returns are in normal form, whatever the month setup holds and
    whatever identifiers are drawn: every split names an account of the
    list by an identifier that is not empty, one split at most takes the
    remainder, a split that takes the remainder has the amount 0, and a
    split that is alone takes the remainder.  When the first account that
    is not a loan, or else the first account, has an identifier that is
    not empty, there is a split at least. *)
Theorem normalizePaycheckSplits_normal (monthSetup : App.StoredMonthSetup)
        (accounts : list Account) :
  holds (fun splits =>
           normalized accounts splits
           /\ (truthy (fallbackAccount accounts) = true -> splits <> []))
        (App.normalizePaycheckSplits monthSetup accounts).
Proof.
  unfold App.normalizePaycheckSplits. cbv zeta.
  fold (fallbackAccount accounts).
  set (fallback := fallbackAccount accounts).
  set (cash := List.filter _ accounts).
  set (validIds := list_to_set (map acc_id cash) : gset string).
  assert (Hvalid : forall id, id ∈ validIds -> In id (map acc_id accounts)).
  { intros id Hin. unfold validIds in Hin. apply elem_of_list_to_set in Hin.
    apply list_elem_of_In in Hin. apply in_map_iff in Hin as (a & <- & Ha).
    apply filter_In in Ha as [Ha _]. apply in_map. exact Ha. }
  eapply (holds_bind (fun _ => True)); [apply holds_any|]. intros splits0 _.
  eapply (holds_bind (Forall (fun cleaned => split_account_id cleaned ∈ validIds
                                            \/ split_account_id cleaned = fallback))).
  { apply holds_mapM_all. intros split. apply cleanSplit_account. }
  intros cleaned Hcleaned.
  set (kept := List.filter (fun split => truthy (split_account_id split)) cleaned).
  assert (Hkept : Forall (fun split => (named accounts) split) kept).
  { apply List.Forall_forall. intros split Hin. apply filter_In in Hin as [Hin Htruthy].
    rewrite List.Forall_forall in Hcleaned. split; [exact Htruthy|].
    destruct (Hcleaned split Hin) as [Hv|Hf]; [apply Hvalid; exact Hv|].
    rewrite Hf in *. apply fallback_named. exact Htruthy. }
  destruct (assignRemainder_spec
              (fun id => truthy id = true /\ In id (map acc_id accounts)) kept false Hkept)
    as (H1 & H2 & H3 & H4).
  eapply (holds_bind (fun splits =>
            Forall (named accounts) splits
            /\ (length (List.filter takes_remainder splits) <= 1)%nat
            /\ Forall (fun split => takes_remainder split = true -> split_amount split = 0)
                      splits
            /\ (truthy fallback = true -> splits <> []))).
  - fold kept. destruct (App.assignRemainder false kept) as [|split rest] eqn:Hassigned.
    + destruct (truthy fallback) eqn:Hfallback.
      * eapply holds_bind; [apply wholePaycheckSplit_spec|].
        intros split (Hacc & Hrem & Hamount). apply holds_ret. repeat split.
        -- constructor; [|constructor]. rewrite Hacc. split; [exact Hfallback|].
           apply fallback_named. exact Hfallback.
        -- cbn. rewrite Hrem. cbn. lia.
        -- constructor; [intros _; exact Hamount|constructor].
        -- discriminate.
      * apply holds_ret.
        split; [constructor|]. split; [cbn; lia|]. split; [constructor|].
        intros Habsurd. discriminate Habsurd.
    + apply holds_ret.
      split; [exact H1|]. split; [exact H2|]. split; [exact H3|].
      intros _. discriminate.
  - intros splits (Hn & Hc & Hz & Hne). apply holds_ret. split.
    + apply lone_split_spec; assumption.
    + intros Hf. specialize (Hne Hf).
      destruct (negb _ && _); [|exact Hne].
      destruct splits; [contradiction|discriminate].
Qed.

(** Two splits that both ask for the remainder, a split for an account
    that is a loan and a split without an identifier: the first keeps the
    remainder, the second becomes a fixed split, the third goes to the
    first account that is not a loan, the last gets an identifier. *)
Example splits_of_a_stored_setup :
  fst (App.normalizePaycheckSplits
         {| App.stored_setup :=
              sample_setup [mkSplit "s1" "acc2" 100 (Some true);
                            mkSplit "s2" "acc1" 200 (Some true);
                            mkSplit "s3" "loan1" 50 None;
                            mkSplit "" "acc2" 25 (Some false)];
            App.paycheck_deposit_account_id := None |}
         [sample_loan; sample_checking; sample_savings] sample_world)
  = [mkSplit "s1" "acc2" 0 (Some true); mkSplit "s2" "acc1" 200 (Some false);
     mkSplit "s3" "acc1" 50 (Some false); mkSplit (uuids sample_world 0) "acc2" 25 (Some false)].
Proof. reflexivity. Qed.

End SplitsNormal.

(** ** The order of the running balances *)

Module BalanceOrder.

Import JS Types MonthDetailPage.
Local Open Scope string_scope.

Lemma includes_In l id : includes l id = true <-> In id l.
Proof.
  unfold includes. rewrite existsb_exists. split.
  - intros (x & Hin & Heq). apply String.eqb_eq in Heq. subst. exact Hin.
  - intros Hin. exists id. split; [exact Hin|apply String.eqb_refl].
Qed.

Lemma includes_not_In l id : includes l id = false <-> ~ In id l.
Proof.
  rewrite <- includes_In. destruct (includes l id); split; intros H;
    try reflexivity; try discriminate; try (intros H'; discriminate). contradiction H. reflexivity.
Qed.

(** A filter that keeps every element. *)
Lemma filter_all {A} (f : A -> bool) l :
  (forall x, In x l -> f x = true) -> List.filter f l = l.
Proof.
  induction l as [|x l IH]; intros Hall; [reflexivity|].
  cbn [List.filter]. rewrite (Hall x (or_introl eq_refl)). f_equal.
  apply IH. intros y Hy. apply Hall. right. exact Hy.
Qed.

(** A filter that keeps no element. *)
Lemma filter_none {A} (f : A -> bool) l :
  (forall x, In x l -> f x = false) -> List.filter f l = [].
Proof.
  induction l as [|x l IH]; intros Hall; [reflexivity|].
  cbn [List.filter]. rewrite (Hall x (or_introl eq_refl)).
  apply IH. intros y Hy. apply Hall. right. exact Hy.
Qed.

(** The test from an index on: the list tested is what comes next in the
    other list. *)
Lemma every_at_spec :
  forall a before b,
    every_at (before ++ b) (length before) a = true <-> exists after, b = (a ++ after)%list.
Proof.
  induction a as [|value rest IH]; intros before b.
  - cbn. split; [intros _; exists b; reflexivity|reflexivity].
  - cbn [every_at]. rewrite nth_error_app2, Nat.sub_diag by lia.
    destruct b as [|other b']; cbn [nth_error].
    + split; [discriminate|]. intros (after & H). discriminate H.
    + rewrite andb_true_iff, String.eqb_eq.
      replace (before ++ other :: b')%list with ((before ++ [other]) ++ b')%list
        by (rewrite <- app_assoc; reflexivity).
      replace (S (length before)) with (length (before ++ [other])%list)
        by (rewrite length_app; cbn; lia).
      rewrite IH. split.
      * intros [-> (after & ->)]. exists after. reflexivity.
      * intros (after & H). injection H as -> ->. split; [reflexivity|].
        exists after. reflexivity.
Qed.

(** [arraysEqual] tells whether two lists of identifiers are the same
    list: the same identifiers in the same order. *)
Lemma arraysEqual_is_equality (a b : list string) :
  arraysEqual a b = true <-> a = b.
Proof.
  unfold arraysEqual. destruct (Nat.eqb_spec (length a) (length b)) as [Hlen|Hlen]; cbn [negb].
  - rewrite (every_at_spec a [] b). split.
    + intros (after & ->). rewrite length_app in Hlen.
      destruct after; [symmetry; apply app_nil_r|cbn in Hlen; lia].
    + intros ->. exists []. symmetry. apply app_nil_r.
  - split; [discriminate|]. intros ->. contradiction Hlen. reflexivity.
Qed.

(** X24: the order of the running balances, normalised.  The list
    holds the identifiers of the accounts and nothing else; the identifiers
    of the stored order that still name an account come first, in the order
    they were stored in, then the accounts the stored order does not name,
    in the order of the accounts.  Normalising the result again changes
    nothing, and [arraysEqual] finds the two lists equal, so the effect
    that stores the normalised order settles. *)
Theorem normalizeBalanceOrder_settles (order : list string) (accounts : list Account) :
  let ids := map acc_id accounts in
  let next := normalizeBalanceOrder order accounts in
  (forall id, In id next <-> In id ids)
  /\ next = (List.filter (fun id => includes ids id) order
             ++ List.filter (fun id => negb (includes order id)) ids)%list
  /\ normalizeBalanceOrder next accounts = next
  /\ arraysEqual (normalizeBalanceOrder next accounts) next = true.
Proof.
  cbv zeta. unfold normalizeBalanceOrder.
  set (ids := map acc_id accounts).
  set (existing := List.filter (fun id => includes ids id) order).
  set (missing := List.filter (fun id => negb (includes existing id)) ids).
  assert (Hexisting : forall id, In id existing <-> In id order /\ In id ids).
  { intros id. unfold existing. rewrite filter_In, includes_In. reflexivity. }
  assert (Hmissing : forall id, In id missing <-> In id ids /\ ~ In id existing).
  { intros id. unfold missing. rewrite filter_In, negb_true_iff, includes_not_In. reflexivity. }
  assert (Hmembers : forall id, In id (existing ++ missing)%list <-> In id ids).
  { intros id. rewrite in_app_iff, Hexisting, Hmissing. split.
    - intros [[_ H]|[H _]]; exact H.
    - intros H. destruct (in_dec string_dec id order) as [Ho|Ho].
      + left. split; assumption.
      + right. split; [exact H|]. rewrite Hexisting. intros [Ho' _]. contradiction. }
  assert (Hidem : (List.filter (fun id => includes ids id) (existing ++ missing)
                   ++ List.filter
                        (fun id => negb (includes
                                           (List.filter (fun id0 => includes ids id0)
                                                        (existing ++ missing)) id)) ids)%list
                  = (existing ++ missing)%list).
  { rewrite (filter_all (fun id => includes ids id) (existing ++ missing)%list).
    2:{ intros id Hin. apply includes_In, Hmembers. exact Hin. }
    rewrite filter_none; [apply app_nil_r|].
    intros id Hin. apply negb_false_iff, includes_In, Hmembers. exact Hin. }
  split; [exact Hmembers|]. split.
  - f_equal. unfold missing. apply filter_ext_in. intros id Hin. f_equal.
    destruct (includes order id) eqn:Ho.
    + apply includes_In, Hexisting. split; [apply includes_In; exact Ho|exact Hin].
    + apply includes_not_In. rewrite Hexisting. intros [Ho' _].
      apply includes_In in Ho'. congruence.
  - split; [exact Hidem|]. apply arraysEqual_is_equality. exact Hidem.
Qed.

End BalanceOrder.

(** ** Reading a line of comma separated values *)

Module CsvFacts.

Import JS Types GainLossPage CsvNotions StringFacts.
Local Open Scope string_scope.
Local Arguments String.append !_ _ / : simpl nomatch.

Lemma rev_rev_app (a : string) : String.rev (String.rev_app a "") = a.
Proof. unfold String.rev. rewrite rev_app_twice. simpl. apply append_empty. Qed.

(** Plain characters outside quotes go to the field at hand. *)
Lemma parse_plain a : forall current tail,
  csv_plain a = true ->
  parseCsvLine_from current false (a ++ tail)
  = parseCsvLine_from (String.rev_app a current) false tail.
Proof.
  induction a as [|char a IH]; intros current tail Hplain; [reflexivity|].
  cbn [csv_plain] in Hplain. apply andb_true_iff in Hplain as [Hchar Hplain].
  apply andb_true_iff in Hchar as [Hquote Hcomma].
  apply negb_true_iff in Hquote, Hcomma.
  simpl. rewrite Hquote, Hcomma. cbn [andb]. apply IH. exact Hplain.
Qed.

(** Whether a string starts with a double quote. *)
Local Abbreviation starts_with_quote tail :=
  (match tail with String next _ => Ascii.eqb next quote | EmptyString => false end).

(** Between quotes every character goes to the field at hand, a doubled
    quote as one quote, up to the closing quote. *)
Lemma parse_quoted a : forall current tail,
  starts_with_quote tail = false ->
  parseCsvLine_from current true (csv_doubled a ++ String quote tail)
  = parseCsvLine_from (String.rev_app a current) false tail.
Proof.
  induction a as [|char a IH]; intros current tail Htail.
  - simpl. destruct tail as [|next rest]; [reflexivity|].
    rewrite Htail. reflexivity.
  - cbn [csv_doubled]. destruct (Ascii.eqb_spec char quote) as [->|Hne].
    + simpl. apply IH. exact Htail.
    + simpl. apply Ascii.eqb_neq in Hne. rewrite Hne. rewrite andb_false_r.
      apply IH. exact Htail.
Qed.

(** A written cell, at the start of a field. *)
Lemma parse_written cell text tail :
  csv_written cell text -> starts_with_quote tail = false ->
  parseCsvLine_from "" false (text ++ tail)
  = parseCsvLine_from (String.rev_app cell "") false tail.
Proof.
  intros [[Hplain ->]| ->] Htail.
  - apply parse_plain. exact Hplain.
  - unfold csv_quoted. simpl. rewrite append_assoc. simpl.
    apply parse_quoted. exact Htail.
Qed.

(** Written cells with commas between them are read back. *)
Lemma parse_cells : forall cells texts,
  Forall2 csv_written cells texts -> cells <> [] ->
  parseCsvLine_from "" false (String.concat "," texts) = cells.
Proof.
  induction 1 as [|cell text cells texts Hcell Hrest IH]; intros Hne; [contradiction|].
  destruct Hrest as [|cell' text' cells' texts' Hcell' Hrest'].
  - cbn [String.concat]. rewrite <- (append_empty text).
    rewrite (parse_written cell text "" Hcell eq_refl). cbn [parseCsvLine_from].
    rewrite rev_rev_app. reflexivity.
  - change (String.concat "," (text :: text' :: texts'))
      with (text ++ String "," (String.concat "," (text' :: texts'))).
    rewrite (parse_written cell text (String "," (String.concat "," (text' :: texts')))
                           Hcell eq_refl).
    cbn [parseCsvLine_from]. change (Ascii.eqb "," quote) with false.
    change (Ascii.eqb "," ",") with true. cbn [andb negb].
    rewrite rev_rev_app. f_equal. apply IH. discriminate.
Qed.

Lemma plain_written cell : csv_plain cell = true -> csv_written cell cell.
Proof. intros H. left. split; [exact H|reflexivity]. Qed.

(** X25: reading a line of comma separated values gives the cells back.
    When every cell is written as it is, having no comma and no double
    quote, or between double quotes with its double quotes doubled, and the
    cells are joined by commas, [parseCsvLine] returns the cells: commas
    between quotes do not end a cell, and a doubled quote is read as one. *)
Theorem parseCsvLine_reads_cells (cells texts : list string) :
  Forall2 csv_written cells texts -> cells <> [] ->
  parseCsvLine (String.concat "," texts) = cells.
Proof. intros Hwritten Hne. apply parse_cells; assumption. Qed.

Lemma parseCsvLine_reads_cells_witness :
  parseCsvLine (String.concat "," ["Checking"; csv_quoted "Smith, John"; ""])
  = ["Checking"; "Smith, John"; ""].
Proof.
  apply (parseCsvLine_reads_cells ["Checking"; "Smith, John"; ""]
                                  ["Checking"; csv_quoted "Smith, John"; ""]).
  - constructor; [left; split; reflexivity|].
    constructor; [right; reflexivity|].
    constructor; [left; split; reflexivity|constructor].
  - discriminate.
Defined.

(** X26: the lines of the downloaded template read back.  For
    months and an account name without a comma and a double quote, the
    header of the template is read as the cell Account and the months, and
    the line of the account as its name and an empty cell for every
    month. *)
Theorem template_lines_read_back (months : list string) (acc : Account) :
  Forall (fun month => csv_plain month = true) months ->
  csv_plain (acc_name acc) = true ->
  parseCsvLine (templateHeader months) = "Account" :: months
  /\ parseCsvLine (templateRow months acc) = acc_name acc :: map (fun _ => "") months.
Proof.
  intros Hmonths Hname. split.
  - apply parse_cells; [|discriminate]. constructor; [left; split; reflexivity|].
    induction Hmonths as [|month months Hmonth _ IH]; constructor.
    + apply plain_written. exact Hmonth.
    + exact IH.
  - apply parse_cells; [|discriminate]. constructor; [apply plain_written; exact Hname|].
    clear. induction months as [|month months IH]; cbn [map]; constructor.
    + left. split; reflexivity.
    + exact IH.
Qed.

Lemma template_lines_read_back_witness :
  parseCsvLine (templateHeader ["2024-01"; "2024-02"]) = "Account" :: ["2024-01"; "2024-02"]
  /\ parseCsvLine (templateRow ["2024-01"; "2024-02"] SpecNotions.sample_checking)
     = acc_name SpecNotions.sample_checking :: map (fun _ => "") ["2024-01"; "2024-02"].
Proof.
  apply (template_lines_read_back ["2024-01"; "2024-02"] SpecNotions.sample_checking).
  - repeat constructor.
  - reflexivity.
Defined.

(** A name with a comma is not written between quotes by the template, and
    is read back as two cells; a quote that is not closed takes the rest of
    the line. *)
Example lines_that_do_not_read_back :
  parseCsvLine (templateRow ["2024-01"] (mkAccount "a" "Smith, John" checking true 0 0))
  = ["Smith"; " John"; ""]
  /\ parseCsvLine (String.concat "," [String quote "a"; "b"]) = ["a,b"].
Proof. split; reflexivity. Qed.

End CsvFacts.

(** ** The totals of the gain and loss page *)

Module GainLossTotals.

Import JS Types Totals ForecastNotions GainLossNotions PayrollTotals SummaryFacts.
Local Open Scope Q_scope.

(** A filter after a wider filter. *)
Lemma filter_within {A} (f g : A -> bool) l :
  (forall x, f x = true -> g x = true) ->
  List.filter f (List.filter g l) = List.filter f l.
Proof.
  intros Hsub. induction l as [|x l IH]; [reflexivity|].
  cbn [List.filter]. destruct (g x) eqn:Hg; cbn [List.filter]; rewrite IH.
  - reflexivity.
  - destruct (f x) eqn:Hf; [|reflexivity]. rewrite (Hsub x Hf) in Hg. discriminate.
Qed.

(** The totals of the loop, from totals so far. *)
Lemma totals_step_fold balanceMap accounts : forall totals,
  let totals' := fold_left (GainLossPage.totals_step balanceMap) accounts totals in
  GainLossPage.cash totals'
  == GainLossPage.cash totals
     + total_of (balance_in balanceMap) (List.filter counted_as_cash accounts)
  /\ GainLossPage.investments totals'
     == GainLossPage.investments totals
        + total_of (balance_in balanceMap) (List.filter counted_as_investment accounts)
  /\ GainLossPage.cashAndInvestments totals'
     == GainLossPage.cashAndInvestments totals
        + total_of (balance_in balanceMap) (List.filter counted_as_cash accounts)
        + total_of (balance_in balanceMap) (List.filter counted_as_investment accounts).
Proof.
  induction accounts as [|acc accounts IH]; intros totals; cbv zeta.
  - cbn. repeat split; ring.
  - cbn [fold_left List.filter].
    destruct (IH (GainLossPage.totals_step balanceMap totals acc)) as (H1 & H2 & H3).
    rewrite H1, H2, H3. clear H1 H2 H3 IH.
    unfold GainLossPage.totals_step, counted_as_cash, counted_as_investment.
    fold (balance_in balanceMap acc).
    destruct (included_in_cash_forecast acc), (acc_type acc);
      cbn [andb orb GainLossPage.cash GainLossPage.investments GainLossPage.cashAndInvestments];
      rewrite ?total_of_cons; repeat split; ring.
Qed.

Lemma total_of_ext {A} (f g : A -> Q) l :
  (forall x, f x = g x) -> total_of f l = total_of g l.
Proof.
  intros Hfg. induction l as [|x l IH]; [reflexivity|].
  rewrite !total_of_cons, Hfg, IH. reflexivity.
Qed.

(** The balance of an account in the map of a list of balances. *)
Lemma balance_in_map balances acc :
  balance_in (GainLossPage.buildBalanceMap balances) acc
  = last_balance_of balances (acc_id acc).
Proof.
  unfold balance_in, GainLossPage.buildBalanceMap, last_balance_of.
  rewrite Map_of_last, <- map_rev, find_map_balances.
  destruct (List.find _ (rev balances)); reflexivity.
Qed.

(** X27: the totals of the gain and loss page for the balances of a
    month.  The cash total adds up the balances of the accounts that are in
    the cash forecast and are neither investments nor loans, the
    investments total the balances of the investment accounts, whether they
    are in the cash forecast or not, and the third total is the sum of the
    two.  The balance of an account is the last one listed for it, 0 when
    none is listed, and a loan never counts. *)
Theorem buildTotalsFromMap_totals (accounts : list Account) (balances : list StartingBalance) :
  let totals :=
    GainLossPage.buildTotalsFromMap accounts (GainLossPage.buildBalanceMap balances) in
  GainLossPage.cash totals
  == total_of (fun acc => last_balance_of balances (acc_id acc))
              (List.filter counted_as_cash accounts)
  /\ GainLossPage.investments totals
     == total_of (fun acc => last_balance_of balances (acc_id acc))
                 (List.filter counted_as_investment accounts)
  /\ GainLossPage.cashAndInvestments totals
     == GainLossPage.cash totals + GainLossPage.investments totals.
Proof.
  cbv zeta. unfold GainLossPage.buildTotalsFromMap.
  set (balanceMap := GainLossPage.buildBalanceMap balances).
  set (notLoan := fun acc : Account => match acc_type acc with loan => false | _ => true end).
  destruct (totals_step_fold balanceMap (List.filter notLoan accounts)
                             (GainLossPage.mkTotals 0 0 0)) as (H1 & H2 & H3).
  cbv zeta in H1, H2, H3.
  assert (Hcash : List.filter counted_as_cash (List.filter notLoan accounts)
                  = List.filter counted_as_cash accounts).
  { apply filter_within. intros acc. unfold counted_as_cash, notLoan.
    destruct (acc_type acc); rewrite ?andb_false_r; try discriminate; reflexivity. }
  assert (Hinv : List.filter counted_as_investment (List.filter notLoan accounts)
                 = List.filter counted_as_investment accounts).
  { apply filter_within. intros acc. unfold counted_as_investment, notLoan.
    destruct (acc_type acc); try discriminate; reflexivity. }
  rewrite Hcash, Hinv in *. cbn [GainLossPage.cash GainLossPage.investments
                                 GainLossPage.cashAndInvestments] in H1, H2, H3.
  assert (Hext : forall l,
             total_of (balance_in balanceMap) l
             = total_of (fun acc => last_balance_of balances (acc_id acc)) l).
  { intros l. apply total_of_ext. intros acc. apply balance_in_map. }
  rewrite (Hext (List.filter counted_as_cash accounts)) in H1, H3.
  rewrite (Hext (List.filter counted_as_investment accounts)) in H2, H3.
  rewrite H1, H2, H3. repeat split; ring.
Qed.

End GainLossTotals.

(** ** Loans: the payments of a month *)

Module LoanFacts.

Import JS Types Effects LoanTracker Totals LoanNotions PayrollTotals EffectsFacts.
Local Open Scope string_scope.
Local Open Scope Q_scope.

(** The payments of a loan, from payments so far. *)
Lemma payments_fold id txs : forall payments : gmap string Q,
  default 0 (fold_left payment_step txs payments !! id)
  == default 0 (payments !! id)
     + total_of (fun tx => Qabs (tx_amount tx)) (List.filter (paid_to id) txs).
Proof.
  induction txs as [|tx txs IH]; intros payments.
  - cbn. ring.
  - cbn [fold_left List.filter]. rewrite IH. clear IH.
    unfold payment_step, paid_to.
    destruct (tx_loan_id tx) as [named|]; cbn [truthy_opt negb default andb].
    + destruct (truthy named); cbn [negb andb]; [|reflexivity].
      destruct (Qle_bool 0 (tx_amount tx)); cbn [negb].
      * rewrite andb_false_r. reflexivity.
      * rewrite andb_true_r. destruct (String.eqb_spec named id) as [->|Hne].
        -- rewrite lookup_insert_eq, total_of_cons. cbn [default]. unfold Datatypes.id. ring.
        -- rewrite lookup_insert_ne by exact Hne. reflexivity.
    + reflexivity.
Qed.

(** X28: the payments of a month by loan.  What is counted as paid
    to a loan is the total of the amounts, without their signs, of the
    transactions of the month that name the loan and have a negative
    amount; a transaction with a positive amount or the amount 0 counts
    for nothing, and so the total is never negative. *)
Theorem paymentsByLoan_totals (transactions : list Transaction) (id : string) :
  default 0 (paymentsByLoan transactions !! id)
  == total_of (fun tx => Qabs (tx_amount tx)) (List.filter (paid_to id) transactions)
  /\ 0 <= default 0 (paymentsByLoan transactions !! id).
Proof.
  assert (H : default 0 (paymentsByLoan transactions !! id)
              == total_of (fun tx => Qabs (tx_amount tx))
                          (List.filter (paid_to id) transactions)).
  { unfold paymentsByLoan. rewrite payments_fold, lookup_empty. cbn [default]. ring. }
  split; [exact H|]. rewrite H. apply total_of_nonneg.
  apply List.Forall_forall. intros tx _. apply Qabs_nonneg.
Qed.

Lemma default_some {A} (d x : A) : default d (Some x) = x.
Proof. reflexivity. Qed.

Lemma same_amount_refl a : same_amount a a.
Proof. destruct a; cbn; [reflexivity|exact I]. Qed.

Lemma same_record_refl h : same_record h h.
Proof. repeat split; try reflexivity; apply same_amount_refl. Qed.

Lemma same_amount_trans a b c : same_amount a b -> same_amount b c -> same_amount a c.
Proof.
  destruct a, b, c; cbn; try contradiction; try (intros; exact I).
  intros H1 H2. rewrite H1. exact H2.
Qed.

Lemma same_record_trans a b c : same_record a b -> same_record b c -> same_record a c.
Proof.
  intros (M1 & A1 & I1 & B1 & C1) (M2 & A2 & I2 & B2 & C2). repeat split.
  - congruence.
  - rewrite A1. exact A2.
  - eapply same_amount_trans; eassumption.
  - eapply same_amount_trans; eassumption.
  - eapply same_amount_trans; eassumption.
Qed.

Lemma same_amount_sym a b : same_amount a b -> same_amount b a.
Proof. destruct a, b; cbn; try contradiction; try (intros; exact I). intros H. symmetry. exact H. Qed.

Lemma same_record_sym a b : same_record a b -> same_record b a.
Proof.
  intros (M1 & A1 & I1 & B1 & C1). repeat split.
  - congruence.
  - symmetry. exact A1.
  - apply same_amount_sym. exact I1.
  - apply same_amount_sym. exact B1.
  - apply same_amount_sym. exact C1.
Qed.

Lemma Forall2_same_trans l1 : forall l2 l3,
  Forall2 same_record l1 l2 -> Forall2 same_record l2 l3 -> Forall2 same_record l1 l3.
Proof.
  induction l1 as [|a l1 IH]; intros l2 l3 H12 H23.
  - inversion H12; subst. inversion H23; subst. constructor.
  - inversion H12; subst. inversion H23; subst. constructor.
    + eapply same_record_trans; eassumption.
    + eapply IH; eassumption.
Qed.

Section Month.

Variable selectedMonthId : string.

Local Abbreviation of_month :=
  (fun h : LoanPaymentRecord => String.eqb (payment_month_id h) selectedMonthId).
Local Abbreviation replaced record :=
  (fun h : LoanPaymentRecord =>
     if String.eqb (payment_month_id h) selectedMonthId then record else h).

Lemma find_replaced record history :
  of_month record = true ->
  List.find of_month (map (replaced record) history)
  = match List.find of_month history with Some _ => Some record | None => None end.
Proof.
  intros Hrecord. induction history as [|h history IH]; [reflexivity|].
  cbn [map List.find]. destruct (String.eqb (payment_month_id h) selectedMonthId) eqn:Hh.
  - rewrite Hrecord. reflexivity.
  - rewrite Hh. exact IH.
Qed.

Lemma find_appended record history :
  List.find of_month history = None -> of_month record = true ->
  List.find of_month (history ++ [record]) = Some record.
Proof.
  intros Hnone Hrecord. induction history as [|h history IH].
  - cbn. rewrite Hrecord. reflexivity.
  - cbn [app List.find] in *.
    destruct (String.eqb (payment_month_id h) selectedMonthId); [discriminate|].
    apply IH. exact Hnone.
Qed.

(** Replacing the records of the month in a history without one. *)
Lemma replaced_none record history :
  List.find of_month history = None -> map (replaced record) history = history.
Proof.
  induction history as [|h history IH]; intros Hnone; [reflexivity|].
  cbn [map List.find] in *.
  destruct (String.eqb (payment_month_id h) selectedMonthId); [discriminate|].
  rewrite IH by exact Hnone. reflexivity.
Qed.

(** Replacing the records of the month twice. *)
Lemma replaced_twice first second history :
  of_month first = true ->
  map (replaced second) (map (replaced first) history) = map (replaced second) history.
Proof.
  intros Hfirst. rewrite map_map. apply map_ext. intros h.
  destruct (String.eqb (payment_month_id h) selectedMonthId) eqn:Hh.
  - rewrite Hfirst. reflexivity.
  - rewrite Hh. reflexivity.
Qed.

(** Histories that differ by the record that replaces those of the
    month. *)
Lemma replaced_same first second history :
  same_record first second ->
  Forall2 same_record (map (replaced first) history) (map (replaced second) history).
Proof.
  intros Hsame. induction history as [|h history IH]; cbn [map]; constructor.
  - destruct (String.eqb (payment_month_id h) selectedMonthId);
      [exact Hsame|apply same_record_refl].
  - exact IH.
Qed.

Lemma appended_same first second history :
  same_record first second ->
  Forall2 same_record (history ++ [first]) (history ++ [second]).
Proof.
  intros Hsame. induction history as [|h history IH]; cbn [app]; constructor.
  - exact Hsame.
  - constructor.
  - apply same_record_refl.
  - exact IH.
Qed.

(** The balance before the month, the interest of the month and the
    record of the month, as [applyToLoan] works them out. *)
Local Abbreviation existing_of loan :=
  (List.find of_month (default [] (payment_history loan))).
Local Abbreviation before_of loan :=
  (match existing_of loan with
   | Some h => default (current_balance loan) (balance_before h)
   | None => current_balance loan
   end).
Local Abbreviation interest_of loan :=
  ((before_of loan * (interest_rate loan / 100)) / 12).
Local Abbreviation paid_of payments loan :=
  (default 0 ((payments : gmap string Q) !! loan_id loan)).
Local Abbreviation record_of payments loan after :=
  {| payment_month_id := selectedMonthId;
     payment_amount := paid_of payments loan;
     interest_accrued := Some (interest_of loan);
     balance_before := Some (before_of loan);
     balance_after := Some after |}.
Local Abbreviation history_with loan record :=
  (match existing_of loan with
   | Some _ => map (replaced record) (default [] (payment_history loan))
   | None => List.app (default [] (payment_history loan)) (cons record nil)
   end).
Local Abbreviation same_static result loan :=
  (loan_id result = loan_id loan
   /\ loan_name result = loan_name loan
   /\ origination_date result = origination_date loan
   /\ original_principal result = original_principal loan
   /\ interest_rate result = interest_rate loan
   /\ maturity_date result = maturity_date loan
   /\ loan_created_at result = loan_created_at loan).

(** What [applyToLoan] makes of a loan. *)
Lemma applyToLoan_result payments loan w :
  let result := fst (applyToLoan selectedMonthId payments loan w) in
  current_balance result
  = Qmax 0 (current_balance loan
            + (interest_of loan
               - match existing_of loan with
                 | Some h => default 0 (interest_accrued h)
                 | None => 0
                 end)
            - (paid_of payments loan
               - match existing_of loan with Some h => payment_amount h | None => 0 end))
  /\ default [] (payment_history result)
     = history_with loan (record_of payments loan (current_balance result))
  /\ existing_of result = Some (record_of payments loan (current_balance result))
  /\ same_static result loan.
Proof.
  cbv zeta. unfold applyToLoan, bind, ret, Date_now. cbn [fst current_balance payment_history
    loan_id loan_name origination_date original_principal interest_rate maturity_date
    loan_created_at].
  split; [reflexivity|]. split; [reflexivity|]. split; [|repeat split; reflexivity].
  destruct (List.find of_month (default [] (payment_history loan))) as [h|] eqn:Hfind.
  - lazymatch goal with
    | |- List.find _ (default [] (Some ?x)) = _ => change (default [] (Some x)) with x
    end.
    rewrite find_replaced by (cbn; apply String.eqb_refl).
    rewrite Hfind. reflexivity.
  - lazymatch goal with
    | |- List.find _ (default [] (Some ?x)) = _ => change (default [] (Some x)) with x
    end.
    apply find_appended; [exact Hfind|cbn; apply String.eqb_refl].
Qed.

(** A loan after a second application for the month, in terms of the loan
    before the first. *)
Lemma applied_again first second loan w1 w2 :
  let once := fst (applyToLoan selectedMonthId first loan w1) in
  let twice := fst (applyToLoan selectedMonthId second once w2) in
  current_balance twice
  == Qmax 0 (current_balance once - (paid_of second loan - paid_of first loan))
  /\ Forall2 same_record
       (default [] (payment_history twice))
       (history_with loan (record_of second loan (current_balance twice)))
  /\ same_static twice loan.
Proof.
  cbv zeta.
  destruct (applyToLoan_result first loan w1) as (B1 & H1 & E1 & S1).
  destruct (applyToLoan_result second (fst (applyToLoan selectedMonthId first loan w1)) w2)
    as (B2 & H2 & E2 & S2).
  cbv zeta in *.
  set (once := fst (applyToLoan selectedMonthId first loan w1)) in *.
  set (twice := fst (applyToLoan selectedMonthId second once w2)) in *.
  destruct S1 as (I1 & N1 & O1 & P1 & R1 & M1 & C1).
  destruct S2 as (I2 & N2 & O2 & P2 & R2 & M2 & C2).
  rewrite E1 in B2, H2.
  cbn [balance_before interest_accrued payment_amount] in B2, H2.
  rewrite !default_some, I1, R1 in B2, H2.
  split; [|split].
  - rewrite B2. apply Q.max_compat; [reflexivity|]. rewrite !default_some. ring.
  - rewrite H2, H1. clear B1 B2 H1 H2 E2.
    destruct (List.find of_month (default [] (payment_history loan))) as [h|] eqn:Hfind.
    + rewrite replaced_twice by (cbn; apply String.eqb_refl).
      apply replaced_same. apply same_record_refl.
    + rewrite map_app, replaced_none by exact Hfind. cbn [map payment_month_id].
      rewrite String.eqb_refl. apply appended_same. apply same_record_refl.
  - repeat split; congruence.
Qed.

Lemma applied_nonneg payments loan w :
  0 <= current_balance (fst (applyToLoan selectedMonthId payments loan w)).
Proof.
  destruct (applyToLoan_result payments loan w) as (B & _). cbv zeta in B.
  rewrite B. apply Q.le_max_l.
Qed.

(** The first loan of a list and the others. *)
Lemma mapM_cons_fst {A B} (f : A -> Gen B) x l w :
  fst (mapM f (x :: l) w) = fst (f x w) :: fst (mapM f l (snd (f x w))).
Proof.
  cbn [mapM]. unfold bind, ret. destruct (f x w) as [y w']. cbn [fst snd].
  destruct (mapM f l w') as [ys w'']. reflexivity.
Qed.

Lemma applyPayments_fst snapshot loans w :
  fst (applyPaymentsForMonth selectedMonthId (Some snapshot) loans w)
  = Some (fst (mapM (applyToLoan selectedMonthId (paymentsByLoan (transactions snapshot)))
                    loans w)).
Proof.
  unfold applyPaymentsForMonth, bind, ret.
  destruct (mapM _ loans w) as [updated w']. reflexivity.
Qed.

(** Loans after the same payments applied a second time. *)
Lemma loans_applied_twice payments loans : forall w1 w2,
  Forall2 same_loan
    (fst (mapM (applyToLoan selectedMonthId payments)
               (fst (mapM (applyToLoan selectedMonthId payments) loans w1)) w2))
    (fst (mapM (applyToLoan selectedMonthId payments) loans w1)).
Proof.
  induction loans as [|loan loans IH]; intros w1 w2; [constructor|].
  rewrite (mapM_cons_fst _ loan loans w1), mapM_cons_fst. constructor; [|apply IH].
  destruct (applied_again payments payments loan w1 w2) as (B & H & S).
  destruct (applyToLoan_result payments loan w1) as (B1 & H1 & _ & S1).
  cbv zeta in *.
  pose proof (applied_nonneg payments loan w1) as Hpos.
  set (once := fst (applyToLoan selectedMonthId payments loan w1)) in *.
  set (twice := fst (applyToLoan selectedMonthId payments once w2)) in *.
  assert (Hbalance : current_balance twice == current_balance once).
  { rewrite B. rewrite Q.max_r; [ring|]. lra. }
  destruct S as (I2 & N2 & O2 & P2 & R2 & M2 & C2).
  destruct S1 as (I1 & N1 & O1 & P1 & R1 & M1 & C1).
  unfold same_loan. rewrite I2, N2, O2, P2, R2, M2, C2, I1, N1, O1, P1, R1, M1, C1.
  repeat split; try reflexivity; try exact Hbalance.
  rewrite H1. 
  eapply Forall2_same_trans; [exact H|].
  destruct (List.find of_month (default [] (payment_history loan))).
  - apply replaced_same. repeat split; try reflexivity. exact Hbalance.
  - apply appended_same. repeat split; try reflexivity. exact Hbalance.
Qed.

(** Loans after other payments applied for the same month, when no
    balance was brought up to 0 the first time. *)
Lemma loans_applied_again first second loans : forall w1 w2 w3,
  Forall (fun loan => 0 < current_balance loan)
         (fst (mapM (applyToLoan selectedMonthId first) loans w1)) ->
  Forall2 same_loan
    (fst (mapM (applyToLoan selectedMonthId second)
               (fst (mapM (applyToLoan selectedMonthId first) loans w1)) w2))
    (fst (mapM (applyToLoan selectedMonthId second) loans w3)).
Proof.
  induction loans as [|loan loans IH]; intros w1 w2 w3 Hpos; [constructor|].
  rewrite (mapM_cons_fst _ loan loans w1) in *. rewrite !mapM_cons_fst.
  apply List.Forall_cons_iff in Hpos. destruct Hpos as [Hloan Hrest].
  constructor; [|apply IH; exact Hrest].
  destruct (applied_again first second loan w1 w2) as (B & H & S).
  destruct (applyToLoan_result first loan w1) as (B1 & _).
  destruct (applyToLoan_result second loan w3) as (B3 & H3 & _ & S3).
  cbv zeta in *.
  set (once := fst (applyToLoan selectedMonthId first loan w1)) in *.
  set (twice := fst (applyToLoan selectedMonthId second once w2)) in *.
  set (direct := fst (applyToLoan selectedMonthId second loan w3)) in *.
  assert (Hbalance : current_balance twice == current_balance direct).
  { rewrite B, B3. apply Q.max_compat; [reflexivity|].
    rewrite B1 in Hloan |- *. rewrite Q.max_r; [ring|].
    destruct (Qlt_le_dec 0 (current_balance loan
                + (interest_of loan
                   - match existing_of loan with
                     | Some h => default 0 (interest_accrued h)
                     | None => 0
                     end)
                - (paid_of first loan
                   - match existing_of loan with Some h => payment_amount h | None => 0 end)))
      as [Hlt|Hle]; [lra|].
    rewrite Q.max_l in Hloan by exact Hle. lra. }
  destruct S as (I2 & N2 & O2 & P2 & R2 & M2 & C2).
  destruct S3 as (I1 & N1 & O1 & P1 & R1 & M1 & C1).
  unfold same_loan. rewrite I2, N2, O2, P2, R2, M2, C2, I1, N1, O1, P1, R1, M1, C1.
  repeat split; try reflexivity; try exact Hbalance.
  rewrite H3.
  eapply Forall2_same_trans; [exact H|].
  destruct (List.find of_month (default [] (payment_history loan))).
  - apply replaced_same. repeat split; try reflexivity. exact Hbalance.
  - apply appended_same. repeat split; try reflexivity. exact Hbalance.
Qed.

End Month.

(** X29: applying the payments of a month a second time changes
    nothing.  When the payments of a month are applied to loans and then,
    from the same transactions, to the loans that result, taken in the same
    order, the loans stay as they were after the first time, but for the
    time of their update: the interest of the month is not charged twice
    and the payments are not taken off twice.  No balance is negative
    after the payments are applied. *)
Theorem payments_applied_twice (selectedMonthId : string) (snapshot : MonthSnapshot)
        (loans : list Loan) (w1 w2 : World) :
  exists once twice,
    fst (applyPaymentsForMonth selectedMonthId (Some snapshot) loans w1) = Some once
    /\ fst (applyPaymentsForMonth selectedMonthId (Some snapshot) once w2) = Some twice
    /\ Forall2 same_loan twice once
    /\ Forall (fun loan => 0 <= current_balance loan) once.
Proof.
  rewrite applyPayments_fst. eexists. eexists. split; [reflexivity|].
  rewrite applyPayments_fst. split; [reflexivity|]. split.
  - apply loans_applied_twice.
  - generalize w1. induction loans as [|loan loans IH]; intros w; [constructor|].
    rewrite mapM_cons_fst. constructor; [apply applied_nonneg|apply IH].
Qed.

(** X30: applying the payments of a month again after its
    transactions changed.  When no loan was brought to the balance 0 by
    the first application, applying the payments of the changed month to
    the loans that resulted gives the loans that applying them to the
    loans as they were before would have given, but for the time of their
    update: the earlier payments of the month are taken back and the new
    ones counted. *)
Theorem payments_applied_again (selectedMonthId : string)
        (before after : MonthSnapshot) (loans once : list Loan) (w1 w2 w3 : World) :
  fst (applyPaymentsForMonth selectedMonthId (Some before) loans w1) = Some once ->
  Forall (fun loan => 0 < current_balance loan) once ->
  exists twice direct,
    fst (applyPaymentsForMonth selectedMonthId (Some after) once w2) = Some twice
    /\ fst (applyPaymentsForMonth selectedMonthId (Some after) loans w3) = Some direct
    /\ Forall2 same_loan twice direct.
Proof.
  rewrite applyPayments_fst. intros Honce Hpos. injection Honce as <-.
  eexists. eexists. rewrite !applyPayments_fst.
  split; [reflexivity|]. split; [reflexivity|].
  apply loans_applied_again. exact Hpos.
Qed.

Lemma payments_applied_again_witness :
  let once :=
    default [] (fst (applyPaymentsForMonth "2024-03" (Some (sample_payment_month 300))
                       [sample_car_loan] SpecNotions.sample_world)) in
  exists twice direct,
    fst (applyPaymentsForMonth "2024-03" (Some (sample_payment_month 400)) once
           SpecNotions.sample_world) = Some twice
    /\ fst (applyPaymentsForMonth "2024-03" (Some (sample_payment_month 400))
              [sample_car_loan] SpecNotions.sample_world) = Some direct
    /\ Forall2 same_loan twice direct.
Proof.
  apply (payments_applied_again "2024-03" (sample_payment_month 300)
           (sample_payment_month 400) [sample_car_loan]
           (default [] (fst (applyPaymentsForMonth "2024-03" (Some (sample_payment_month 300))
                               [sample_car_loan] SpecNotions.sample_world)))
           SpecNotions.sample_world).
  - reflexivity.
  - vm_compute. repeat constructor.
Defined.

(** A payment of 300 on a loan of 12000 at 6 percent leaves 11760, the
    interest of the month being 60; a loan paid more than is owed is left
    at 0, and a lower payment applied afterwards brings back the
    difference of the payments, 30, not what is owed, 0. *)
Example payments_of_march :
  (option_map (map (fun loan => Qred (current_balance loan)))
     (fst (applyPaymentsForMonth "2024-03" (Some (sample_payment_month 300))
             [sample_car_loan] SpecNotions.sample_world))
   = Some [11760])
  /\ (let owed := mkLoan "loan2" "Small loan" "2023-01-01" 100 100 0 "2025-01-01" None 0 0 in
      let once := fst (applyToLoan "2024-03" {[ "loan2"%string := 150 ]} owed
                                   SpecNotions.sample_world) in
      let twice := fst (applyToLoan "2024-03" {[ "loan2"%string := 120 ]} once
                                    SpecNotions.sample_world) in
      let direct := fst (applyToLoan "2024-03" {[ "loan2"%string := 120 ]} owed
                                     SpecNotions.sample_world) in
      Qred (current_balance once) = 0 /\ Qred (current_balance twice) = 30
      /\ Qred (current_balance direct) = 0).
Proof. split; [|repeat split]; vm_compute; reflexivity. Qed.

End LoanFacts.

